(** * memojs: the sorted linked list engine and the B+ tree of btree.ts

    A shallow embedding of [btree.ts] (and the [InMemoCache] facade of
    [inmemocache.ts]).  JavaScript objects live in arenas indexed by
    natural numbers; a reference is an index, [undefined] is [None].
    Every function that mutates objects is a computation in a state and
    error monad over the arenas; functions that only read take the arenas
    as an argument.  Loops of the source that follow pointers are
    recursive on a [fuel] argument, one unit per iteration. *)

From stdpp Require Import base list strings.
From Stdlib Require Import ZArith Lia.

Local Open Scope Z_scope.

(** ** Outcomes of a call *)

(** What a JavaScript call can raise.  [Dangling] and [OutOfFuel] do not
    exist in JavaScript: the first marks a reference to an index that is
    not in its arena (no JavaScript reference dangles), the second a loop
    that used up its budget of iterations. *)
Inductive exn :=
| Error (msg : string)
| TypeError
| Dangling
| OutOfFuel.

Inductive Res (A : Type) :=
| Ok (a : A)
| Fail (e : exn).
Arguments Ok {A} a.
Arguments Fail {A} e.

Class Monad (m : Type -> Type) := {
  ret : forall {A}, A -> m A;
  bind : forall {A B}, m A -> (A -> m B) -> m B
}.

Notation "'let*' x := m 'in' k" := (bind m (fun x => k))
  (at level 10, x name, m at level 100, k at level 200).
Notation "'let*' ' p := m 'in' k" := (bind m (fun x => match x with p => k end))
  (at level 10, p pattern, m at level 100, k at level 200).
Notation "m ';;' k" := (bind m (fun _ => k))
  (at level 100, k at level 200, right associativity).

#[export] Instance Monad_Res : Monad Res := {
  ret := fun A a => Ok a;
  bind := fun A B r k => match r with Ok a => k a | Fail e => Fail e end
}.

(** The state and error monad: a failed call has no final state in the
    model (the source may leave partial mutations behind). *)
Definition M (S A : Type) : Type := S -> Res (A * S).

#[export] Instance Monad_M (S : Type) : Monad (M S) := {
  ret := fun A a s => Ok (a, s);
  bind := fun A B m k s => match m s with Ok (a, s') => k a s' | Fail e => Fail e end
}.

Definition throw {S A} (e : exn) : M S A := fun _ => Fail e.
Definition get {S} : M S S := fun s => Ok (s, s).
(** Run a reading function on the current state. *)
Definition read {S A} (f : S -> Res A) : M S A :=
  fun s => match f s with Ok a => Ok (a, s) | Fail e => Fail e end.

(** Arenas. *)
Definition deref {A} (store : list A) (i : nat) : Res A :=
  match store !! i with
  | Some x => Ok x
  | None => Fail Dangling
  end.

(** [a || b] on possibly undefined references. *)
Definition orElse {A} (a b : option A) : option A :=
  match a with Some _ => a | None => b end.

(** ** Core types *)

Inductive SearchType :=
| LesserThanOrEqualsTo
| EqualsTo
| GreaterThanOrEqualsTo
| LesserThan
| GreaterThan.

Module LinkedNode.
Record t (K : Type) := mk {
  rightSibling : option nat;
  leftSibling : option nat;
  duplicate_count : Z;
  key : K
}.
Arguments mk {K}.
Arguments rightSibling {K}.
Arguments leftSibling {K}.
Arguments duplicate_count {K}.
Arguments key {K}.
Definition set_rightSibling {K} (v : option nat) (n : t K) : t K :=
  mk v (leftSibling n) (duplicate_count n) (key n).
Definition set_leftSibling {K} (v : option nat) (n : t K) : t K :=
  mk (rightSibling n) v (duplicate_count n) (key n).
Definition set_duplicate_count {K} (v : Z) (n : t K) : t K :=
  mk (rightSibling n) (leftSibling n) v (key n).
Definition set_key {K} (v : K) (n : t K) : t K :=
  mk (rightSibling n) (leftSibling n) (duplicate_count n) v.
(** [new LinkedNode(key)] *)
Definition new {K} (k : K) : t K := mk None None 0 k.
End LinkedNode.

Module SortedLinkedList.
Record t := mk {
  min : option nat;
  max : option nat;
  count : Z
}.
Definition set_min (v : option nat) (l : t) : t := mk v (max l) (count l).
Definition set_max (v : option nat) (l : t) : t := mk (min l) v (count l).
Definition set_count (v : Z) (l : t) : t := mk (min l) (max l) v.
(** [new SortedLinkedList()] *)
Definition new : t := mk None None 0.
End SortedLinkedList.

(** The objects of the list engine: list nodes and list headers. *)
Module LHeap.
Record t (K : Type) := mk {
  lnodes : list (LinkedNode.t K);
  llists : list SortedLinkedList.t
}.
Arguments mk {K}.
Arguments lnodes {K}.
Arguments llists {K}.
Definition empty {K} : t K := mk [] [].
End LHeap.

(** ** LL: the sorted linked list engine *)

Module LL.
Section LL.
Context {K : Type}.
(** A comparator is a JavaScript function: it returns a number or
    raises. *)
Variable compare : K -> K -> Res Z.
(** [!k] for a key of the list. *)
Variable falsy : K -> bool.

Abbreviation heap := (LHeap.t K).

Definition node (h : heap) (i : nat) : Res (LinkedNode.t K) :=
  deref (LHeap.lnodes h) i.
Definition header (h : heap) (i : nat) : Res SortedLinkedList.t :=
  deref (LHeap.llists h) i.

Definition alloc_node (n : LinkedNode.t K) : M heap nat :=
  fun h => Ok (length (LHeap.lnodes h),
               LHeap.mk (LHeap.lnodes h ++ [n]) (LHeap.llists h)).
Definition alloc_list (l : SortedLinkedList.t) : M heap nat :=
  fun h => Ok (length (LHeap.llists h),
               LHeap.mk (LHeap.lnodes h) (LHeap.llists h ++ [l])).

(** [i.field = v] on a list node *)
Definition modify_node (i : nat) (f : LinkedNode.t K -> LinkedNode.t K) : M heap unit :=
  fun h => match LHeap.lnodes h !! i with
           | Some n => Ok (tt, LHeap.mk (<[i := f n]> (LHeap.lnodes h)) (LHeap.llists h))
           | None => Fail Dangling
           end.
(** [l.field = v] on a list header *)
Definition modify_list (i : nat) (f : SortedLinkedList.t -> SortedLinkedList.t) : M heap unit :=
  fun h => match LHeap.llists h !! i with
           | Some l => Ok (tt, LHeap.mk (LHeap.lnodes h) (<[i := f l]> (LHeap.llists h)))
           | None => Fail Dangling
           end.

(** [if (o) o.field = v] *)
Definition modify_node_if (o : option nat) (f : LinkedNode.t K -> LinkedNode.t K) : M heap unit :=
  match o with
  | Some i => modify_node i f
  | None => ret tt
  end.

(** The [while (current_node)] loop of [search]; the result is the
    triple [(eq, lte, gte)] at the loop's exit. *)
Fixpoint search_loop (fuel : nat) (h : heap) (searchKey : K) (searchType : SearchType)
    (current_node eq lte gte : option nat)
    : Res (option nat * option nat * option nat) :=
  match current_node with
  | None => Ok (eq, lte, gte)
  | Some c =>
    match fuel with
    | O => Fail OutOfFuel
    | S fuel' =>
      let* n := node h c in
      let* compareResult := compare searchKey (LinkedNode.key n) in
      if compareResult =? 0 then
        match searchType with
        | GreaterThan =>
          search_loop fuel' h searchKey searchType (LinkedNode.rightSibling n) eq lte gte
        | _ => Ok (Some c, lte, gte)
        end
      else if compareResult >? 0 then
        search_loop fuel' h searchKey searchType (LinkedNode.rightSibling n) eq (Some c) gte
      else Ok (eq, lte, Some c)
    end
  end.

Definition search (fuel : nat) (h : heap) (list : nat) (searchKey : K)
    (searchType : SearchType) : Res (option nat) :=
  let* l := header h list in
  match SortedLinkedList.min l with
  | None => Ok None
  | Some _ =>
    let* '(eq, lte, gte) :=
      search_loop fuel h searchKey searchType (SortedLinkedList.min l) None None None in
    match searchType with
    | LesserThanOrEqualsTo => Ok (orElse eq lte)
    | EqualsTo => Ok eq
    | GreaterThanOrEqualsTo => Ok (orElse eq gte)
    | LesserThan => Ok lte
    | GreaterThan => Ok gte
    end
  end.

Definition insert (fuel : nat) (list : nat) (key : K) : M heap nat :=
  let* newNode := alloc_node (LinkedNode.new key) in
  let* l := read (fun h => header h list) in
  let finish : M heap nat :=
    (* list.count++; return newNode; *)
    modify_list list (fun l => SortedLinkedList.set_count (SortedLinkedList.count l + 1) l) ;;
    ret newNode in
  match SortedLinkedList.min l with
  | None =>
    modify_list list (SortedLinkedList.set_min (Some newNode)) ;;
    modify_list list (SortedLinkedList.set_max (Some newNode)) ;;
    finish
  | Some list_min =>
    let* foundNode := read (fun h => search fuel h list key LesserThanOrEqualsTo) in
    match foundNode with
    | None =>
      modify_node list_min (LinkedNode.set_leftSibling (Some newNode)) ;;
      modify_node newNode (LinkedNode.set_rightSibling (Some list_min)) ;;
      modify_list list (SortedLinkedList.set_min (Some newNode)) ;;
      finish
    | Some foundNode =>
      let* fn := read (fun h => node h foundNode) in
      let* c := read (fun _ => compare key (LinkedNode.key fn)) in
      if c =? 0 then
        modify_node foundNode
          (fun n => LinkedNode.set_duplicate_count (LinkedNode.duplicate_count n + 1) n) ;;
        modify_list list (fun l => SortedLinkedList.set_count (SortedLinkedList.count l - 1) l) ;;
        modify_node foundNode (LinkedNode.set_key key) ;;
        ret foundNode
      else
        let right_sibling := LinkedNode.rightSibling fn in
        modify_node foundNode (LinkedNode.set_rightSibling (Some newNode)) ;;
        modify_node newNode (LinkedNode.set_leftSibling (Some foundNode)) ;;
        modify_node newNode (LinkedNode.set_rightSibling right_sibling) ;;
        modify_node_if right_sibling (LinkedNode.set_leftSibling (Some newNode)) ;;
        let* l' := read (fun h => header h list) in
        (if decide (Some foundNode = SortedLinkedList.max l')
         then modify_list list (SortedLinkedList.set_max (Some newNode))
         else ret tt) ;;
        finish
    end
  end.

Definition getn (i : nat) : M heap (LinkedNode.t K) := read (fun h => node h i).
Definition getl (i : nat) : M heap SortedLinkedList.t := read (fun h => header h i).

(** Returns the detached copy [deletedNode], a new list node. *)
Definition deleteNode (fuel : nat) (list : nat) (key : K) : M heap (option nat) :=
  let* nodeToDelete := read (fun h => search fuel h list key EqualsTo) in
  match nodeToDelete with
  | Some nodeToDelete =>
    let* nd := getn nodeToDelete in
    let* deletedNode := alloc_node (LinkedNode.new (LinkedNode.key nd)) in
    modify_node deletedNode (LinkedNode.set_duplicate_count (LinkedNode.duplicate_count nd)) ;;
    let* l := getl list in
    (if SortedLinkedList.count l =? 1 then
       modify_list list (SortedLinkedList.set_min None) ;;
       modify_list list (SortedLinkedList.set_max None)
     else
       (if decide (Some nodeToDelete = SortedLinkedList.min l) then
          let oldMin := nodeToDelete in
          modify_list list (SortedLinkedList.set_min (LinkedNode.rightSibling nd)) ;;
          let* om := getn oldMin in
          modify_node_if (LinkedNode.rightSibling om) (LinkedNode.set_leftSibling None) ;;
          modify_node oldMin (LinkedNode.set_rightSibling None)
        else if decide (Some nodeToDelete = SortedLinkedList.max l) then
          let oldMax := nodeToDelete in
          modify_list list (SortedLinkedList.set_max (LinkedNode.leftSibling nd)) ;;
          let* om := getn oldMax in
          modify_node_if (LinkedNode.leftSibling om) (LinkedNode.set_rightSibling None) ;;
          modify_node oldMax (LinkedNode.set_leftSibling None)
        else ret tt) ;;
       let* nd' := getn nodeToDelete in
       let left_sibling := LinkedNode.leftSibling nd' in
       let right_sibling := LinkedNode.rightSibling nd' in
       modify_node_if left_sibling (LinkedNode.set_rightSibling right_sibling) ;;
       modify_node_if right_sibling (LinkedNode.set_leftSibling left_sibling) ;;
       modify_node nodeToDelete (LinkedNode.set_leftSibling None) ;;
       modify_node nodeToDelete (LinkedNode.set_rightSibling None)) ;;
    modify_list list
      (fun l => SortedLinkedList.set_count
                  (SortedLinkedList.count l - (LinkedNode.duplicate_count nd + 1)) l) ;;
    ret (Some deletedNode)
  | None => ret None
  end.

(** [for (let i = 0; i <= splitAfterIndex; i++) if (m) m = m.rightSibling],
    run for its [n] iterations. *)
Fixpoint advance (n : nat) (h : heap) (m : option nat) : Res (option nat) :=
  match n with
  | O => Ok m
  | S n' =>
    match m with
    | Some c => let* nd := node h c in advance n' h (LinkedNode.rightSibling nd)
    | None => advance n' h None
    end
  end.

Definition splitAt (listToSplit : nat) (splitAfterIndex : Z) : M heap (nat * nat) :=
  let* l := getl listToSplit in
  if SortedLinkedList.count l <? 2 then
    throw (Error "Size of List to be split must be at least 2")
  else if negb (splitAfterIndex <? SortedLinkedList.count l - 1) then
    if splitAfterIndex =? SortedLinkedList.count l - 1 then
      let* empty := alloc_list SortedLinkedList.new in
      ret (listToSplit, empty)
    else throw (Error "splitAtIndex must be less than listToSplit.count-1")
  else
    let origSize := SortedLinkedList.count l in
    let* minOfRightPortion :=
      read (fun h => advance (Z.to_nat (splitAfterIndex + 1)) h (SortedLinkedList.min l)) in
    let* maxOfLeftPortion :=
      match minOfRightPortion with
      | Some m => let* nd := getn m in ret (LinkedNode.leftSibling nd)
      | None => ret None
      end in
    modify_node_if maxOfLeftPortion (LinkedNode.set_rightSibling None) ;;
    modify_node_if minOfRightPortion (LinkedNode.set_leftSibling None) ;;
    (* Left part *)
    modify_list listToSplit (SortedLinkedList.set_count (splitAfterIndex + 1)) ;;
    modify_list listToSplit (SortedLinkedList.set_max maxOfLeftPortion) ;;
    (* Right part *)
    let* rightPortion := alloc_list SortedLinkedList.new in
    modify_list rightPortion (SortedLinkedList.set_min minOfRightPortion) ;;
    let* l' := getl listToSplit in
    modify_list rightPortion (SortedLinkedList.set_max (SortedLinkedList.max l')) ;;
    modify_list rightPortion (SortedLinkedList.set_count (origSize - splitAfterIndex - 1)) ;;
    ret (listToSplit, rightPortion).

Definition mergeSplittedRightIntoLeft (leftlist rightlist : nat) : M heap nat :=
  let* r := getl rightlist in
  if SortedLinkedList.count r =? 0 then ret leftlist
  else
    let* l := getl leftlist in
    modify_node_if (SortedLinkedList.max l)
      (LinkedNode.set_rightSibling (SortedLinkedList.min r)) ;;
    modify_node_if (SortedLinkedList.min r)
      (LinkedNode.set_leftSibling (SortedLinkedList.max l)) ;;
    modify_list leftlist (SortedLinkedList.set_max (SortedLinkedList.max r)) ;;
    let* r' := getl rightlist in
    modify_list leftlist
      (fun l => SortedLinkedList.set_count (SortedLinkedList.count l + SortedLinkedList.count r') l) ;;
    ret leftlist.

Definition mergeSplittedLeftIntoRight (leftlist rightlist : nat) : M heap nat :=
  let* l := getl leftlist in
  if SortedLinkedList.count l =? 0 then ret rightlist
  else
    let* r := getl rightlist in
    modify_node_if (SortedLinkedList.max l)
      (LinkedNode.set_rightSibling (SortedLinkedList.min r)) ;;
    modify_node_if (SortedLinkedList.min r)
      (LinkedNode.set_leftSibling (SortedLinkedList.max l)) ;;
    modify_list rightlist (SortedLinkedList.set_min (SortedLinkedList.min l)) ;;
    let* l' := getl leftlist in
    modify_list rightlist
      (fun r => SortedLinkedList.set_count (SortedLinkedList.count r + SortedLinkedList.count l') r) ;;
    ret rightlist.

(** The [while (currentNode)] loop of [searchTillStream], with the
    array [result] built so far; [endNode] is the node the loop compares
    with. *)
Fixpoint searchTillStream_loop (fuel : nat) (h : heap) (endNode : LinkedNode.t K)
    (yieldIndividualDuplicates : bool) (currentNode : option nat) (result : list K)
    : Res (list K) :=
  match currentNode with
  | None => Ok result
  | Some c =>
    match fuel with
    | O => Fail OutOfFuel
    | S fuel' =>
      let* res := node h c in
      let* cr := compare (LinkedNode.key endNode) (LinkedNode.key res) in
      if cr >=? 0 then
        let pushed :=
          if yieldIndividualDuplicates
          then replicate (Z.to_nat (LinkedNode.duplicate_count res + 1)) (LinkedNode.key res)
          else [LinkedNode.key res] in
        searchTillStream_loop fuel' h endNode yieldIndividualDuplicates
          (LinkedNode.rightSibling res) (result ++ pushed)
      else
        searchTillStream_loop fuel' h endNode yieldIndividualDuplicates None result
    end
  end.

(** [!startKey] holds for a missing key and for a falsy one. *)
Definition searchTillStream (fuel : nat) (h : heap) (list : nat)
    (startKey endKey : option K) (yieldIndividualDuplicates : bool)
    : Res (Datatypes.list K) :=
  let* l := header h list in
  let* currentNode :=
    match startKey with
    | Some sk => if falsy sk then Ok (SortedLinkedList.min l)
                 else search fuel h list sk GreaterThanOrEqualsTo
    | None => Ok (SortedLinkedList.min l)
    end in
  let* endNode :=
    match endKey with
    | Some ek => if falsy ek then Ok (SortedLinkedList.max l)
                 else search fuel h list ek LesserThanOrEqualsTo
    | None => Ok (SortedLinkedList.max l)
    end in
  match endNode with
  | Some e =>
    let* en := node h e in
    searchTillStream_loop fuel h en yieldIndividualDuplicates currentNode []
  | None => Ok []
  end.

(** The [while (cn)] loop of [find], with the array [result] built so
    far. *)
Fixpoint find_loop (queryCompare : K -> K -> Res Z) (fuel : nat) (h : heap)
    (cn : option nat) (result : list K) : Res (list K) :=
  match cn with
  | None => Ok result
  | Some c =>
    match fuel with
    | O => Fail OutOfFuel
    | S fuel' =>
      let* n := node h c in
      let* q := queryCompare (LinkedNode.key n) (LinkedNode.key n) in
      find_loop queryCompare fuel' h (LinkedNode.rightSibling n)
        (if q =? 0 then result ++ [LinkedNode.key n] else result)
    end
  end.

(** [yieldIndividualDuplicates] is a parameter the source never reads. *)
Definition find (fuel : nat) (h : heap) (list : nat) (queryCompare : K -> K -> Res Z)
    (yieldIndividualDuplicates : bool) : Res (Datatypes.list K) :=
  let* l := header h list in
  find_loop queryCompare fuel h (SortedLinkedList.min l) [].

End LL.
End LL.

(** ** The objects of the tree *)

Definition ComparatorFunction (K : Type) : Type := K -> K -> Res Z.

Module BPlusCell.
Record t (K V : Type) := mk {
  key : K;
  value : option V;
  right_child_node : option nat;
  parentNodeForRightChildNode : option nat
}.
Arguments mk {K V}.
Arguments key {K V}.
Arguments value {K V}.
Arguments right_child_node {K V}.
Arguments parentNodeForRightChildNode {K V}.
Definition set_key {K V} (v : K) (c : t K V) : t K V :=
  mk v (value c) (right_child_node c) (parentNodeForRightChildNode c).
Definition set_value {K V} (v : option V) (c : t K V) : t K V :=
  mk (key c) v (right_child_node c) (parentNodeForRightChildNode c).
(** [new BPlusCell(key, right_child_node, parentNodeForRightChildNode)] *)
Definition new {K V} (k : K) (r p : option nat) : t K V := mk k None r p.
End BPlusCell.

(** [parent_tree] is left out: the source writes it once per node and
    never reads it, and the model holds one tree. *)
Module BPlusNode.
Record t := mk {
  parent_cell : option nat;
  rightSibling : option nat;
  leftSibling : option nat;
  parent_node : option nat;
  cellsList : nat;
  left_most_child : option nat;
  isLeaf : bool
}.
Definition set_parent_cell (v : option nat) (n : t) : t :=
  mk v (rightSibling n) (leftSibling n) (parent_node n) (cellsList n) (left_most_child n) (isLeaf n).
Definition set_rightSibling (v : option nat) (n : t) : t :=
  mk (parent_cell n) v (leftSibling n) (parent_node n) (cellsList n) (left_most_child n) (isLeaf n).
Definition set_leftSibling (v : option nat) (n : t) : t :=
  mk (parent_cell n) (rightSibling n) v (parent_node n) (cellsList n) (left_most_child n) (isLeaf n).
Definition set_parent_node (v : option nat) (n : t) : t :=
  mk (parent_cell n) (rightSibling n) (leftSibling n) v (cellsList n) (left_most_child n) (isLeaf n).
Definition set_cellsList (v : nat) (n : t) : t :=
  mk (parent_cell n) (rightSibling n) (leftSibling n) (parent_node n) v (left_most_child n) (isLeaf n).
Definition set_left_most_child (v : option nat) (n : t) : t :=
  mk (parent_cell n) (rightSibling n) (leftSibling n) (parent_node n) (cellsList n) v (isLeaf n).
Definition set_isLeaf (v : bool) (n : t) : t :=
  mk (parent_cell n) (rightSibling n) (leftSibling n) (parent_node n) (cellsList n) (left_most_child n) v.
Definition isLeftMostNode (n : t) : bool :=
  match parent_cell n with None => true | Some _ => false end.
Definition isRoot (n : t) : bool :=
  match parent_node n with None => true | Some _ => false end.
End BPlusNode.

Module BPlusTree.
Record t := mk {
  left_most_node : option nat;
  right_most_node : option nat;
  root_node : option nat;
  size : Z;
  half_capacity : Z;
  max_node_size : Z
}.
Definition set_left_most_node (v : option nat) (t0 : t) : t :=
  mk v (right_most_node t0) (root_node t0) (size t0) (half_capacity t0) (max_node_size t0).
Definition set_right_most_node (v : option nat) (t0 : t) : t :=
  mk (left_most_node t0) v (root_node t0) (size t0) (half_capacity t0) (max_node_size t0).
Definition set_root_node (v : option nat) (t0 : t) : t :=
  mk (left_most_node t0) (right_most_node t0) v (size t0) (half_capacity t0) (max_node_size t0).
Definition set_size (v : Z) (t0 : t) : t :=
  mk (left_most_node t0) (right_most_node t0) (root_node t0) v (half_capacity t0) (max_node_size t0).

(** [new BPlusTree(max_node_size)].  [%] is JavaScript's remainder
    ([Z.rem], sign of the dividend); [Math.floor(n / 2)] is [n / 2]. *)
Definition new (max_node_size : Z) : Res t :=
  if Z.rem max_node_size 2 =? 1 then
    Fail (Error "node_size for tree must be an even number")
  else
    Ok (mk None None None 0 (max_node_size / 2) max_node_size).
End BPlusTree.

(** All the objects: the list engine's arenas (its keys are references
    to cells), the cells, the tree nodes, and the one tree. *)
Module Heap.
Record t (K V : Type) := mk {
  lheap : LHeap.t nat;
  cells : list (BPlusCell.t K V);
  nodes : list BPlusNode.t;
  tree : BPlusTree.t
}.
Arguments mk {K V}.
Arguments lheap {K V}.
Arguments cells {K V}.
Arguments nodes {K V}.
Arguments tree {K V}.
Definition init {K V} (t0 : BPlusTree.t) : t K V := mk LHeap.empty [] [] t0.
(** The heap with one more cell, at index [length (cells st)]. *)
Definition add_cell {K V} (st : t K V) (c : BPlusCell.t K V) : t K V :=
  mk (lheap st) (cells st ++ [c]) (nodes st) (tree st).
End Heap.

Inductive BalanceCase :=
| DO_NOTHING
| REMOVE_ROOT
| SPLIT
| DISTRIBUTE_RIGHT_INTO_NODE
| DISTRIBUTE_LEFT_INTO_NODE
| MERGE_RIGHT_INTO_NODE
| MERGE_NODE_INTO_LEFT.

Inductive SOURCE_IS := LEFT_SIBLING | RIGHT_SIBLING.

(** ** Access to the objects of the tree *)

Section Access.
Context {K V : Type}.
Abbreviation state := (Heap.t K V).
Abbreviation cell := (BPlusCell.t K V).

Definition cellOf (st : state) (i : nat) : Res cell := deref (Heap.cells st) i.
Definition bnodeOf (st : state) (i : nat) : Res BPlusNode.t := deref (Heap.nodes st) i.
Definition lnodeOf (st : state) (i : nat) : Res (LinkedNode.t nat) := LL.node (Heap.lheap st) i.
Definition listOf (st : state) (i : nat) : Res SortedLinkedList.t := LL.header (Heap.lheap st) i.

Definition getc (i : nat) : M state cell := read (fun st => cellOf st i).
Definition getb (i : nat) : M state BPlusNode.t := read (fun st => bnodeOf st i).
Definition getln (i : nat) : M state (LinkedNode.t nat) := read (fun st => lnodeOf st i).
Definition getll (i : nat) : M state SortedLinkedList.t := read (fun st => listOf st i).
Definition get_tree : M state BPlusTree.t := fun st => Ok (Heap.tree st, st).

(** Run an operation of the list engine on the tree's list arenas. *)
Definition liftLL {A} (m : M (LHeap.t nat) A) : M state A :=
  fun st => match m (Heap.lheap st) with
            | Ok (a, h) => Ok (a, Heap.mk h (Heap.cells st) (Heap.nodes st) (Heap.tree st))
            | Fail e => Fail e
            end.

Definition alloc_cell (c : cell) : M state nat :=
  fun st => Ok (length (Heap.cells st), Heap.add_cell st c).
Definition alloc_bnode (n : BPlusNode.t) : M state nat :=
  fun st => Ok (length (Heap.nodes st),
                Heap.mk (Heap.lheap st) (Heap.cells st) (Heap.nodes st ++ [n]) (Heap.tree st)).
Definition modify_cell (i : nat) (f : cell -> cell) : M state unit :=
  fun st => match Heap.cells st !! i with
            | Some c => Ok (tt, Heap.mk (Heap.lheap st) (<[i := f c]> (Heap.cells st))
                                        (Heap.nodes st) (Heap.tree st))
            | None => Fail Dangling
            end.
Definition modify_bnode (i : nat) (f : BPlusNode.t -> BPlusNode.t) : M state unit :=
  fun st => match Heap.nodes st !! i with
            | Some n => Ok (tt, Heap.mk (Heap.lheap st) (Heap.cells st)
                                        (<[i := f n]> (Heap.nodes st)) (Heap.tree st))
            | None => Fail Dangling
            end.
Definition modify_bnode_if (o : option nat) (f : BPlusNode.t -> BPlusNode.t) : M state unit :=
  match o with
  | Some i => modify_bnode i f
  | None => ret tt
  end.
Definition modify_tree (f : BPlusTree.t -> BPlusTree.t) : M state unit :=
  fun st => Ok (tt, Heap.mk (Heap.lheap st) (Heap.cells st) (Heap.nodes st) (f (Heap.tree st))).

(** [o!.x]: reading through an undefined reference raises a TypeError. *)
Definition defined {S A} (o : option A) : M S A :=
  match o with
  | Some a => ret a
  | None => throw TypeError
  end.

(** A comparator on cells, seen by the list engine, whose keys are
    references to cells. *)
Definition onCells (st : state) (compare : ComparatorFunction cell) : ComparatorFunction nat :=
  fun a b =>
    let* ca := cellOf st a in
    let* cb := cellOf st b in
    compare ca cb.

(** Objects are truthy. *)
Definition objectFalsy (c : nat) : bool := false.

Definition LLsearch (fuel : nat) (st : state) (compare : ComparatorFunction cell)
    (list searchKey : nat) (searchType : SearchType) : Res (option nat) :=
  LL.search (onCells st compare) fuel (Heap.lheap st) list searchKey searchType.
Definition LLinsert (fuel : nat) (compare : ComparatorFunction cell) (list key : nat) : M state nat :=
  fun st => liftLL (LL.insert (onCells st compare) fuel list key) st.
Definition LLdeleteNode (fuel : nat) (compare : ComparatorFunction cell) (list key : nat)
    : M state (option nat) :=
  fun st => liftLL (LL.deleteNode (onCells st compare) fuel list key) st.
Definition LLsearchTillStream (fuel : nat) (st : state) (compare : ComparatorFunction cell)
    (list : nat) (startKey endKey : option nat) : Res (Datatypes.list nat) :=
  LL.searchTillStream (onCells st compare) objectFalsy fuel (Heap.lheap st) list
    startKey endKey false.
End Access.

(** ** Node and cell creation utilities *)

Section Creation.
Context {K V : Type}.
Abbreviation state := (Heap.t K V).
Abbreviation cell := (BPlusCell.t K V).

(** [new BPlusNode()]: the field initialiser allocates a cell list. *)
Definition new_BPlusNode : M state nat :=
  let* cellsList := liftLL (LL.alloc_list SortedLinkedList.new) in
  alloc_bnode (BPlusNode.mk None None None None cellsList None false).

Definition createBPlusNode (isLeaf : bool) (parent_node left_most_child : option nat)
    : M state nat :=
  let* node := new_BPlusNode in
  modify_bnode node (BPlusNode.set_isLeaf isLeaf) ;;
  modify_bnode node (BPlusNode.set_parent_node parent_node) ;;
  modify_bnode node (BPlusNode.set_left_most_child left_most_child) ;;
  let* cellsList := liftLL (LL.alloc_list SortedLinkedList.new) in
  modify_bnode node (BPlusNode.set_cellsList cellsList) ;;
  match left_most_child with
  | Some lmc =>
    modify_bnode lmc (BPlusNode.set_parent_node (Some node)) ;;
    modify_bnode lmc (BPlusNode.set_parent_cell None) ;;
    ret node
  | None => ret node
  end.

Definition createBPlusCell (key : K) (right_child_node parentNodeForRightChildNode : option nat)
    : M state nat :=
  let* cell := alloc_cell (BPlusCell.new key right_child_node parentNodeForRightChildNode) in
  match right_child_node with
  | Some r =>
    modify_bnode r (BPlusNode.set_parent_cell (Some cell)) ;;
    let* rn := getb r in
    match BPlusNode.parent_node rn with
    | Some _ =>
      modify_bnode r (BPlusNode.set_parent_node parentNodeForRightChildNode) ;;
      ret cell
    | None => ret cell
    end
  | None => ret cell
  end.

(** The loop shared by [setAsCellsList] and
    [reinforceParentShipInChildNodes]: every right child of a cell of
    the list gets [node] as its parent. *)
Fixpoint adopt_loop (fuel : nat) (node : nat) (currentLinkedNode : option nat) : M state unit :=
  match currentLinkedNode with
  | None => ret tt
  | Some c =>
    match fuel with
    | O => throw OutOfFuel
    | S fuel' =>
      let* ln := getln c in
      let* k := getc (LinkedNode.key ln) in
      modify_bnode_if (BPlusCell.right_child_node k) (BPlusNode.set_parent_node (Some node)) ;;
      let* ln' := getln c in
      adopt_loop fuel' node (LinkedNode.rightSibling ln')
    end
  end.

Definition setAsCellsList (fuel : nat) (node newCellsList : nat) : M state unit :=
  let* n := getb node in
  (if negb (BPlusNode.isLeaf n) then
     let* l := getll newCellsList in
     adopt_loop fuel node (SortedLinkedList.min l)
   else ret tt) ;;
  modify_bnode node (BPlusNode.set_cellsList newCellsList).

Definition reinforceParentShipInChildNodes (fuel : nat) (node : nat) : M state unit :=
  let* n := getb node in
  if negb (BPlusNode.isLeaf n) then
    let* l := getll (BPlusNode.cellsList n) in
    adopt_loop fuel node (SortedLinkedList.min l)
  else ret tt.

Definition setAsLeftMostChildNode (node nodeToSetAsLeftMostChild : nat) : M state unit :=
  modify_bnode node (BPlusNode.set_left_most_child (Some nodeToSetAsLeftMostChild)) ;;
  modify_bnode nodeToSetAsLeftMostChild (BPlusNode.set_parent_node (Some node)) ;;
  modify_bnode nodeToSetAsLeftMostChild (BPlusNode.set_parent_cell None).
End Creation.

(** ** BB: the tree *)

Module BB.
Section BB.
Context {K V : Type}.
(** [!k] for a key of the tree ([0], the empty string, ...). *)
Variable falsy : K -> bool.

Abbreviation state := (Heap.t K V).
Abbreviation cell := (BPlusCell.t K V).
Abbreviation comparator := (ComparatorFunction (BPlusCell.t K V)).

(** [node.size()] *)
Definition sizeOf (st : state) (node : nat) : Res Z :=
  let* n := bnodeOf st node in
  let* l := listOf st (BPlusNode.cellsList n) in
  Ok (SortedLinkedList.count l).

Definition siblingSize (st : state) (sibling : option nat) : Res Z :=
  match sibling with
  | Some s => sizeOf st s
  | None => Ok 0
  end.

Definition _determineBalancingCase (st : state) (effectedNode : nat) : Res BalanceCase :=
  let tree := Heap.tree st in
  let* node_size := sizeOf st effectedNode in
  let half_capacity := BPlusTree.half_capacity tree in
  if (half_capacity <=? node_size) && (node_size <=? BPlusTree.max_node_size tree) then
    Ok DO_NOTHING
  else if node_size >? BPlusTree.max_node_size tree then
    Ok SPLIT
  else
    let* n := bnodeOf st effectedNode in
    let* left_sibling_size := siblingSize st (BPlusNode.leftSibling n) in
    let* right_sibling_size := siblingSize st (BPlusNode.rightSibling n) in
    if (left_sibling_size =? 0) && (right_sibling_size =? 0) then
      if node_size =? 0 then Ok REMOVE_ROOT else Ok DO_NOTHING
    else if right_sibling_size >? half_capacity then Ok DISTRIBUTE_RIGHT_INTO_NODE
    else if left_sibling_size >? half_capacity then Ok DISTRIBUTE_LEFT_INTO_NODE
    else if right_sibling_size >? 0 then Ok MERGE_RIGHT_INTO_NODE
    else if left_sibling_size >? 0 then Ok MERGE_NODE_INTO_LEFT
    else Fail (Error "NO BALANCE CASE found for effectedNode").

(** The [while (currentNode)] loop of [find_effective_parent_cell]:
    [Some c] when the loop returns the cell [c], [None] when it runs
    off the root. *)
Fixpoint parent_cell_loop (fuel : nat) (st : state) (currentNode : option nat)
    : Res (option nat) :=
  match currentNode with
  | None => Ok None
  | Some c =>
    match fuel with
    | O => Fail OutOfFuel
    | S fuel' =>
      let* n := bnodeOf st c in
      match BPlusNode.parent_cell n with
      | Some pc => Ok (Some pc)
      | None => parent_cell_loop fuel' st (BPlusNode.parent_node n)
      end
    end
  end.

Definition find_effective_parent_cell (fuel : nat) (st : state) (effectiveNode : nat)
    : Res nat :=
  let* n := bnodeOf st effectiveNode in
  match BPlusNode.parent_cell n with
  | Some effective_parent_cell => Ok effective_parent_cell
  | None =>
    let* found := parent_cell_loop fuel st (Some effectiveNode) in
    match found with
    | Some effective_parent_cell => Ok effective_parent_cell
    | None =>
      match BPlusNode.parent_node n with
      | Some p =>
        let* pn := bnodeOf st p in
        let* pl := listOf st (BPlusNode.cellsList pn) in
        match SortedLinkedList.min pl with
        | Some m => let* ln := lnodeOf st m in Ok (LinkedNode.key ln)
        | None => Fail (Error "Not allowed condition")
        end
      | None => Fail (Error "Not allowed condition")
      end
    end
  end.

(** [list.max!.key]: the cell held by the last node of a cell list. *)
Definition maxCell (list : nat) : M state nat :=
  let* l := getll list in
  let* m := defined (SortedLinkedList.max l) in
  let* ln := getln m in
  ret (LinkedNode.key ln).

(** [m!.key.key] for a list node reference [m]. *)
Definition keyOfNode (m : option nat) : M state K :=
  let* c := defined m in
  let* ln := getln c in
  let* k := getc (LinkedNode.key ln) in
  ret (BPlusCell.key k).

(** [list.max!.key.key] *)
Definition maxKey (list : nat) : M state K :=
  let* c := maxCell list in
  let* k := getc c in
  ret (BPlusCell.key k).

Definition split (fuel : nat) (effectedNode : nat) (customCompare : comparator) : M state nat :=
  (* Split cellsList *)
  let* tree := get_tree in
  let splitAfterIndex := BPlusTree.half_capacity tree in
  let* en := getb effectedNode in
  let* '(newLeftList, newRightList) :=
    liftLL (LL.splitAt (BPlusNode.cellsList en) splitAfterIndex) in
  (* creating new right node and setting its relationships *)
  let* nl := getll newLeftList in
  let* promoted_child :=
    match SortedLinkedList.max nl with
    | Some m =>
      let* ln := getln m in
      let* k := getc (LinkedNode.key ln) in
      ret (BPlusCell.right_child_node k)
    | None => ret None
    end in
  let* splitRightNode :=
    createBPlusNode (BPlusNode.isLeaf en) (BPlusNode.parent_node en) promoted_child in
  setAsCellsList fuel splitRightNode newRightList ;;
  (* sibling relations *)
  let* en := getb effectedNode in
  modify_bnode splitRightNode (BPlusNode.set_rightSibling (BPlusNode.rightSibling en)) ;;
  modify_bnode_if (BPlusNode.rightSibling en) (BPlusNode.set_leftSibling (Some splitRightNode)) ;;
  modify_bnode splitRightNode (BPlusNode.set_leftSibling (Some effectedNode)) ;;
  modify_bnode effectedNode (BPlusNode.set_rightSibling (Some splitRightNode)) ;;
  (* root split *)
  let* en := getb effectedNode in
  (if BPlusNode.isRoot en then
     let* newRootNode := createBPlusNode false None (Some effectedNode) in
     modify_tree (BPlusTree.set_root_node (Some newRootNode))
   else ret tt) ;;
  (* definitely have a parent node *)
  let* en := getb effectedNode in
  modify_bnode splitRightNode (BPlusNode.set_parent_node (BPlusNode.parent_node en)) ;;
  (* parent cell for new right node *)
  let* separator := maxKey newLeftList in
  let* en := getb effectedNode in
  let* parentCellForNewRightNode :=
    createBPlusCell separator (Some splitRightNode) (BPlusNode.parent_node en) in
  let* en := getb effectedNode in
  let* parent := defined (BPlusNode.parent_node en) in
  let* pn := getb parent in
  LLinsert fuel customCompare (BPlusNode.cellsList pn) parentCellForNewRightNode ;;
  let* en := getb effectedNode in
  (if BPlusNode.isLeaf en then
     let* tree := get_tree in
     if decide (Some effectedNode = BPlusTree.right_most_node tree)
     then modify_tree (BPlusTree.set_right_most_node (Some splitRightNode))
     else ret tt
   else
     (* remove max from left node *)
     let* k := maxKey newLeftList in
     let* probe := createBPlusCell k None None in
     LLdeleteNode fuel customCompare newLeftList probe ;;
     ret tt) ;;
  let* en := getb effectedNode in
  defined (BPlusNode.parent_node en).

(** [LL.deleteNode(node.parent_node!.cellsList, customCompare, createBPlusCell(key))] *)
Definition deleteFromParent (fuel : nat) (customCompare : comparator) (node : nat) (key : K)
    : M state (option nat) :=
  let* n := getb node in
  let* parent := defined (BPlusNode.parent_node n) in
  let* pn := getb parent in
  let* probe := createBPlusCell key None None in
  LLdeleteNode fuel customCompare (BPlusNode.cellsList pn) probe.

Definition merge (fuel : nat) (source target : nat) (customCompare : comparator) : M state nat :=
  (* 1. Find effective parent cell *)
  let* effective_parent_cell := read (fun st => find_effective_parent_cell fuel st source) in
  (* 2. handle first cell for target *)
  let* sn := getb source in
  (if negb (BPlusNode.isLeaf sn) then
     let right_child_node := BPlusNode.left_most_child sn in
     let* epc := getc effective_parent_cell in
     let* first_cell_for_target :=
       createBPlusCell (BPlusCell.key epc) right_child_node (Some target) in
     let* tn := getb target in
     LLinsert fuel customCompare (BPlusNode.cellsList tn) first_cell_for_target ;;
     ret tt
   else ret tt) ;;
  (* 3. Merge source cellsList in target *)
  let* tn := getb target in
  let* sn := getb source in
  liftLL (LL.mergeSplittedRightIntoLeft (BPlusNode.cellsList tn) (BPlusNode.cellsList sn)) ;;
  reinforceParentShipInChildNodes fuel target ;;
  (* 4. Update sibling relations *)
  let* sn := getb source in
  modify_bnode target (BPlusNode.set_rightSibling (BPlusNode.rightSibling sn)) ;;
  modify_bnode_if (BPlusNode.rightSibling sn) (BPlusNode.set_leftSibling (Some target)) ;;
  (* 5. Remove parent relation of source node *)
  let* sn := getb source in
  (if BPlusNode.isLeftMostNode sn then
     let* parent := defined (BPlusNode.parent_node sn) in
     let* pn := getb parent in
     let* pl := getll (BPlusNode.cellsList pn) in
     let* m := defined (SortedLinkedList.min pl) in
     let* ln := getln m in
     let* k := getc (LinkedNode.key ln) in
     let replacement_key := BPlusCell.key k in
     let* deletedN := deleteFromParent fuel customCompare source replacement_key in
     match deletedN with
     | Some d =>
       let* dn := getln d in
       let* dk := getc (LinkedNode.key dn) in
       match BPlusCell.right_child_node dk with
       | Some r =>
         let* sn := getb source in
         let* parent := defined (BPlusNode.parent_node sn) in
         setAsLeftMostChildNode parent r
       | None => ret tt
       end
     | None => ret tt
     end ;;
     modify_cell effective_parent_cell (BPlusCell.set_key replacement_key)
   else
     let* pc := defined (BPlusNode.parent_cell sn) in
     let* pck := getc pc in
     deleteFromParent fuel customCompare source (BPlusCell.key pck) ;;
     ret tt) ;;
  let* tree := get_tree in
  (if decide (Some source = BPlusTree.right_most_node tree)
   then modify_tree (BPlusTree.set_right_most_node (Some target))
   else ret tt) ;;
  let* sn := getb source in
  defined (BPlusNode.parent_node sn).

Definition distribute (fuel : nat) (source target : nat) (source_is : SOURCE_IS)
    (customCompare : comparator) : M state unit :=
  (* 1. Find effective parent cell *)
  let effectiveNode := match source_is with LEFT_SIBLING => target | RIGHT_SIBLING => source end in
  let* effective_parent_cell :=
    read (fun st => find_effective_parent_cell fuel st effectiveNode) in
  (* 2. handle first cell for target *)
  let* sn := getb source in
  let* tn := getb target in
  (if negb (BPlusNode.isLeaf sn) then
     let right_child_node :=
       match source_is with
       | LEFT_SIBLING => BPlusNode.left_most_child tn
       | RIGHT_SIBLING => BPlusNode.left_most_child sn
       end in
     let* epc := getc effective_parent_cell in
     let* first_cell_for_target :=
       createBPlusCell (BPlusCell.key epc) right_child_node (Some target) in
     let* tn := getb target in
     LLinsert fuel customCompare (BPlusNode.cellsList tn) first_cell_for_target ;;
     ret tt
   else ret tt) ;;
  (* 3. Split cells from source *)
  let* tree := get_tree in
  let half_capacity := BPlusTree.half_capacity tree in
  let* sn := getb source in
  let* sl := getll (BPlusNode.cellsList sn) in
  let count := SortedLinkedList.count sl in
  let* splitted_cells :=
    liftLL (LL.splitAt (BPlusNode.cellsList sn)
      (if negb (BPlusNode.isLeaf sn) then
         match source_is with
         | RIGHT_SIBLING => count - half_capacity - 1
         | LEFT_SIBLING => count - half_capacity + 1
         end
       else
         match source_is with
         | RIGHT_SIBLING => count - half_capacity - 1
         | LEFT_SIBLING => half_capacity - 1
         end)) in
  (* 4. Calculate effective_LMC and replacement_key *)
  let* '(effective_LMC, replacement_key) :=
    match source_is with
    | LEFT_SIBLING =>
      let* sn := getb source in
      let* max_cell_in_source_after_split := maxCell (BPlusNode.cellsList sn) in
      let* mc := getc max_cell_in_source_after_split in
      let effective_LMC := BPlusCell.right_child_node mc in
      let replacement_key := BPlusCell.key mc in
      (if negb (BPlusNode.isLeaf sn) then
         let* probe := createBPlusCell (BPlusCell.key mc) None None in
         LLdeleteNode fuel customCompare (BPlusNode.cellsList sn) probe ;;
         ret tt
       else ret tt) ;;
      ret (effective_LMC, replacement_key)
    | RIGHT_SIBLING =>
      setAsCellsList fuel source (snd splitted_cells) ;;
      let* max_cell_in_left_portion_after_split := maxCell (fst splitted_cells) in
      let* mc := getc max_cell_in_left_portion_after_split in
      let effective_LMC := BPlusCell.right_child_node mc in
      let replacement_key := BPlusCell.key mc in
      let* sn := getb source in
      (if negb (BPlusNode.isLeaf sn) then
         let* probe := createBPlusCell (BPlusCell.key mc) None None in
         LLdeleteNode fuel customCompare (fst splitted_cells) probe ;;
         ret tt
       else ret tt) ;;
      ret (effective_LMC, replacement_key)
    end in
  (* 5. Merge split cells *)
  match source_is with
  | LEFT_SIBLING =>
    let* l1 := getll (snd splitted_cells) in
    if SortedLinkedList.count l1 >? 0 then
      let* tn := getb target in
      liftLL (LL.mergeSplittedLeftIntoRight (snd splitted_cells) (BPlusNode.cellsList tn)) ;;
      reinforceParentShipInChildNodes fuel target
    else ret tt
  | RIGHT_SIBLING =>
    let* l0 := getll (fst splitted_cells) in
    if SortedLinkedList.count l0 >? 0 then
      let* tn := getb target in
      liftLL (LL.mergeSplittedRightIntoLeft (BPlusNode.cellsList tn) (fst splitted_cells)) ;;
      reinforceParentShipInChildNodes fuel target
    else ret tt
  end ;;
  (* 6. Not leaf: handle right_child_node as LMC *)
  let* sn := getb source in
  (if negb (BPlusNode.isLeaf sn) then
     let* lmc := defined effective_LMC in
     match source_is with
     | LEFT_SIBLING => setAsLeftMostChildNode target lmc
     | RIGHT_SIBLING => setAsLeftMostChildNode source lmc
     end
   else ret tt) ;;
  (* 7. Resetting effective_parent_cell key *)
  let* sn := getb source in
  match source_is, BPlusNode.isLeaf sn with
  | RIGHT_SIBLING, true =>
    let* tn := getb target in
    let* k := maxKey (BPlusNode.cellsList tn) in
    modify_cell effective_parent_cell (BPlusCell.set_key k)
  | _, _ => modify_cell effective_parent_cell (BPlusCell.set_key replacement_key)
  end.

(** The message of a TypeError is the engine's; the model names it. *)
Definition messageOf (e : exn) : string :=
  match e with
  | Error msg => msg
  | _ => "TypeError"
  end.

(** [try { ... } catch (e) { throw new Error("Failed while balancing: " + e.message) }].
    Only what JavaScript raises is caught. *)
Definition catchBalancing {A} (m : M state A) : M state A :=
  fun st =>
    match m st with
    | Ok r => Ok r
    | Fail Dangling => Fail Dangling
    | Fail OutOfFuel => Fail OutOfFuel
    | Fail e => Fail (Error ("Failed while balancing: " ++ messageOf e))
    end.

Fixpoint balance (fuel : nat) (effectedNode : nat) (customCompare : comparator)
    : M state unit :=
  match fuel with
  | O => throw OutOfFuel
  | S fuel' =>
    catchBalancing (
      let* balanceCase := read (fun st => _determineBalancingCase st effectedNode) in
      match balanceCase with
      | DO_NOTHING => ret tt
      | REMOVE_ROOT =>
        let* tree := get_tree in
        let* root := defined (BPlusTree.root_node tree) in
        let* rn := getb root in
        modify_tree (BPlusTree.set_root_node (BPlusNode.left_most_child rn)) ;;
        let* tree := get_tree in
        modify_bnode_if (BPlusTree.root_node tree) (BPlusNode.set_parent_node None)
      | SPLIT =>
        let* nextnode := split fuel effectedNode customCompare in
        balance fuel' nextnode customCompare
      | DISTRIBUTE_RIGHT_INTO_NODE =>
        let* en := getb effectedNode in
        let* source := defined (BPlusNode.rightSibling en) in
        distribute fuel source effectedNode RIGHT_SIBLING customCompare
      | DISTRIBUTE_LEFT_INTO_NODE =>
        let* en := getb effectedNode in
        let* source := defined (BPlusNode.leftSibling en) in
        distribute fuel source effectedNode LEFT_SIBLING customCompare
      | MERGE_RIGHT_INTO_NODE =>
        let* en := getb effectedNode in
        let* source := defined (BPlusNode.rightSibling en) in
        let* nextnode := merge fuel source effectedNode customCompare in
        balance fuel' nextnode customCompare
      | MERGE_NODE_INTO_LEFT =>
        let* en := getb effectedNode in
        let* target := defined (BPlusNode.leftSibling en) in
        let* nextnode := merge fuel effectedNode target customCompare in
        balance fuel' nextnode customCompare
      end)
  end.

(** The [while (bpNode && !bpNode.isLeaf)] loop of [searchForLeafNode]. *)
Fixpoint descend (fuel : nat) (st : state) (effectiveComparator : comparator)
    (searchKey : nat) (bpNode : option nat) : Res (option nat) :=
  match bpNode with
  | None => Ok None
  | Some b =>
    let* n := bnodeOf st b in
    if BPlusNode.isLeaf n then Ok (Some b)
    else
      match fuel with
      | O => Fail OutOfFuel
      | S fuel' =>
        let* foundCell :=
          LLsearch fuel st effectiveComparator (BPlusNode.cellsList n) searchKey
            LesserThanOrEqualsTo in
        match foundCell with
        | None => descend fuel' st effectiveComparator searchKey (BPlusNode.left_most_child n)
        | Some f =>
          let* fn := lnodeOf st f in
          let* c := onCells st effectiveComparator searchKey (LinkedNode.key fn) in
          if c =? 0 then
            match LinkedNode.leftSibling fn with
            | Some ls =>
              let* lsn := lnodeOf st ls in
              let* lc := cellOf st (LinkedNode.key lsn) in
              descend fuel' st effectiveComparator searchKey (BPlusCell.right_child_node lc)
            | None =>
              descend fuel' st effectiveComparator searchKey (BPlusNode.left_most_child n)
            end
          else
            let* fc := cellOf st (LinkedNode.key fn) in
            descend fuel' st effectiveComparator searchKey (BPlusCell.right_child_node fc)
        end
      end
  end.

Definition searchForLeafNode (fuel : nat) (compare : comparator) (key : K)
    (queryCompare : option comparator) : M state (option nat) :=
  let effectiveComparator := match queryCompare with Some q => q | None => compare end in
  let* tree := get_tree in
  match BPlusTree.root_node tree with
  | None => ret None
  | Some root =>
    let* searchKey := createBPlusCell key None None in
    read (fun st => descend fuel st effectiveComparator searchKey (Some root))
  end.

(** The leaf lookup shared by [searchForKey] and [searchForValue]:
    the cell found in the leaf, if any. *)
Definition searchInLeaf (fuel : nat) (compare : comparator) (searchKey : K)
    (searchType : SearchType) : M state (option cell) :=
  let* leafNode := searchForLeafNode fuel compare searchKey None in
  match leafNode with
  | Some leaf =>
    let* n := getb leaf in
    let* probe := createBPlusCell searchKey None None in
    let* foundNode :=
      read (fun st => LLsearch fuel st compare (BPlusNode.cellsList n) probe searchType) in
    match foundNode with
    | Some f =>
      let* fn := getln f in
      let* c := getc (LinkedNode.key fn) in
      ret (Some c)
    | None => ret None
    end
  | None => ret None
  end.

Definition searchForKey (fuel : nat) (compare : comparator) (searchKey : K)
    (searchType : SearchType) : M state (option K) :=
  let* found := searchInLeaf fuel compare searchKey searchType in
  ret (option_map BPlusCell.key found).

Definition searchForValue (fuel : nat) (compare : comparator) (searchKey : K)
    (searchType : SearchType) : M state (option V) :=
  let* found := searchInLeaf fuel compare searchKey searchType in
  ret (match found with Some c => BPlusCell.value c | None => None end).

(** A key given as a bound: [!k] holds when it is missing or falsy. *)
Definition bound (k : option K) : option K :=
  match k with
  | Some k' => if falsy k' then None else k
  | None => None
  end.

(** [for (const n1 of st1) { ... }] of the range operations: the
    pagination counters [skip] and [count] and the array [result];
    [emit] is what is pushed for a cell. *)
Fixpoint paginate {R} (emit : cell -> R) (st : state) (offset limit : Z)
    (st1 : list nat) (skip count : Z) (result : list R) : Res (Z * Z * list R) :=
  match st1 with
  | [] => Ok (skip, count, result)
  | n1 :: rest =>
    if skip >=? offset then
      if negb (limit =? -1) && (count =? limit) then Ok (skip, count, result)
      else
        let* c := cellOf st n1 in
        paginate emit st offset limit rest skip (count + 1) (result ++ [emit c])
    else paginate emit st offset limit rest (skip + 1) count result
  end.

(** [const sk = !startKey ? undefined : createBPlusCell(startKey, undefined, undefined)] *)
Definition probeFor (k : option K) : M state (option nat) :=
  match bound k with
  | Some k' => let* c := createBPlusCell k' None None in ret (Some c)
  | None => ret None
  end.

(** The body run on one leaf: collect the leaf's cells within the
    bounds and paginate them. *)
Definition collectLeaf {R} (emit : cell -> R) (fuel : nat) (compare : comparator)
    (offset limit : Z) (sk ek : option nat) (leaf : nat) (skip count : Z) (result : list R)
    : M state (Z * Z * list R) :=
  let* n := getb leaf in
  let* st1 :=
    read (fun st => LLsearchTillStream fuel st compare (BPlusNode.cellsList n) sk ek) in
  read (fun st => paginate emit st offset limit st1 skip count result).

(** The [while (currentNode !== endNode)] loop of the range operations. *)
Fixpoint range_loop {R} (emit : cell -> R) (fuel : nat) (compare : comparator)
    (offset limit : Z) (startKey endKey : option K) (endNode currentNode : option nat)
    (skip count : Z) (result : list R) : M state (option nat * Z * Z * list R) :=
  if decide (currentNode = endNode) then ret (currentNode, skip, count, result)
  else
    match fuel with
    | O => throw OutOfFuel
    | S fuel' =>
      let* sk := probeFor startKey in
      let* ek := probeFor endKey in
      match currentNode with
      | Some cn =>
        let* '(skip', count', result') :=
          collectLeaf emit fuel compare offset limit sk ek cn skip count result in
        let* n := getb cn in
        range_loop emit fuel' compare offset limit startKey endKey endNode
          (BPlusNode.rightSibling n) skip' count' result'
      | None =>
        range_loop emit fuel' compare offset limit startKey endKey endNode
          currentNode skip count result
      end
    end.

(** The three range operations differ only in what they push. *)
Definition rangeWith {R} (emit : cell -> R) (fuel : nat) (compare : comparator)
    (offset limit : Z) (startKey endKey : option K) : M state (list R) :=
  let* tree := get_tree in
  let* startNode :=
    match bound startKey with
    | None => ret (BPlusTree.left_most_node tree)
    | Some k => searchForLeafNode fuel compare k None
    end in
  let* tree := get_tree in
  let* endNode :=
    match bound endKey with
    | None => ret (BPlusTree.right_most_node tree)
    | Some k => searchForLeafNode fuel compare k None
    end in
  let* '(currentNode, skip, count, result) :=
    if decide (startNode = endNode) then ret (startNode, 0, 0, [])
    else range_loop emit fuel compare offset limit startKey endKey endNode startNode 0 0 [] in
  match currentNode with
  | Some cn =>
    if decide (currentNode = endNode) then
      let* sk := probeFor startKey in
      let* ek := probeFor endKey in
      let* '(_, _, result') :=
        collectLeaf emit fuel compare offset limit sk ek cn skip count result in
      ret result'
    else ret result
  | None => ret result
  end.

Definition searchForRangeWithPagination (fuel : nat) (compare : comparator)
    (offset limit : Z) (startKey endKey : option K) : M state (list K) :=
  rangeWith BPlusCell.key fuel compare offset limit startKey endKey.

Definition searchForRangeWithPaginationV (fuel : nat) (compare : comparator)
    (offset limit : Z) (startKey endKey : option K) : M state (list (option V)) :=
  rangeWith BPlusCell.value fuel compare offset limit startKey endKey.

Definition searchForRangeWithPaginationKVP (fuel : nat) (compare : comparator)
    (offset limit : Z) (startKey endKey : option K) : M state (list (K * option V)) :=
  rangeWith (fun c => (BPlusCell.key c, BPlusCell.value c)) fuel compare offset limit
    startKey endKey.

Definition insert (fuel : nat) (compare : comparator) (key : K) (value : option V)
    : M state (option K) :=
  let* tree := get_tree in
  match BPlusTree.root_node tree with
  | None =>
    let* root := createBPlusNode true None None in
    modify_tree (BPlusTree.set_root_node (Some root)) ;;
    modify_tree (fun t => BPlusTree.set_left_most_node (BPlusTree.root_node t) t) ;;
    modify_tree (fun t => BPlusTree.set_right_most_node (BPlusTree.root_node t) t) ;;
    modify_tree (fun t => BPlusTree.set_size (BPlusTree.size t + 1) t) ;;
    let* rn := getb root in
    let* c := createBPlusCell key None (Some root) in
    let* j := LLinsert fuel compare (BPlusNode.cellsList rn) c in
    let* jn := getln j in
    modify_cell (LinkedNode.key jn) (BPlusCell.set_value value) ;;
    ret (Some key)
  | Some _ =>
    let* leafNode := searchForLeafNode fuel compare key None in
    match leafNode with
    | Some leaf =>
      let* n := getb leaf in
      let* c := createBPlusCell key None (Some leaf) in
      let* insertedNode := LLinsert fuel compare (BPlusNode.cellsList n) c in
      let* inn := getln insertedNode in
      modify_cell (LinkedNode.key inn) (BPlusCell.set_value value) ;;
      balance fuel leaf compare ;;
      modify_tree (fun t => BPlusTree.set_size (BPlusTree.size t + 1) t) ;;
      ret (Some key)
    | None => ret None
    end
  end.

(** The body shared by [deleteKey] and [deleteKeyReturnValue]: the
    cell held by the detached copy of the deleted list node, read
    after the balancing. *)
Definition deleteCell (fuel : nat) (compare : comparator) (key : K) : M state (option cell) :=
  let* tree := get_tree in
  match BPlusTree.root_node tree with
  | None =>
    modify_tree (BPlusTree.set_size 0) ;;
    ret None
  | Some _ =>
    let* leafNode := searchForLeafNode fuel compare key None in
    let* leaf := defined leafNode in
    let* n := getb leaf in
    let* probe := createBPlusCell key None None in
    let* deletedNode := LLdeleteNode fuel compare (BPlusNode.cellsList n) probe in
    match deletedNode with
    | Some d =>
      let* dn := getln d in
      modify_tree
        (fun t => BPlusTree.set_size (BPlusTree.size t - (1 + LinkedNode.duplicate_count dn)) t) ;;
      balance fuel leaf compare ;;
      let* dn := getln d in
      let* c := getc (LinkedNode.key dn) in
      ret (Some c)
    | None => ret None
    end
  end.

Definition deleteKey (fuel : nat) (compare : comparator) (key : K) : M state (option K) :=
  let* deleted := deleteCell fuel compare key in
  ret (option_map BPlusCell.key deleted).

Definition deleteKeyReturnValue (fuel : nat) (compare : comparator) (key : K)
    : M state (option V) :=
  let* deleted := deleteCell fuel compare key in
  ret (match deleted with Some c => BPlusCell.value c | None => None end).

Definition getSize (st : state) : Z := BPlusTree.size (Heap.tree st).

(** The [while (c < hs && found_leaf_node)] loop of [getMiddleKey]. *)
Fixpoint middle_loop (fuel : nat) (st : state) (hs c : Z) (found_leaf_node : option nat)
    : Res (option K) :=
  match found_leaf_node with
  | None => Ok None
  | Some leaf =>
    if c <? hs then
      match fuel with
      | O => Fail OutOfFuel
      | S fuel' =>
        let* n := bnodeOf st leaf in
        let* l := listOf st (BPlusNode.cellsList n) in
        let t := c + SortedLinkedList.count l in
        if t <? hs then middle_loop fuel' st hs t (BPlusNode.rightSibling n)
        else
          match SortedLinkedList.min l with
          | Some m =>
            let* ln := lnodeOf st m in
            let* k := cellOf st (LinkedNode.key ln) in
            Ok (Some (BPlusCell.key k))
          | None => Fail TypeError
          end
      end
    else Ok None
  end.

Definition getMiddleKey (fuel : nat) (st : state) : Res (option K) :=
  let found_leaf_node := BPlusTree.left_most_node (Heap.tree st) in
  let hs := getSize st / 2 in
  match found_leaf_node with
  | None => Ok None
  | Some _ => middle_loop fuel st hs 0 found_leaf_node
  end.

(** The [while (leafNode)] loop of [searchForKV]; a [BB_KV_P] is the
    pair of the key and the value. *)
Fixpoint kv_loop (fuel : nat) (st : state) (compare : comparator) (sk : nat)
    (searchType : SearchType) (leafNode : option nat) : Res (option (K * option V)) :=
  match leafNode with
  | None => Ok None
  | Some leaf =>
    match fuel with
    | O => Fail OutOfFuel
    | S fuel' =>
      let* n := bnodeOf st leaf in
      let* foundLinkedNode :=
        LLsearch fuel st compare (BPlusNode.cellsList n) sk searchType in
      match foundLinkedNode with
      | Some f =>
        let* fn := lnodeOf st f in
        let* c := cellOf st (LinkedNode.key fn) in
        Ok (Some (BPlusCell.key c, BPlusCell.value c))
      | None =>
        match searchType with
        | LesserThan => kv_loop fuel' st compare sk searchType (BPlusNode.leftSibling n)
        | GreaterThan => kv_loop fuel' st compare sk searchType (BPlusNode.rightSibling n)
        | _ => Ok None
        end
      end
    end
  end.

Definition searchForKV (fuel : nat) (compare : comparator) (searchKey : K)
    (searchType : SearchType) : M state (option (K * option V)) :=
  let* leafNode := searchForLeafNode fuel compare searchKey None in
  match leafNode with
  | Some leaf =>
    let* sk := createBPlusCell searchKey None None in
    read (fun st => kv_loop fuel st compare sk searchType (Some leaf))
  | None => ret None
  end.

(** [LL.find(found_leaf_node.cellsList, queryComparator)] on a leaf. *)
Definition LLfind (fuel : nat) (st : state) (queryComparator : comparator) (list : nat)
    : Res (Datatypes.list nat) :=
  LL.find fuel (Heap.lheap st) list (onCells st queryComparator) false.

(** The leaf at which [find] and [findV] start: the leaf of the
    bookmark, or the leaf of the first key of the leftmost leaf when that
    leaf is not empty. *)
Definition firstLeaf (fuel : nat) (compare queryComparator : comparator)
    (bookmark_key : option K) : M state (option nat) :=
  match bound bookmark_key with
  | Some b => searchForLeafNode fuel compare b (Some queryComparator)
  | None =>
    let* tree := get_tree in
    match BPlusTree.left_most_node tree with
    | Some lm =>
      let* n := getb lm in
      let* l := getll (BPlusNode.cellsList n) in
      if SortedLinkedList.count l >? 0 then
        let* k := keyOfNode (SortedLinkedList.min l) in
        searchForLeafNode fuel compare k (Some queryComparator)
      else ret None
    | None => ret None
    end
  end.

(** [for (const avlnode of avlStr)] of [find]: the first match is
    skipped while the bookmark is set; every other one is compared again
    through two new cells that hold its key. *)
Fixpoint find_matches (queryComparator : comparator) (avlStr : list nat)
    (bookmark_key : option K) (result : list K) : M state (option K * list K) :=
  match avlStr with
  | [] => ret (bookmark_key, result)
  | avlnode :: rest =>
    match bound bookmark_key with
    | Some _ => find_matches queryComparator rest None result
    | None =>
      let* a := getc avlnode in
      createBPlusCell (BPlusCell.key a) None None ;;
      createBPlusCell (BPlusCell.key a) None None ;;
      let* searchKeyCurrentNode :=
        read (fun _ => queryComparator (BPlusCell.new (BPlusCell.key a) None None)
                                       (BPlusCell.new (BPlusCell.key a) None None)) in
      find_matches queryComparator rest bookmark_key
        (if searchKeyCurrentNode =? 0 then result ++ [BPlusCell.key a] else result)
    end
  end.

(** The [while (findingMatches)] loop of [find]. *)
Fixpoint find_leaves (fuel : nat) (queryComparator : comparator)
    (found_leaf_node : option nat) (bookmark_key : option K) (result : list K)
    : M state (list K) :=
  match found_leaf_node with
  | None => ret result
  | Some leaf =>
    match fuel with
    | O => throw OutOfFuel
    | S fuel' =>
      (* startKey = createBPlusCell(bookmark_key, undefined, found_leaf_node) *)
      match bound bookmark_key with
      | Some b => createBPlusCell b None (Some leaf) ;; ret tt
      | None => ret tt
      end ;;
      let* n := getb leaf in
      let* avlStr := read (fun st => LLfind fuel st queryComparator (BPlusNode.cellsList n)) in
      let* '(bookmark_key', result') :=
        find_matches queryComparator avlStr bookmark_key result in
      let* n' := getb leaf in
      find_leaves fuel' queryComparator (BPlusNode.rightSibling n') bookmark_key' result'
    end
  end.

Definition find (fuel : nat) (compare queryComparator : comparator)
    (bookmark_key : option K) (yieldIndividualDuplicates : bool) : M state (list K) :=
  let* found_leaf_node := firstLeaf fuel compare queryComparator bookmark_key in
  find_leaves fuel queryComparator found_leaf_node bookmark_key [].

(** [(c1, c2) => queryComparator(c1.key, c2.key)] *)
Definition onKeys (queryComparator : K -> K -> Res Z) : comparator :=
  fun c1 c2 => queryComparator (BPlusCell.key c1) (BPlusCell.key c2).

(** [for (const avlnode of avlStr)] of [findV]; the [break] at
    [result.length === limit] leaves this loop only. *)
Fixpoint findV_matches (queryComparator : K -> K -> Res Z) (limit : Z) (st : state)
    (avlStr : list nat) (bookmark_key : option K) (result : list (option V))
    : Res (option K * list (option V)) :=
  match avlStr with
  | [] => Ok (bookmark_key, result)
  | avlnode :: rest =>
    match bound bookmark_key with
    | Some _ => findV_matches queryComparator limit st rest None result
    | None =>
      let* a := cellOf st avlnode in
      let* searchKeyCurrentNode := queryComparator (BPlusCell.key a) (BPlusCell.key a) in
      if searchKeyCurrentNode =? 0 then
        let result' := result ++ [BPlusCell.value a] in
        if Z.of_nat (length result') =? limit then Ok (bookmark_key, result')
        else findV_matches queryComparator limit st rest bookmark_key result'
      else findV_matches queryComparator limit st rest bookmark_key result
    end
  end.

(** The [while (findingMatches)] loop of [findV]. *)
Fixpoint findV_leaves (fuel : nat) (queryComparator : K -> K -> Res Z) (limit : Z)
    (found_leaf_node : option nat) (bookmark_key : option K) (result : list (option V))
    : M state (list (option V)) :=
  match found_leaf_node with
  | None => ret result
  | Some leaf =>
    match fuel with
    | O => throw OutOfFuel
    | S fuel' =>
      match bound bookmark_key with
      | Some b => createBPlusCell b None (Some leaf) ;; ret tt
      | None => ret tt
      end ;;
      let* n := getb leaf in
      let* avlStr :=
        read (fun st => LLfind fuel st (onKeys queryComparator) (BPlusNode.cellsList n)) in
      let* '(bookmark_key', result') :=
        read (fun st => findV_matches queryComparator limit st avlStr bookmark_key result) in
      let* n' := getb leaf in
      findV_leaves fuel' queryComparator limit (BPlusNode.rightSibling n') bookmark_key' result'
    end
  end.

Definition findV (fuel : nat) (compare : comparator) (queryComparator : K -> K -> Res Z)
    (bookmark_key : option K) (yieldIndividualDuplicates : bool) (limit : Z)
    : M state (list (option V)) :=
  let* found_leaf_node := firstLeaf fuel compare (onKeys queryComparator) bookmark_key in
  findV_leaves fuel queryComparator limit found_leaf_node bookmark_key [].
End BB.
End BB.

(** ** The facade of inmemocache.ts *)

Module InMemoCache.
Section InMemoCache.
Context {K V : Type}.
(** [indexedDB.cmp], supplied by the platform. *)
Variable cmp : K -> K -> Res Z.

Definition comparator : ComparatorFunction (BPlusCell.t K V) :=
  fun k1 k2 => cmp (BPlusCell.key k1) (BPlusCell.key k2).

Definition new (node_size : Z) : Res (Heap.t K V) :=
  let* btree := BPlusTree.new node_size in
  Ok (Heap.init btree).

Definition put (fuel : nat) (key : K) (value : option V) : M (Heap.t K V) unit :=
  BB.insert fuel comparator key value ;;
  ret tt.

Definition get (fuel : nat) (key : K) : M (Heap.t K V) (option V) :=
  BB.searchForValue fuel comparator key EqualsTo.

Definition delete (fuel : nat) (key : K) : M (Heap.t K V) (option V) :=
  BB.deleteKeyReturnValue fuel comparator key.

Definition size (st : Heap.t K V) : Z := BPlusTree.size (Heap.tree st).
End InMemoCache.
End InMemoCache.

(** ** Observations used to state the properties *)

Section Observe.
Context {K V : Type}.
Abbreviation state := (Heap.t K V).

(** The result of a call, without the final state. *)
Definition result {S A} (r : Res (A * S)) : Res A :=
  match r with
  | Ok (a, _) => Ok a
  | Fail e => Fail e
  end.

(** The final state of a call. *)
Definition final {S A} (r : Res (A * S)) : Res S :=
  match r with
  | Ok (_, s) => Ok s
  | Fail e => Fail e
  end.

(** The keys of the cells of a cell list, read from [min] rightwards. *)
Fixpoint keysFrom (fuel : nat) (st : state) (o : option nat) : Res (list K) :=
  match o with
  | None => Ok []
  | Some c =>
    match fuel with
    | O => Fail OutOfFuel
    | S fuel' =>
      let* ln := lnodeOf st c in
      let* k := cellOf st (LinkedNode.key ln) in
      let* rest := keysFrom fuel' st (LinkedNode.rightSibling ln) in
      Ok (BPlusCell.key k :: rest)
    end
  end.

(** What a node looks like: leaf or not, the count of its cell list,
    and its keys in list order. *)
Definition look (fuel : nat) (st : state) (node : nat) : Res (bool * Z * list K) :=
  let* n := bnodeOf st node in
  let* l := listOf st (BPlusNode.cellsList n) in
  let* ks := keysFrom fuel st (SortedLinkedList.min l) in
  Ok (BPlusNode.isLeaf n, SortedLinkedList.count l, ks).

(** A root with its left-most child and the right child of its first
    cell, and the tree's size. *)
Definition lookRoot (fuel : nat) (st : state)
    : Res ((bool * Z * list K) * (bool * Z * list K) * (bool * Z * list K) * Z) :=
  match BPlusTree.root_node (Heap.tree st) with
  | None => Fail TypeError
  | Some root =>
    let* r := look fuel st root in
    let* rn := bnodeOf st root in
    let* rl := listOf st (BPlusNode.cellsList rn) in
    match BPlusNode.left_most_child rn, SortedLinkedList.min rl with
    | Some lmc, Some m =>
      let* left := look fuel st lmc in
      let* ln := lnodeOf st m in
      let* k := cellOf st (LinkedNode.key ln) in
      match BPlusCell.right_child_node k with
      | Some rc =>
        let* right := look fuel st rc in
        Ok (r, left, right, BPlusTree.size (Heap.tree st))
      | None => Fail TypeError
      end
    | _, _ => Fail TypeError
    end
  end.
End Observe.

(** ** The end-to-end scenarios: integer keys, [max_node_size = 4] *)

Module Scenario.
(** The integer comparator on cells. *)
Definition intCompare : ComparatorFunction (BPlusCell.t Z Z) :=
  fun a b => Ok (BPlusCell.key a - BPlusCell.key b).

(** [!k] for a number. *)
Definition falsy (k : Z) : bool := k =? 0.

(** [indexedDB.cmp] on numbers. *)
Definition cmp (a b : Z) : Res Z :=
  Ok (if a <? b then -1 else if a =? b then 0 else 1).

(** A fresh tree built by [new BPlusTree(max_node_size)]. *)
Definition fresh (max_node_size : Z) : Res (Heap.t Z Z) :=
  let* t := BPlusTree.new max_node_size in
  Ok (Heap.init t).

(** Run [m] on a fresh tree. *)
Definition on_fresh {A} (max_node_size : Z) (m : M (Heap.t Z Z) A) : Res (A * Heap.t Z Z) :=
  let* st := fresh max_node_size in
  m st.

(** Insert the keys in order, without values. *)
Fixpoint insertAll (fuel : nat) (keys : list Z) : M (Heap.t Z Z) unit :=
  match keys with
  | [] => ret tt
  | k :: rest => BB.insert fuel intCompare k None ;; insertAll fuel rest
  end.

(** Scenario 1: the tree after inserting 10, 20, 30, 40, 50. *)
Definition tree5 : Res (Heap.t Z Z) :=
  final (on_fresh 4 (insertAll 20 [10; 20; 30; 40; 50])).

(** The state [tree5] evaluates to. *)
Definition st5 : Heap.t Z Z :=
  Eval vm_compute in
    match tree5 with
    | Ok st => st
    | Fail _ => Heap.init (BPlusTree.mk None None None 0 0 0)
    end.

(** What scenario 1 shows: the root, its two leaves, and the size. *)
Definition scenario1 (fuel : nat) :=
  let* st := final (on_fresh 4 (insertAll fuel [10; 20; 30; 40; 50])) in
  lookRoot fuel st.

(** The keys of the whole tree, by the unbounded range operation. *)
Definition rangeAll (fuel : nat) (keys : list Z) : Res (list Z) :=
  result (on_fresh 4 (insertAll fuel keys ;;
                      BB.searchForRangeWithPagination falsy fuel intCompare 0 (-1) None None)).

(** Scenario 5: [range(start=35, end=75, offset=1, limit=2)] after
    inserting 10, 20, ..., 100. *)
Definition scenario5 (fuel : nat) : Res (list Z) :=
  result (on_fresh 4
    (insertAll fuel [10; 20; 30; 40; 50; 60; 70; 80; 90; 100] ;;
     BB.searchForRangeWithPagination falsy fuel intCompare 1 2 (Some 35) (Some 75))).

(** Delete the keys in order. *)
Fixpoint deleteAll (fuel : nat) (keys : list Z) : M (Heap.t Z Z) (list (option Z)) :=
  match keys with
  | [] => ret []
  | k :: rest =>
    let* deleted := BB.deleteKey fuel intCompare k in
    let* others := deleteAll fuel rest in
    ret (deleted :: others)
  end.

(** Scenario 4: insert 1..8, delete 4, 5, 6; what the deletes return
    and [range(1, 8)]. *)
Definition scenario4 (fuel : nat) : Res (list (option Z) * list Z) :=
  result (on_fresh 4
    (insertAll fuel [1; 2; 3; 4; 5; 6; 7; 8] ;;
     let* deleted := deleteAll fuel [4; 5; 6] in
     let* keys := BB.searchForRangeWithPagination falsy fuel intCompare 0 (-1) (Some 1) (Some 8) in
     ret (deleted, keys))).

(** [range(start=-20, end=0)] on the tree holding -10 and 10. *)
Definition rangeToZero (fuel : nat) : Res (list Z) :=
  result (on_fresh 4
    (insertAll fuel [-10; 10] ;;
     BB.searchForRangeWithPagination falsy fuel intCompare 0 (-1) (Some (-20)) (Some 0))).

(** [middle_key()] after inserting the keys. *)
Definition middleKeyAfter (fuel : nat) (keys : list Z) : Res (option Z) :=
  result (on_fresh 4 (insertAll fuel keys ;; read (BB.getMiddleKey fuel))).

(** Scenario 3 through the facade: three puts of key 5 with the
    values 1, 2, 3; then [get(5)], [delete(5)], [size] and [get(5)]. *)
Definition scenario3 (fuel : nat) : Res (option Z * option Z * Z * option Z) :=
  let* cache := InMemoCache.new 4 in
  result
    ((InMemoCache.put cmp fuel 5 (Some 1) ;;
      InMemoCache.put cmp fuel 5 (Some 2) ;;
      InMemoCache.put cmp fuel 5 (Some 3) ;;
      let* got := InMemoCache.get cmp fuel 5 in
      let* deleted := InMemoCache.delete cmp fuel 5 in
      let* st := get in
      let* after := InMemoCache.get cmp fuel 5 in
      ret (got, deleted, InMemoCache.size st, after)) cache).
End Scenario.

(** ** Observations on the lists of the engine *)

Module LLView.
Section LLView.
Context {K : Type}.

(** The keys of a list, read from a node rightwards. *)
Fixpoint keysFrom (fuel : nat) (h : LHeap.t K) (o : option nat) : Res (list K) :=
  match o with
  | None => Ok []
  | Some c =>
    match fuel with
    | O => Fail OutOfFuel
    | S fuel' =>
      let* n := LL.node h c in
      let* rest := keysFrom fuel' h (LinkedNode.rightSibling n) in
      Ok (LinkedNode.key n :: rest)
    end
  end.

Definition keyAt (h : LHeap.t K) (o : option nat) : Res (option K) :=
  match o with
  | None => Ok None
  | Some c => let* n := LL.node h c in Ok (Some (LinkedNode.key n))
  end.

(** The key at [min], the key at [max], [count], and the keys read
    from [min] rightwards. *)
Definition view (fuel : nat) (h : LHeap.t K) (list : nat)
    : Res (option K * option K * Z * Datatypes.list K) :=
  let* l := LL.header h list in
  let* lo := keyAt h (SortedLinkedList.min l) in
  let* hi := keyAt h (SortedLinkedList.max l) in
  let* ks := keysFrom fuel h (SortedLinkedList.min l) in
  Ok (lo, hi, SortedLinkedList.count l, ks).
End LLView.

(** The comparator of integers as list keys. *)
Definition zCompare : Z -> Z -> Res Z := fun a b => Ok (a - b).

(** A new list holding the given keys, inserted in order. *)
Fixpoint insertKeys (fuel : nat) (list : nat) (keys : Datatypes.list Z) : M (LHeap.t Z) unit :=
  match keys with
  | [] => ret tt
  | k :: rest => LL.insert zCompare fuel list k ;; insertKeys fuel list rest
  end.

Definition listOfKeys (fuel : nat) (keys : Datatypes.list Z) : M (LHeap.t Z) nat :=
  let* l := LL.alloc_list SortedLinkedList.new in
  insertKeys fuel l keys ;;
  ret l.

(** Build the list, split it, and look at both halves. *)
Definition splitAndView (fuel : nat) (keys : Datatypes.list Z) (splitAfterIndex : Z) :=
  result ((let* l := listOfKeys fuel keys in
           let* '(leftPart, rightPart) := LL.splitAt l splitAfterIndex in
           let* lv := read (fun h => view fuel h leftPart) in
           let* rv := read (fun h => view fuel h rightPart) in
           ret (lv, rv)) LHeap.empty).
End LLView.

(** ** Sample states *)

Module Sample.
(** The list 10, 20, 30, as [insert] builds it on an empty heap. *)
Definition h3 : LHeap.t Z :=
  Eval vm_compute in
    match LLView.listOfKeys 4 [10; 20; 30] LHeap.empty with
    | Ok (_, h) => h
    | Fail _ => LHeap.empty
    end.

(** Insert the pairs of a key and a value in order. *)
Fixpoint insertPairs (fuel : nat) (pairs : list (Z * Z)) : M (Heap.t Z Z) unit :=
  match pairs with
  | [] => ret tt
  | (k, v) :: rest =>
    BB.insert fuel Scenario.intCompare k (Some v) ;; insertPairs fuel rest
  end.

(** The tree after inserting 10, 20, 30 with the values 1, 2, 3 into a
    new tree of [max_node_size = 4]: one leaf, the root. *)
Definition st3 : Heap.t Z Z :=
  Eval vm_compute in
    match final (Scenario.on_fresh 4 (insertPairs 20 [(10, 1); (20, 2); (30, 3)])) with
    | Ok st => st
    | Fail _ => Heap.init (BPlusTree.mk None None None 0 0 0)
    end.

(** The tree after inserting 10, ..., 50 with the values 1, ..., 5: a
    root over the leaves 10, 20, 30 and 40, 50. *)
Definition stv5 : Heap.t Z Z :=
  Eval vm_compute in
    match final (Scenario.on_fresh 4
                   (insertPairs 20 [(10, 1); (20, 2); (30, 3); (40, 4); (50, 5)])) with
    | Ok st => st
    | Fail _ => Heap.init (BPlusTree.mk None None None 0 0 0)
    end.

(** A new, empty tree of [max_node_size = 4]. *)
Definition st0 : Heap.t Z Z := Heap.init (BPlusTree.mk None None None 0 2 4).
End Sample.

(** ** Well-formed lists and trees, and the descent as the specification words it *)

(** [chain h prev o ns]: following [rightSibling] from [o] visits exactly
    the nodes [ns] and ends at [undefined]; the first node's
    [leftSibling] is [prev] and every later node's is its predecessor. *)
Inductive chain {K : Type} (h : LHeap.t K) : option nat -> option nat -> list nat -> Prop :=
| chain_nil (prev : option nat) : chain h prev None []
| chain_cons (prev : option nat) (c : nat) (n : LinkedNode.t K) (rest : list nat) :
    LHeap.lnodes h !! c = Some n ->
    LinkedNode.leftSibling n = prev ->
    chain h (Some c) (LinkedNode.rightSibling n) rest ->
    chain h prev (Some c) (c :: rest).

Section TreeShape.
Context {K V : Type}.
Abbreviation state := (Heap.t K V).
Abbreviation comparator := (ComparatorFunction (BPlusCell.t K V)).

(** A comparator that never raises. *)
Definition total (compare : comparator) : Prop :=
  forall a b, exists z, compare a b = Ok z.

(** [subtree st W d b]: below node [b] there is a tree of height at
    most [d] whose interior nodes have a well-linked cell list of at
    most [W] cells, a left-most child, and a right child in every cell. *)
Inductive subtree (st : state) (W : nat) : nat -> nat -> Prop :=
| subtree_leaf (d b : nat) (n : BPlusNode.t) :
    Heap.nodes st !! b = Some n ->
    BPlusNode.isLeaf n = true ->
    subtree st W d b
| subtree_interior (d b : nat) (n : BPlusNode.t) (l : SortedLinkedList.t)
    (ns : list nat) (lmc : nat) :
    Heap.nodes st !! b = Some n ->
    BPlusNode.isLeaf n = false ->
    LHeap.llists (Heap.lheap st) !! BPlusNode.cellsList n = Some l ->
    chain (Heap.lheap st) None (SortedLinkedList.min l) ns ->
    (length ns <= W)%nat ->
    BPlusNode.left_most_child n = Some lmc ->
    subtree st W d lmc ->
    (forall c, c ∈ ns ->
       exists ln k r,
         LHeap.lnodes (Heap.lheap st) !! c = Some ln /\
         Heap.cells st !! LinkedNode.key ln = Some k /\
         BPlusCell.right_child_node k = Some r) ->
    (forall c ln k r, c ∈ ns ->
       LHeap.lnodes (Heap.lheap st) !! c = Some ln ->
       Heap.cells st !! LinkedNode.key ln = Some k ->
       BPlusCell.right_child_node k = Some r ->
       subtree st W d r) ->
    subtree st W (S d) b.

(** Where the specification sends the descent from the interior node
    [b], for the probe cell [probe]: the cases of section 4.3, with
    "the previous cell" and "the list's min" read off the list itself. *)
Inductive spec_child (st : state) (compare : comparator) (probe b : nat)
    : option nat -> Prop :=
| spec_no_match (fuel : nat) (n : BPlusNode.t) :
    Heap.nodes st !! b = Some n ->
    LLsearch fuel st compare (BPlusNode.cellsList n) probe LesserThanOrEqualsTo = Ok None ->
    spec_child st compare probe b (BPlusNode.left_most_child n)
| spec_strictly_less (fuel : nat) (n : BPlusNode.t) (f : nat) (fn : LinkedNode.t nat)
    (fc : BPlusCell.t K V) (c : Z) :
    Heap.nodes st !! b = Some n ->
    LLsearch fuel st compare (BPlusNode.cellsList n) probe LesserThanOrEqualsTo = Ok (Some f) ->
    LHeap.lnodes (Heap.lheap st) !! f = Some fn ->
    Heap.cells st !! LinkedNode.key fn = Some fc ->
    onCells st compare probe (LinkedNode.key fn) = Ok c ->
    0 < c ->
    spec_child st compare probe b (BPlusCell.right_child_node fc)
| spec_equal_min (fuel : nat) (n : BPlusNode.t) (l : SortedLinkedList.t) (f : nat)
    (fn : LinkedNode.t nat) :
    Heap.nodes st !! b = Some n ->
    LLsearch fuel st compare (BPlusNode.cellsList n) probe LesserThanOrEqualsTo = Ok (Some f) ->
    LHeap.lnodes (Heap.lheap st) !! f = Some fn ->
    onCells st compare probe (LinkedNode.key fn) = Ok 0 ->
    LHeap.llists (Heap.lheap st) !! BPlusNode.cellsList n = Some l ->
    SortedLinkedList.min l = Some f ->
    spec_child st compare probe b (BPlusNode.left_most_child n)
| spec_equal_previous (fuel : nat) (n : BPlusNode.t) (l : SortedLinkedList.t)
    (ns : list nat) (i f p : nat) (fn pn : LinkedNode.t nat) (pc : BPlusCell.t K V) :
    Heap.nodes st !! b = Some n ->
    LLsearch fuel st compare (BPlusNode.cellsList n) probe LesserThanOrEqualsTo = Ok (Some f) ->
    LHeap.lnodes (Heap.lheap st) !! f = Some fn ->
    onCells st compare probe (LinkedNode.key fn) = Ok 0 ->
    LHeap.llists (Heap.lheap st) !! BPlusNode.cellsList n = Some l ->
    chain (Heap.lheap st) None (SortedLinkedList.min l) ns ->
    ns !! i = Some p ->
    ns !! S i = Some f ->
    LHeap.lnodes (Heap.lheap st) !! p = Some pn ->
    Heap.cells st !! LinkedNode.key pn = Some pc ->
    spec_child st compare probe b (BPlusCell.right_child_node pc).

(** The specified descent from [b] ends at the leaf [leaf]. *)
Inductive spec_descent (st : state) (compare : comparator) (probe : nat)
    : nat -> nat -> Prop :=
| spec_at_leaf (b : nat) (n : BPlusNode.t) :
    Heap.nodes st !! b = Some n ->
    BPlusNode.isLeaf n = true ->
    spec_descent st compare probe b b
| spec_through (b c leaf : nat) (n : BPlusNode.t) :
    Heap.nodes st !! b = Some n ->
    BPlusNode.isLeaf n = false ->
    spec_child st compare probe b (Some c) ->
    spec_descent st compare probe c leaf ->
    spec_descent st compare probe b leaf.

(** [leafChain st o ls]: following [rightSibling] from the node [o]
    visits exactly the nodes [ls]. *)
Inductive leafChain (st : state) : option nat -> list nat -> Prop :=
| leafChain_nil : leafChain st None []
| leafChain_cons (b : nat) (n : BPlusNode.t) (rest : list nat) :
    Heap.nodes st !! b = Some n ->
    leafChain st (BPlusNode.rightSibling n) rest ->
    leafChain st (Some b) (b :: rest).

(** The [count] of the cell list of node [b] is [c]. *)
Definition hasCount (st : state) (b : nat) (c : Z) : Prop :=
  exists n l,
    Heap.nodes st !! b = Some n /\
    LHeap.llists (Heap.lheap st) !! BPlusNode.cellsList n = Some l /\
    SortedLinkedList.count l = c.

(** The key of the first cell of node [b] is [k]. *)
Definition hasFirstKey (st : state) (b : nat) (k : K) : Prop :=
  exists n l m ln c,
    Heap.nodes st !! b = Some n /\
    LHeap.llists (Heap.lheap st) !! BPlusNode.cellsList n = Some l /\
    SortedLinkedList.min l = Some m /\
    LHeap.lnodes (Heap.lheap st) !! m = Some ln /\
    Heap.cells st !! LinkedNode.key ln = Some c /\
    BPlusCell.key c = k.

(** The sum of the counts of the first [j] leaves. *)
Definition running (cs : list Z) (j : nat) : Z := foldr Z.add 0 (take j cs).
End TreeShape.

(** [within P ns before after]: a reference that a traversal of [ns]
    either left as it was or set to a node of [ns] that satisfies [P]. *)
Definition within (P : nat -> Prop) (ns : list nat) (before after : option nat) : Prop :=
  after = before \/ exists c, after = Some c /\ c ∈ ns /\ P c.

(** The node [c] holds a key for which [compare key _] returns a number
    that satisfies [sign]. *)
Definition compares {K : Type} (compare : K -> K -> Res Z) (h : LHeap.t K) (key : K)
    (sign : Z -> Prop) (c : nat) : Prop :=
  exists n z, LHeap.lnodes h !! c = Some n /\ compare key (LinkedNode.key n) = Ok z /\ sign z.

(** ** Further notions used to state properties *)

(** The last node of [ns], or [d] when [ns] is empty. *)
Definition lastOr (d : option nat) (ns : list nat) : option nat :=
  match last ns with
  | Some p => Some p
  | None => d
  end.

(** The nodes [ns] hold the records [nds]. *)
Definition stored {K : Type} (h : LHeap.t K) (ns : list nat) (nds : list (LinkedNode.t K)) : Prop :=
  Forall2 (fun c n => LHeap.lnodes h !! c = Some n) ns nds.

(** The keys for which the query comparator returns zero. *)
Definition matchesQuery {K : Type} (queryCompare : K -> K -> Res Z) (k : K) : bool :=
  match queryCompare k k with
  | Ok z => z =? 0
  | Fail _ => false
  end.

(** What a node contributes to a collection: its key once, or once per
    insert when duplicates are expanded. *)
Definition expand {K : Type} (individually : bool) (n : LinkedNode.t K) : list K :=
  if individually
  then replicate (Z.to_nat (LinkedNode.duplicate_count n + 1)) (LinkedNode.key n)
  else [LinkedNode.key n].

Section MoreShape.
Context {K V : Type}.

(** [spineTo st b k c]: going up [k] parents from node [b], through
    nodes that have no parent cell, reaches a node whose parent cell
    is [c]. *)
Inductive spineTo (st : Heap.t K V) : nat -> nat -> nat -> Prop :=
| spine_here (b : nat) (n : BPlusNode.t) (c : nat) :
    Heap.nodes st !! b = Some n ->
    BPlusNode.parent_cell n = Some c ->
    spineTo st b 0 c
| spine_up (b : nat) (n : BPlusNode.t) (p k c : nat) :
    Heap.nodes st !! b = Some n ->
    BPlusNode.parent_cell n = None ->
    BPlusNode.parent_node n = Some p ->
    spineTo st p k c ->
    spineTo st b (S k) c.

(** [spineOff st b k]: going up [k] parents from node [b] reaches the
    root, and no node on the way has a parent cell. *)
Inductive spineOff (st : Heap.t K V) : nat -> nat -> Prop :=
| spine_root (b : nat) (n : BPlusNode.t) :
    Heap.nodes st !! b = Some n ->
    BPlusNode.parent_cell n = None ->
    BPlusNode.parent_node n = None ->
    spineOff st b 0
| spine_off_up (b : nat) (n : BPlusNode.t) (p k : nat) :
    Heap.nodes st !! b = Some n ->
    BPlusNode.parent_cell n = None ->
    BPlusNode.parent_node n = Some p ->
    spineOff st p k ->
    spineOff st b (S k).

(** [st'] is [st] with more cells: the tree record, the nodes, the
    lists and the cells of [st] are all as they were. *)
Definition grown (st st' : Heap.t K V) : Prop :=
  Heap.lheap st' = Heap.lheap st /\
  Heap.nodes st' = Heap.nodes st /\
  Heap.tree st' = Heap.tree st /\
  exists more, Heap.cells st' = Heap.cells st ++ more.

(** The state after an insert into a tree [st] without a root: one more
    leaf, the root, whose cell list holds one node, for the one new
    cell.  The new leaf is the node [length (Heap.nodes st)]; its list is
    the second of two new lists, since the constructor of the node had
    made one already. *)
Definition firstState (st : Heap.t K V) (key : K) (value : option V) : Heap.t K V :=
  let B := length (Heap.nodes st) in
  let C := length (Heap.cells st) in
  let N := length (LHeap.lnodes (Heap.lheap st)) in
  let L1 := S (length (LHeap.llists (Heap.lheap st))) in
  Heap.mk
    (LHeap.mk (LHeap.lnodes (Heap.lheap st) ++ [LinkedNode.new C])
              (LHeap.llists (Heap.lheap st) ++
                 [SortedLinkedList.new; SortedLinkedList.mk (Some N) (Some N) 1]))
    (Heap.cells st ++ [BPlusCell.mk key value None (Some B)])
    (Heap.nodes st ++ [BPlusNode.mk None None None None L1 None true])
    (BPlusTree.mk (Some B) (Some B) (Some B) (BPlusTree.size (Heap.tree st) + 1)
       (BPlusTree.half_capacity (Heap.tree st)) (BPlusTree.max_node_size (Heap.tree st))).

(** [leafHolds st compare W b ids]: the cell list of the node [b] is
    well linked, has at most [W] nodes, and holds the cells [ids] in
    list order; its [max] is a node whose cell is not below any of
    them, or is undefined when the list is empty. *)
Definition leafHolds (st : Heap.t K V) (compare : ComparatorFunction (BPlusCell.t K V))
    (W : nat) (b : nat) (ids : list nat) : Prop :=
  exists n l ns nds,
    Heap.nodes st !! b = Some n /\
    LHeap.llists (Heap.lheap st) !! BPlusNode.cellsList n = Some l /\
    chain (Heap.lheap st) None (SortedLinkedList.min l) ns /\
    stored (Heap.lheap st) ns nds /\
    ids = map LinkedNode.key nds /\
    (length ns <= W)%nat /\
    match SortedLinkedList.max l with
    | Some m =>
      exists mn, LHeap.lnodes (Heap.lheap st) !! m = Some mn /\
        forall id, id ∈ ids ->
          exists z, onCells st compare (LinkedNode.key mn) id = Ok z /\ 0 <= z
    | None => ns = []
    end.

(** [leafCells st W b cs]: the cell list of the node [b] is well
    linked, has at most [W] nodes, and holds the cells [cs] in list
    order. *)
Definition leafCells (st : Heap.t K V) (W : nat) (b : nat) (cs : list (BPlusCell.t K V)) : Prop :=
  exists n l ns nds,
    Heap.nodes st !! b = Some n /\
    LHeap.llists (Heap.lheap st) !! BPlusNode.cellsList n = Some l /\
    chain (Heap.lheap st) None (SortedLinkedList.min l) ns /\
    stored (Heap.lheap st) ns nds /\
    Forall2 (fun nd c => Heap.cells st !! LinkedNode.key nd = Some c) nds cs /\
    (length ns <= W)%nat.

(** What one leaf adds to a result that is cut at [limit] inside a
    leaf only: its values [vs] up to the point where the result has
    [limit] elements, and all of them when the result has [limit]
    elements or more already. *)
Definition cutInLeaf {A} (limit : Z) (acc vs : list A) : list A :=
  acc ++ (if Z.of_nat (length acc) <? limit
          then take (Z.to_nat (limit - Z.of_nat (length acc))) vs
          else vs).
End MoreShape.

(** * Properties *)

(** Side conditions on the lengths of updated arenas. *)
Ltac len := repeat first [rewrite length_insert | rewrite length_app]; cbn [length]; lia.

(** ** Lists of the engine *)

Section ChainFacts.
Context {K : Type}.
Implicit Types h : LHeap.t K.

Lemma chain_head h prev o ns : chain h prev o ns -> o = head ns.
Proof. destruct 1; reflexivity. Qed.

(** The [leftSibling] of a node of a chain is its predecessor. *)
Lemma chain_lookup h prev o ns i f :
  chain h prev o ns -> ns !! i = Some f ->
  exists fn, LHeap.lnodes h !! f = Some fn /\
    LinkedNode.leftSibling fn = match i with O => prev | S j => ns !! j end.
Proof.
  intros Hc. revert i. induction Hc as [|prev c n rest Hn Hl Hc IH]; intros i Hi.
  - discriminate.
  - destruct i as [|i]; cbn in Hi.
    + injection Hi as <-. eauto.
    + destruct (IH i Hi) as (fn & Hfn & Hls). exists fn. split; [exact Hfn|].
      rewrite Hls. destruct i; reflexivity.
Qed.

(** Allocating a node keeps every chain. *)
Lemma chain_alloc h prev o ns n' :
  chain h prev o ns ->
  chain (LHeap.mk (LHeap.lnodes h ++ [n']) (LHeap.llists h)) prev o ns.
Proof.
  induction 1 as [|prev c n rest Hn Hl Hc IH]; econstructor; eauto.
  cbn. apply lookup_app_l_Some. exact Hn.
Qed.

(** The bounded loop of [splitAt] reaches the node at its index. *)
Lemma advance_chain h : forall j prev o ns b,
  chain h prev o ns -> ns !! j = Some b -> LL.advance j h o = Ok (Some b).
Proof.
  induction j as [|j IH]; intros prev o ns b Hc Hb.
  - destruct Hc; [discriminate|]. cbn in Hb. injection Hb as ->. reflexivity.
  - destruct Hc as [|prev c n rest Hn Hl Hrest]; [discriminate|].
    cbn in Hb. cbn [LL.advance]. unfold LL.node, deref. rewrite Hn. cbn [bind Monad_Res].
    eapply IH; eauto.
Qed.

(** What [splitAt] leaves in the two list headers, for every
    well-linked list and every index [0 <= i < count - 1], with [a] the
    node at index [i] and [b] the node at index [i + 1]: the left half
    ends at [a] and counts [i + 1]; the right half, a new list, starts
    at [b] and counts [count - i - 1], and its [max] is [a] as well. *)
Lemma LL_splitAt_headers h list l ns i a b :
  LHeap.llists h !! list = Some l ->
  chain h None (SortedLinkedList.min l) ns ->
  0 <= i < SortedLinkedList.count l - 1 ->
  ns !! Z.to_nat i = Some a ->
  ns !! S (Z.to_nat i) = Some b ->
  exists h',
    LL.splitAt list i h = Ok ((list, length (LHeap.llists h)), h') /\
    LHeap.llists h' !! list =
      Some (SortedLinkedList.mk (SortedLinkedList.min l) (Some a) (i + 1)) /\
    LHeap.llists h' !! length (LHeap.llists h) =
      Some (SortedLinkedList.mk (Some b) (Some a) (SortedLinkedList.count l - i - 1)).
Proof.
  intros Hl Hc Hi Ha Hb.
  destruct (chain_lookup _ _ _ _ _ _ Hc Hb) as (bn & Hbn & Hbl). rewrite Ha in Hbl.
  destruct (chain_lookup _ _ _ _ _ _ Hc Ha) as (an & Han & _).
  assert (Hlist : (list < length (LHeap.llists h))%nat) by (eapply lookup_lt_Some; eauto).
  assert (Hblt : (b < length (LHeap.lnodes h))%nat) by (eapply lookup_lt_Some; eauto).
  destruct (lookup_lt_is_Some_2 (<[a:=LinkedNode.set_rightSibling None an]> (LHeap.lnodes h)) b)
    as [bn' Hbn']; [rewrite length_insert; exact Hblt|].
  eexists. split; [|split].
  - unfold LL.splitAt. cbn [bind Monad_M].
    unfold LL.getl at 1, read, LL.header, deref. rewrite Hl.
    destruct (Z.ltb_spec (SortedLinkedList.count l) 2); [lia|].
    destruct (Z.ltb_spec i (SortedLinkedList.count l - 1)); [|lia]. cbn [negb].
    replace (Z.to_nat (i + 1)) with (S (Z.to_nat i)) by lia.
    rewrite (advance_chain _ _ _ _ _ _ Hc Hb).
    unfold LL.getn at 1, read, LL.node, deref. rewrite Hbn. cbn [ret Monad_M]. rewrite Hbl.
    cbn [LL.modify_node_if]. unfold LL.modify_node at 1. rewrite Han.
    unfold LL.modify_node at 1. cbn [LHeap.lnodes]. rewrite Hbn'.
    unfold LL.modify_list at 1. cbn [LHeap.llists]. rewrite Hl.
    unfold LL.modify_list at 1. cbn [LHeap.llists].
    rewrite list_lookup_insert_eq by exact Hlist.
    cbn [LL.alloc_list LHeap.llists LHeap.lnodes].
    unfold LL.modify_list at 1. cbn [LHeap.llists].
    rewrite list_lookup_middle by len.
    unfold LL.getl at 1, read, LL.header, deref. cbn [LHeap.llists].
    rewrite list_lookup_insert_ne by len.
    rewrite lookup_app_l by len.
    rewrite list_lookup_insert_eq by len.
    unfold LL.modify_list at 1. cbn [LHeap.llists].
    rewrite list_lookup_insert_eq by len.
    unfold LL.modify_list at 1. cbn [LHeap.llists].
    rewrite list_lookup_insert_eq by len.
    repeat rewrite length_insert. reflexivity.
  - cbn [LHeap.llists].
    rewrite !list_lookup_insert_ne by len.
    rewrite lookup_app_l by len.
    rewrite list_lookup_insert_eq by len.
    reflexivity.
  - cbn [LHeap.llists].
    rewrite list_lookup_insert_eq by len.
    reflexivity.
Qed.

(** At the last index [splitAt] returns the list itself, untouched,
    and a new empty list. *)
Lemma LL_splitAt_last_index h list l :
  LHeap.llists h !! list = Some l ->
  2 <= SortedLinkedList.count l ->
  LL.splitAt list (SortedLinkedList.count l - 1) h =
    Ok ((list, length (LHeap.llists h)),
        LHeap.mk (LHeap.lnodes h) (LHeap.llists h ++ [SortedLinkedList.new])).
Proof.
  intros Hl Hcount. unfold LL.splitAt. cbn [bind Monad_M].
  unfold LL.getl at 1, read, LL.header, deref. rewrite Hl.
  destruct (Z.ltb_spec (SortedLinkedList.count l) 2); [lia|].
  rewrite Z.ltb_irrefl, Z.eqb_refl. reflexivity.
Qed.

(** A list of fewer than two nodes, or an index past the last one,
    raises the error. *)
Lemma LL_splitAt_out_of_range h list l i :
  LHeap.llists h !! list = Some l ->
  (SortedLinkedList.count l < 2 ->
   LL.splitAt list i h = Fail (Error "Size of List to be split must be at least 2")) /\
  (2 <= SortedLinkedList.count l -> SortedLinkedList.count l - 1 < i ->
   LL.splitAt list i h = Fail (Error "splitAtIndex must be less than listToSplit.count-1")).
Proof.
  intros Hl. split.
  - intros Hcount. unfold LL.splitAt. cbn [bind Monad_M].
    unfold LL.getl at 1, read, LL.header, deref. rewrite Hl.
    destruct (Z.ltb_spec (SortedLinkedList.count l) 2); [reflexivity|lia].
  - intros Hcount Hi. unfold LL.splitAt. cbn [bind Monad_M].
    unfold LL.getl at 1, read, LL.header, deref. rewrite Hl.
    destruct (Z.ltb_spec (SortedLinkedList.count l) 2); [lia|].
    destruct (Z.ltb_spec i (SortedLinkedList.count l - 1)); [lia|].
    destruct (Z.eqb_spec i (SortedLinkedList.count l - 1)); [lia|]. reflexivity.
Qed.

Lemma within_cons P c rest before after :
  within P rest before after -> within P (c :: rest) before after.
Proof.
  intros [->|(x & -> & Hx & HP)]; [left|right]; eauto using list_elem_of_further.
Qed.

Lemma within_here (P : nat -> Prop) c rest before :
  P c -> within P (c :: rest) before (Some c).
Proof. intros HP. right. exists c. repeat split; [apply list_elem_of_here|exact HP]. Qed.

Lemma within_step (P : nat -> Prop) c rest before after :
  P c -> within P rest (Some c) after -> within P (c :: rest) before after.
Proof.
  intros HP [->|(x & -> & Hx & HPx)].
  - apply within_here. exact HP.
  - right. eauto using list_elem_of_further.
Qed.

Variable compare : K -> K -> Res Z.

(** On a chain whose keys the comparator accepts, the search loop
    returns; [eq] is set to a node that compares equal, [lte] to a node
    below the searched key and [gte] to a node above it, all nodes of
    the chain. *)
Lemma search_loop_chain h key ty ns :
  forall prev o fuel eq lte gte,
  chain h prev o ns ->
  (forall c n, c ∈ ns -> LHeap.lnodes h !! c = Some n ->
               exists z, compare key (LinkedNode.key n) = Ok z) ->
  (length ns <= fuel)%nat ->
  exists eq' lte' gte',
    LL.search_loop compare fuel h key ty o eq lte gte = Ok (eq', lte', gte') /\
    within (compares compare h key (fun z => z = 0)) ns eq eq' /\
    within (compares compare h key (fun z => 0 < z)) ns lte lte' /\
    within (compares compare h key (fun z => z < 0)) ns gte gte'.
Proof.
  induction ns as [|c rest IH]; intros prev o fuel eq lte gte Hc Hcmp Hfuel.
  - inversion Hc; subst. exists eq, lte, gte.
    destruct fuel; cbn; repeat split; left; reflexivity.
  - inversion Hc as [|? ? n ? Hn Hl Hrest]; subst.
    destruct fuel as [|fuel]; [cbn in Hfuel; lia|].
    destruct (Hcmp c n (list_elem_of_here _ _) Hn) as [z Hz].
    cbn [LL.search_loop]. unfold LL.node, deref. rewrite Hn. cbn [bind Monad_Res]. rewrite Hz.
    assert (Hcmp' : forall c' n', c' ∈ rest -> LHeap.lnodes h !! c' = Some n' ->
               exists z, compare key (LinkedNode.key n') = Ok z)
      by (intros; eapply Hcmp; eauto using list_elem_of_further).
    assert (Hfuel' : (length rest <= fuel)%nat) by (cbn in Hfuel; lia).
    destruct (Z.eqb_spec z 0) as [Hz0|Hz0].
    + assert (Heq : compares compare h key (fun z => z = 0) c) by (exists n, z; auto).
      destruct ty.
      5:{ destruct (IH _ _ fuel eq lte gte Hrest Hcmp' Hfuel') as (e & l & g & -> & ? & ? & ?).
          exists e, l, g. repeat split; auto using within_cons. }
      all: exists (Some c), lte, gte; repeat split;
        first [apply within_here; exact Heq | left; reflexivity].
    + destruct (Z.gtb_spec z 0) as [Hpos|Hneg].
      * assert (Hlt : compares compare h key (fun z => 0 < z) c) by (exists n, z; auto).
        destruct (IH _ _ fuel eq (Some c) gte Hrest Hcmp' Hfuel') as (e & l & g & -> & ? & ? & ?).
        exists e, l, g. repeat split; auto using within_cons, within_step.
      * assert (Hgt : compares compare h key (fun z => z < 0) c)
          by (exists n, z; split; [|split]; auto; lia).
        exists eq, lte, (Some c). repeat split;
          first [apply within_here; exact Hgt | left; reflexivity].
Qed.

(** The LE-search on such a list returns nothing or a node of the list
    whose key is not above the searched key. *)
Lemma search_chain_LE h list l key ns fuel :
  LHeap.llists h !! list = Some l ->
  chain h None (SortedLinkedList.min l) ns ->
  (forall c n, c ∈ ns -> LHeap.lnodes h !! c = Some n ->
               exists z, compare key (LinkedNode.key n) = Ok z) ->
  (length ns <= fuel)%nat ->
  exists r, LL.search compare fuel h list key LesserThanOrEqualsTo = Ok r /\
            within (compares compare h key (fun z => 0 <= z)) ns None r.
Proof.
  intros Hl Hc Hcmp Hfuel. unfold LL.search, LL.header, deref. rewrite Hl. cbn [bind Monad_Res].
  destruct (SortedLinkedList.min l) as [m|] eqn:Hmin.
  - destruct (search_loop_chain h key LesserThanOrEqualsTo ns None (Some m) fuel None None None
                Hc Hcmp Hfuel) as (e & lt & g & -> & He & Hlt & Hg).
    eexists. split; [reflexivity|].
    destruct He as [->|(x & -> & Hx & n & z & Hn & Hz & Hs)].
    + cbn [orElse]. destruct Hlt as [->|(x & -> & Hx & n & z & Hn & Hz & Hs)].
      * left; reflexivity.
      * right. exists x. repeat split; auto. exists n, z. repeat split; auto. lia.
    + right. exists x. repeat split; auto. exists n, z. repeat split; auto. lia.
  - exists None. split; [reflexivity|left; reflexivity].
Qed.

(** The search loop walks over the nodes whose key is below the
    searched key and stops at the first node that compares equal. *)
Lemma search_loop_equal h key ty f fn post :
  ty <> GreaterThan ->
  LHeap.lnodes h !! f = Some fn ->
  compare key (LinkedNode.key fn) = Ok 0 ->
  forall pre prev o fuel eq lte gte,
  chain h prev o (pre ++ f :: post) ->
  (forall c n, c ∈ pre -> LHeap.lnodes h !! c = Some n ->
               exists z, compare key (LinkedNode.key n) = Ok z /\ 0 < z) ->
  (length pre < fuel)%nat ->
  exists lte', LL.search_loop compare fuel h key ty o eq lte gte = Ok (Some f, lte', gte).
Proof.
  intros Hty Hf Hzero. induction pre as [|c pre IH]; intros prev o fuel eq lte gte Hc Hpre Hfuel.
  - inversion Hc as [|? ? n ? Hn Hl Hrest]; subst.
    destruct fuel as [|fuel]; [cbn in Hfuel; lia|].
    rewrite Hf in Hn. injection Hn as <-.
    cbn [LL.search_loop]. unfold LL.node, deref. rewrite Hf. cbn [bind Monad_Res]. rewrite Hzero.
    cbn. exists lte. destruct ty; congruence.
  - inversion Hc as [|? ? n ? Hn Hl Hrest]; subst.
    destruct fuel as [|fuel]; [cbn in Hfuel; lia|].
    destruct (Hpre c n (list_elem_of_here _ _) Hn) as (z & Hz & Hpos).
    cbn [LL.search_loop]. unfold LL.node, deref. rewrite Hn. cbn [bind Monad_Res]. rewrite Hz.
    destruct (Z.eqb_spec z 0) as [E|_]; [lia|].
    destruct (Z.gtb_spec z 0) as [_|E]; [|lia].
    apply (IH (Some c) _ fuel eq (Some c) gte Hrest).
    + intros; eapply Hpre; eauto using list_elem_of_further.
    + cbn in Hfuel. lia.
Qed.

(** Claim C2.  Inserting a key that compares equal to the key of a node
    [f] of a list (the nodes before [f] hold smaller keys) returns [f],
    increments the duplicate count of [f] and overwrites its key with
    the new key; the list's [count] is decremented by one: the function
    returns before the [list.count++] that was meant to undo its
    [list.count--]. *)
Theorem LL_insert_equal_key_decrements_count fuel h list l pre f fn post key :
  LHeap.llists h !! list = Some l ->
  chain h None (SortedLinkedList.min l) (pre ++ f :: post) ->
  LHeap.lnodes h !! f = Some fn ->
  (forall c n, c ∈ pre -> LHeap.lnodes h !! c = Some n ->
               exists z, compare key (LinkedNode.key n) = Ok z /\ 0 < z) ->
  compare key (LinkedNode.key fn) = Ok 0 ->
  (length pre < fuel)%nat ->
  exists h',
    LL.insert compare fuel list key h = Ok (f, h') /\
    LHeap.lnodes h' !! f =
      Some (LinkedNode.mk (LinkedNode.rightSibling fn) (LinkedNode.leftSibling fn)
              (LinkedNode.duplicate_count fn + 1) key) /\
    LHeap.llists h' !! list =
      Some (SortedLinkedList.mk (SortedLinkedList.min l) (SortedLinkedList.max l)
              (SortedLinkedList.count l - 1)).
Proof.
  intros Hl Hc Hf Hpre Hzero Hfuel.
  set (h1 := LHeap.mk (LHeap.lnodes h ++ [LinkedNode.new key]) (LHeap.llists h)).
  assert (Hf1 : LHeap.lnodes h1 !! f = Some fn) by (cbn; apply lookup_app_l_Some; exact Hf).
  assert (Hlt : (f < length (LHeap.lnodes h1))%nat) by (eapply lookup_lt_Some; eauto).
  assert (Hllt : (list < length (LHeap.llists h))%nat) by (eapply lookup_lt_Some; eauto).
  assert (Hmin : exists m, SortedLinkedList.min l = Some m).
  { rewrite (chain_head _ _ _ _ Hc). destruct pre; cbn; eauto. }
  destruct Hmin as [m Hmin].
  assert (Hpre1 : forall c n, c ∈ pre -> LHeap.lnodes h1 !! c = Some n ->
               exists z, compare key (LinkedNode.key n) = Ok z /\ 0 < z).
  { intros c n Hin Hn. eapply Hpre; eauto.
    assert (Hcin : c ∈ pre ++ f :: post) by (apply elem_of_app; left; exact Hin).
    apply list_elem_of_lookup_1 in Hcin as [i Hi].
    destruct (chain_lookup _ _ _ _ _ _ Hc Hi) as (n0 & Hn0 & _).
    cbn in Hn. rewrite (lookup_app_l_Some _ _ _ _ Hn0) in Hn. congruence. }
  destruct (search_loop_equal h1 key LesserThanOrEqualsTo f fn post ltac:(discriminate) Hf1 Hzero
              pre None (SortedLinkedList.min l) fuel None None None
              (chain_alloc _ _ _ _ _ Hc) Hpre1 Hfuel) as [lte' Hloop].
  eexists. split; [|split].
  - assert (Hl1 : LHeap.llists h1 !! list = Some l) by exact Hl.
    unfold LL.insert. cbn [bind Monad_M LL.alloc_node]. fold h1.
    unfold read at 1, LL.header, deref. rewrite Hl1, Hmin.
    unfold read at 1, LL.search, LL.header, deref. rewrite Hl1.
    cbn [bind Monad_Res]. rewrite Hmin. rewrite <- Hmin, Hloop. cbn [orElse].
    unfold read at 1, LL.node, deref. rewrite Hf1.
    unfold read at 1. rewrite Hzero. cbn [Z.eqb bind Monad_M].
    unfold LL.modify_node at 1. rewrite Hf1.
    unfold LL.modify_list at 1. cbn [LHeap.llists]. rewrite Hl1.
    unfold LL.modify_node at 1. cbn [LHeap.lnodes].
    rewrite list_lookup_insert_eq by exact Hlt. cbn [ret Monad_M]. reflexivity.
  - cbn [LHeap.lnodes]. rewrite list_lookup_insert_eq by (rewrite length_insert; exact Hlt).
    reflexivity.
  - cbn [LHeap.llists]. rewrite list_lookup_insert_eq by exact Hllt. reflexivity.
Qed.
End ChainFacts.

(** Inserting 5 into the list that holds only 5: the count drops
    from 1 to 0. *)
Lemma LL_insert_equal_key_decrements_count_witness :
  exists h',
    LL.insert LLView.zCompare 1 0 5
      (LHeap.mk [LinkedNode.new 5] [SortedLinkedList.mk (Some 0%nat) (Some 0%nat) 1])
      = Ok (0%nat, h') /\
    LHeap.lnodes h' !! 0%nat = Some (LinkedNode.mk None None 1 5) /\
    LHeap.llists h' !! 0%nat = Some (SortedLinkedList.mk (Some 0%nat) (Some 0%nat) 0).
Proof.
  apply (LL_insert_equal_key_decrements_count LLView.zCompare 1
           (LHeap.mk [LinkedNode.new 5] [SortedLinkedList.mk (Some 0%nat) (Some 0%nat) 1])
           0%nat (SortedLinkedList.mk (Some 0%nat) (Some 0%nat) 1)
           [] 0%nat (LinkedNode.new 5) [] 5).
  - reflexivity.
  - apply (chain_cons _ None 0%nat (LinkedNode.new 5) []); [reflexivity|reflexivity|constructor].
  - reflexivity.
  - intros c n Hc. apply elem_of_nil in Hc. destruct Hc.
  - reflexivity.
  - cbn. lia.
Defined.

(** Claim C3.  Splitting the list 1, 2, 3 after index 0 gives a right
    half that starts at 2 and counts 2 nodes, but whose [max] is the node
    of key 1, the [max] of the left half, not the node of key 3: the right
    half takes [listToSplit.max] after it was overwritten.  And a negative
    index raises nothing: the left half keeps [min] and gets [count = 0]. *)
Theorem LL_splitAt_right_max_is_left_max (k : nat) :
  LLView.splitAndView (4 + k) [1; 2; 3] 0 =
    Ok ((Some 1, Some 1, 1, [1]), (Some 2, Some 1, 2, [2; 3])) /\
  LLView.splitAndView (4 + k) [1; 2; 3] (-1) =
    Ok ((Some 1, None, 0, [1; 2; 3]), (Some 1, None, 3, [1; 2; 3])).
Proof. split; vm_compute; reflexivity. Qed.

(** What of [split_at] does hold on that list: the last index returns
    the list itself and an empty right half, and an index past the end
    or a list of one node raises the error. *)
Lemma LL_splitAt_bounds (k : nat) :
  LLView.splitAndView (4 + k) [1; 2; 3] 2 =
    Ok ((Some 1, Some 3, 3, [1; 2; 3]), (None, None, 0, [])) /\
  LLView.splitAndView (4 + k) [1; 2; 3] 3 =
    Fail (Error "splitAtIndex must be less than listToSplit.count-1") /\
  LLView.splitAndView (4 + k) [1] 0 =
    Fail (Error "Size of List to be split must be at least 2").
Proof. repeat split; vm_compute; reflexivity. Qed.

(** ** The tree *)

Section TreeFacts.
Context {K V : Type}.
Implicit Types st : Heap.t K V.

(** With a root, [searchForLeafNode] allocates the probe cell and
    runs the descent; nothing else changes. *)
Lemma searchForLeafNode_root fuel compare key q st root :
  BPlusTree.root_node (Heap.tree st) = Some root ->
  BB.searchForLeafNode (K:=K) (V:=V) fuel compare key q st =
    match BB.descend fuel (Heap.add_cell st (BPlusCell.new key None None))
            (match q with Some c => c | None => compare end)
            (length (Heap.cells st)) (Some root) with
    | Ok r => Ok (r, Heap.add_cell st (BPlusCell.new key None None))
    | Fail e => Fail e
    end.
Proof.
  intros Hroot. unfold BB.searchForLeafNode. cbn. rewrite Hroot. reflexivity.
Qed.

Lemma subtree_add_cell st W d b c :
  subtree st W d b -> subtree (Heap.add_cell st c) W d b.
Proof.
  induction 1 as [d b n Hn Hleaf
                 | d b n l ns lmc Hn Hleaf Hl Hc Hw Hlmc Hsub IHsub Hex Hall IHall].
  - eapply subtree_leaf; eauto.
  - eapply subtree_interior; eauto.
    + intros x Hx. destruct (Hex x Hx) as (ln & k & r & H1 & H2 & H3).
      exists ln, k, r. repeat split; auto. cbn. apply lookup_app_l_Some. exact H2.
    + intros x ln k r Hx Hln Hk Hr.
      destruct (Hex x Hx) as (ln' & k' & r' & H1 & H2 & H3).
      cbn in Hln. rewrite H1 in Hln. injection Hln as <-.
      cbn in Hk. rewrite (lookup_app_l_Some _ _ _ _ H2) in Hk. injection Hk as <-.
      eapply IHall; eauto.
Qed.

(** The loop of the descent on a well-formed subtree: it returns a
    leaf, by the path the specification words. *)
Lemma descend_spec st compare probe pc W :
  Heap.cells st !! probe = Some pc ->
  total compare ->
  forall d b, subtree st W d b ->
  forall fuel, (d + W <= fuel)%nat ->
  exists leaf n,
    BB.descend fuel st compare probe (Some b) = Ok (Some leaf) /\
    Heap.nodes st !! leaf = Some n /\
    BPlusNode.isLeaf n = true /\
    spec_descent st compare probe b leaf.
Proof.
  intros Hprobe Htotal d b Hsub.
  induction Hsub as [d b n Hn Hleaf
                    | d b n l ns lmc Hn Hleaf Hl Hc Hw Hlmc Hsub IHsub Hex Hall IHall];
    intros fuel Hfuel.
  - exists b, n. repeat split; auto.
    + destruct fuel; cbn [BB.descend]; unfold bnodeOf, deref; rewrite Hn; cbn;
        rewrite Hleaf; reflexivity.
    + eapply spec_at_leaf; eauto.
  - destruct fuel as [|fuel]; [lia|].
    assert (Hcmp : forall c n', c ∈ ns -> LHeap.lnodes (Heap.lheap st) !! c = Some n' ->
              exists z, onCells st compare probe (LinkedNode.key n') = Ok z).
    { intros c n' Hin Hn'. destruct (Hex c Hin) as (ln & k & r & H1 & H2 & H3).
      rewrite H1 in Hn'. injection Hn' as <-.
      destruct (Htotal pc k) as [z Hz]. exists z.
      unfold onCells, cellOf, deref. rewrite Hprobe, H2. exact Hz. }
    destruct (search_chain_LE (onCells st compare) (Heap.lheap st) (BPlusNode.cellsList n) l probe
                ns (S fuel) Hl Hc Hcmp ltac:(lia)) as (r & Hsearch & Hr).
    cbn [BB.descend]. unfold bnodeOf at 1, deref. rewrite Hn. cbn [bind Monad_Res]. rewrite Hleaf.
    unfold LLsearch at 1. rewrite Hsearch.
    destruct Hr as [->|(f & -> & Hf & fn0 & z & Hfn0 & Hz & Hsign)].
    + (* no match *)
      rewrite Hlmc.
      destruct (IHsub fuel ltac:(lia)) as (leaf & ln & Hd & Hln & Hlf & Hsd).
      exists leaf, ln. repeat split; auto.
      eapply spec_through; eauto. rewrite <- Hlmc. eapply spec_no_match; eauto.
    + destruct (Hex f Hf) as (fn & fc & rc & Hfn & Hfc & Hrc).
      rewrite Hfn in Hfn0. injection Hfn0 as <-.
      unfold lnodeOf at 1, LL.node, deref. rewrite Hfn. cbn [bind Monad_Res]. rewrite Hz.
      destruct (Z.eqb_spec z 0) as [->|Hne].
      * (* the match is equal *)
        apply list_elem_of_lookup_1 in Hf as [i Hi].
        destruct (chain_lookup _ _ _ _ _ _ Hc Hi) as (fn' & Hfn' & Hls).
        rewrite Hfn in Hfn'. injection Hfn' as <-.
        destruct i as [|j].
        -- rewrite Hls, Hlmc.
           destruct (IHsub fuel ltac:(lia)) as (leaf & ln & Hd & Hln & Hlf & Hsd).
           exists leaf, ln. repeat split; auto.
           eapply spec_through; eauto. rewrite <- Hlmc.
           eapply spec_equal_min; eauto.
           rewrite (chain_head _ _ _ _ Hc). destruct ns; [discriminate|].
           cbn in Hi |- *. congruence.
        -- destruct (lookup_lt_is_Some_2 ns j) as [p Hp].
           { apply lookup_lt_Some in Hi. lia. }
           rewrite Hls, Hp.
           assert (Hpin : p ∈ ns) by (eapply list_elem_of_lookup_2; eauto).
           destruct (Hex p Hpin) as (pn & pk & pr & Hpn & Hpk & Hpr).
           unfold lnodeOf, LL.node, deref. rewrite Hpn. cbn [bind Monad_Res].
           unfold cellOf, deref. rewrite Hpk. cbn [bind Monad_Res]. rewrite Hpr.
           destruct (IHall p pn pk pr Hpin Hpn Hpk Hpr fuel ltac:(lia))
             as (leaf & ln & Hd & Hln & Hlf & Hsd).
           exists leaf, ln. repeat split; auto.
           eapply spec_through; eauto. rewrite <- Hpr.
           eapply spec_equal_previous; eauto.
      * (* the match is strictly less *)
        unfold cellOf, deref. rewrite Hfc. cbn [bind Monad_Res]. rewrite Hrc.
        destruct (IHall f fn fc rc Hf Hfn Hfc Hrc fuel ltac:(lia))
          as (leaf & ln & Hd & Hln & Hlf & Hsd).
        exists leaf, ln. repeat split; auto.
        eapply spec_through; eauto. rewrite <- Hrc.
        eapply spec_strictly_less; eauto. lia.
Qed.

(** Claim C5.  On a tree with a root whose nodes are well formed (every
    interior node has a well-linked cell list, a left-most child and a
    right child in each cell) and a comparator that never raises, the
    descent for a key returns, for every large enough fuel, a leaf, and
    it reaches it as specified: at each interior node, no match of the
    LE-search sends it to [left_most_child], a strictly smaller match to
    the matched cell's right child, an equal match to the previous
    cell's right child, or to [left_most_child] when the match is the
    list's min.  The only change to the state is the probe cell. *)
Theorem searchForLeafNode_descends_as_specified fuel compare key st W d root :
  BPlusTree.root_node (Heap.tree st) = Some root ->
  subtree st W d root ->
  total compare ->
  (d + W <= fuel)%nat ->
  let st1 := Heap.add_cell st (BPlusCell.new key None None) in
  exists leaf n,
    BB.searchForLeafNode fuel compare key None st = Ok (Some leaf, st1) /\
    Heap.nodes st1 !! leaf = Some n /\
    BPlusNode.isLeaf n = true /\
    spec_descent st1 compare (length (Heap.cells st)) root leaf.
Proof.
  intros Hroot Hsub Htotal Hfuel st1.
  assert (Hprobe : Heap.cells st1 !! length (Heap.cells st)
                   = Some (BPlusCell.new key None None)).
  { cbn. apply list_lookup_middle. reflexivity. }
  destruct (descend_spec st1 compare _ _ W Hprobe Htotal d root
              (subtree_add_cell _ _ _ _ _ Hsub) fuel Hfuel) as (leaf & n & Hd & Hn & Hl & Hs).
  exists leaf, n. repeat split; auto.
  rewrite (searchForLeafNode_root _ _ _ _ _ _ Hroot). fold st1. rewrite Hd. reflexivity.
Qed.

(** Claim C10.  On a tree with a root, when the descent for [key]
    locates a leaf and the EQ-search in that leaf finds no match,
    [deleteKey] and [deleteKeyReturnValue] return nothing, and the only
    difference between the states before and after is the two probe
    cells the call allocated: the tree record (size, root, ends of the
    leaf chain), every node, every list and list node, and every cell
    that existed are as before. *)
Theorem deleteKey_absent_key_changes_nothing fuel compare key st root leaf n :
  BPlusTree.root_node (Heap.tree st) = Some root ->
  let probe := BPlusCell.new key None None in
  let st1 := Heap.add_cell st probe in
  let st2 := Heap.add_cell st1 probe in
  BB.searchForLeafNode fuel compare key None st = Ok (Some leaf, st1) ->
  bnodeOf st leaf = Ok n ->
  LLsearch fuel st2 compare (BPlusNode.cellsList n) (length (Heap.cells st1)) EqualsTo
    = Ok None ->
  BB.deleteKey fuel compare key st = Ok (None, st2) /\
  BB.deleteKeyReturnValue fuel compare key st = Ok (None, st2) /\
  Heap.tree st2 = Heap.tree st /\
  Heap.nodes st2 = Heap.nodes st /\
  Heap.lheap st2 = Heap.lheap st /\
  (forall i c, Heap.cells st !! i = Some c -> Heap.cells st2 !! i = Some c).
Proof.
  intros Hroot probe st1 st2 Hleaf Hn Hsearch.
  assert (Hdel : BB.deleteCell fuel compare key st = Ok (None, st2)).
  { unfold BB.deleteCell. cbn [bind Monad_M get_tree]. rewrite Hroot.
    rewrite Hleaf. cbn [defined ret bind Monad_M].
    unfold getb, read.
    replace (bnodeOf st1 leaf) with (Ok (A:=BPlusNode.t) n) by (symmetry; exact Hn).
    cbn [createBPlusCell bind Monad_M alloc_cell ret].
    unfold LLdeleteNode, liftLL, LL.deleteNode. cbn [bind Monad_M].
    fold st1. fold probe. fold st2.
    unfold LLsearch in Hsearch. cbn [Heap.lheap Heap.add_cell] in Hsearch |- *.
    unfold read. rewrite Hsearch. reflexivity. }
  repeat split.
  - unfold BB.deleteKey. cbn [bind Monad_M]. rewrite Hdel. reflexivity.
  - unfold BB.deleteKeyReturnValue. cbn [bind Monad_M]. rewrite Hdel. reflexivity.
  - intros i c Hc. cbn. apply lookup_app_l_Some. apply lookup_app_l_Some. exact Hc.
Qed.
End TreeFacts.

Section MiddleKey.
Context {K V : Type}.
Implicit Types st : Heap.t K V.

Lemma running_cons c cs j : running (c :: cs) (S j) = c + running cs j.
Proof. reflexivity. Qed.

(** The loop of [getMiddleKey] along the leaf chain: it passes the
    leaves whose running count stays below [hs] and returns the first
    key of the first leaf at which the running count reaches [hs]. *)
Lemma middle_loop_chain st hs :
  forall j ls cs o c fuel b k,
  leafChain st o ls ->
  Forall2 (hasCount st) ls cs ->
  (forall i, (i < j)%nat -> c + running cs (S i) < hs) ->
  hs <= c + running cs (S j) ->
  c < hs ->
  ls !! j = Some b ->
  hasFirstKey st b k ->
  (j < fuel)%nat ->
  BB.middle_loop fuel st hs c o = Ok (Some k).
Proof.
  induction j as [|j IH]; intros ls cs o c fuel b k Hch Hcs Hbelow Hreach Hc Hb Hk Hfuel.
  - destruct Hch as [|b0 n rest Hn Hrest]; [discriminate|].
    cbn in Hb. injection Hb as ->.
    inversion Hcs as [|? c0 ? cs' (n' & l & Hn' & Hl & Hcount) Hcs']; subst.
    rewrite Hn in Hn'. injection Hn' as <-.
    destruct Hk as (n2 & l2 & m & ln & cl & Hn2 & Hl2 & Hm & Hln & Hcl & Hkey).
    rewrite Hn in Hn2. injection Hn2 as <-.
    rewrite Hl in Hl2. injection Hl2 as <-.
    destruct fuel as [|fuel]; [lia|].
    cbn [BB.middle_loop]. destruct (Z.ltb_spec c hs); [|lia].
    unfold bnodeOf, deref. rewrite Hn. cbn [bind Monad_Res].
    unfold listOf, LL.header, deref. rewrite Hl. cbn [bind Monad_Res].
    rewrite running_cons in Hreach. change (running cs' 0) with 0 in Hreach.
    destruct (Z.ltb_spec (c + SortedLinkedList.count l) hs); [lia|].
    rewrite Hm. unfold lnodeOf, LL.node, deref. rewrite Hln. cbn [bind Monad_Res].
    unfold cellOf, deref. rewrite Hcl. cbn [bind Monad_Res]. rewrite Hkey. reflexivity.
  - destruct Hch as [|b0 n rest Hn Hrest]; [discriminate|].
    cbn in Hb.
    inversion Hcs as [|? c0 ? cs' (n' & l & Hn' & Hl & Hcount) Hcs']; subst.
    rewrite Hn in Hn'. injection Hn' as <-.
    destruct fuel as [|fuel]; [lia|].
    cbn [BB.middle_loop]. destruct (Z.ltb_spec c hs); [|lia].
    unfold bnodeOf, deref. rewrite Hn. cbn [bind Monad_Res].
    unfold listOf, LL.header, deref. rewrite Hl. cbn [bind Monad_Res].
    pose proof (Hbelow O ltac:(lia)) as H0.
    rewrite running_cons in H0. change (running cs' 0) with 0 in H0.
    destruct (Z.ltb_spec (c + SortedLinkedList.count l) hs); [|lia].
    eapply (IH rest cs'); eauto.
    + intros i Hi. pose proof (Hbelow (S i) ltac:(lia)) as Hs.
      rewrite running_cons in Hs. lia.
    + rewrite running_cons in Hreach. lia.
    + lia.
Qed.

Lemma getMiddleKey_empty fuel st :
  BPlusTree.size (Heap.tree st) = 0 -> BB.getMiddleKey fuel st = Ok None.
Proof.
  intros Hsize. unfold BB.getMiddleKey, BB.getSize. rewrite Hsize.
  destruct (BPlusTree.left_most_node (Heap.tree st)); [|reflexivity].
  destruct fuel; reflexivity.
Qed.

Lemma getMiddleKey_middle_leaf fuel st ls cs j b k :
  leafChain st (BPlusTree.left_most_node (Heap.tree st)) ls ->
  Forall2 (hasCount st) ls cs ->
  0 < BPlusTree.size (Heap.tree st) / 2 ->
  (forall i, (i < j)%nat -> running cs (S i) < BPlusTree.size (Heap.tree st) / 2) ->
  BPlusTree.size (Heap.tree st) / 2 <= running cs (S j) ->
  ls !! j = Some b ->
  hasFirstKey st b k ->
  (j < fuel)%nat ->
  BB.getMiddleKey fuel st = Ok (Some k).
Proof.
  intros Hch Hcs Hpos Hbelow Hreach Hb Hk Hfuel.
  unfold BB.getMiddleKey, BB.getSize.
  destruct (BPlusTree.left_most_node (Heap.tree st)) as [lm|] eqn:Hlm.
  - eapply middle_loop_chain; eauto.
  - inversion Hch; subst. discriminate.
Qed.
End MiddleKey.

Section RangeLoop.
Context {K V R : Type}.
Variable falsy : K -> bool.
Variable emit : BPlusCell.t K V -> R.

Lemma probeFor_returns (k : option K) (st : Heap.t K V) :
  exists p st', BB.probeFor falsy k st = Ok (p, st').
Proof. unfold BB.probeFor. destruct (BB.bound falsy k); cbn; eauto. Qed.

(** Once the walk along the leaf chain has run off its right end
    while the end leaf is some other leaf, no iteration changes
    [currentNode], and the loop goes on whatever fuel it is given. *)
Lemma range_loop_past_the_end fuel compare offset limit startKey endKey e skip count result0 st :
  BB.range_loop falsy emit fuel compare offset limit startKey endKey (Some e) None
    skip count result0 st = Fail OutOfFuel.
Proof.
  revert st. induction fuel as [|fuel IH]; intros st; [reflexivity|].
  cbn [BB.range_loop]. destruct (decide (None = Some e)) as [Heq|_]; [discriminate|].
  cbn [bind Monad_M].
  destruct (probeFor_returns startKey st) as (p & st' & ->).
  destruct (probeFor_returns endKey st') as (p' & st'' & ->).
  apply IH.
Qed.

(** One iteration of the loop on a leaf that is not the end leaf. *)
Lemma range_loop_step fuel compare offset limit startKey endKey e cn skip count result0 :
  BB.range_loop falsy emit (S fuel) compare offset limit startKey endKey e (Some cn)
    skip count result0 =
  if decide (Some cn = e) then ret (Some cn, skip, count, result0)
  else
    let* sk := BB.probeFor falsy startKey in
    let* ek := BB.probeFor falsy endKey in
    let* '(skip', count', result') :=
      BB.collectLeaf emit (S fuel) compare offset limit sk ek cn skip count result0 in
    let* n := getb cn in
    BB.range_loop falsy emit fuel compare offset limit startKey endKey e
      (BPlusNode.rightSibling n) skip' count' result'.
Proof. reflexivity. Qed.
End RangeLoop.

(** ** The scenarios *)

Module ScenarioFacts.
Import Scenario.

Lemma tree5_is_st5 : tree5 = Ok st5.
Proof. vm_compute. reflexivity. Qed.

Lemma intCompare_total : total intCompare.
Proof. intros a b. eexists. reflexivity. Qed.

(** The tree of scenario 1 is well formed: an interior root with one
    cell over two leaves. *)
Lemma st5_subtree : subtree st5 1 1 2.
Proof.
  eapply (subtree_interior st5 1 0 2 _ _ [5%nat] 0%nat).
  - reflexivity.
  - reflexivity.
  - reflexivity.
  - eapply chain_cons; [reflexivity|reflexivity|constructor].
  - cbn. lia.
  - reflexivity.
  - eapply subtree_leaf; reflexivity.
  - intros c Hc. apply list_elem_of_singleton in Hc as ->.
    do 3 eexists. repeat split; reflexivity.
  - intros c ln k r Hc Hln Hk Hr. apply list_elem_of_singleton in Hc as ->.
    cbn in Hln. injection Hln as <-. cbn in Hk. injection Hk as <-.
    cbn in Hr. injection Hr as <-. eapply subtree_leaf; reflexivity.
Qed.

Lemma st5_leafChain : leafChain st5 (BPlusTree.left_most_node (Heap.tree st5)) [0%nat; 1%nat].
Proof. repeat (eapply leafChain_cons; [reflexivity|]). constructor. Qed.

Lemma st5_counts : Forall2 (hasCount st5) [0%nat; 1%nat] [3; 2].
Proof. repeat constructor; do 2 eexists; repeat split; reflexivity. Qed.

Lemma st5_firstKey : hasFirstKey st5 0 10.
Proof. do 5 eexists. repeat split; reflexivity. Qed.
End ScenarioFacts.

(** Claim C1, as the code has it.  With [max_node_size = 4], inserting
    10, 20, 30, 40, 50 into an empty tree splits the root leaf after
    index [half_capacity = 2]: the root becomes an interior node with
    the one cell of key 30, its left-most child is the leaf 10, 20, 30,
    the right child of its cell is the leaf 40, 50, and the size is 5. *)
Theorem insert_10_to_50_shape (k : nat) :
  Scenario.scenario1 (10 + k) =
    Ok ((false, 1, [30]), (true, 3, [10; 20; 30]), (true, 2, [40; 50]), 5).
Proof. vm_compute. reflexivity. Qed.

(** Claim C1 as stated (separator 20 over the leaves 10, 20 and
    30, 40, 50) is not what the code builds. *)
Lemma insert_10_to_50_not_as_claimed :
  Scenario.scenario1 10 <>
    Ok ((false, 1, [20]), (true, 2, [10; 20]), (true, 3, [30; 40; 50]), 5).
Proof. vm_compute. discriminate. Qed.

(** Claim C4.  On the tree of scenario 1 (the state [st5]), a range
    whose start bound (40) resolves to the right leaf and whose end bound
    (10) resolves to the left leaf never returns: for every fuel the loop
    of the range operation, of keys as of key-value pairs, is still
    running.  After the right leaf, [currentNode] is undefined, which
    differs from the end leaf, and the guarded body changes nothing. *)
Theorem range_start_right_of_end_never_returns :
  Scenario.tree5 = Ok Scenario.st5 /\
  forall fuel : nat,
    result (BB.searchForRangeWithPagination Scenario.falsy fuel Scenario.intCompare
              0 (-1) (Some 40) (Some 10) Scenario.st5) = Fail OutOfFuel /\
    result (BB.searchForRangeWithPaginationKVP Scenario.falsy fuel Scenario.intCompare
              0 (-1) (Some 40) (Some 10) Scenario.st5) = Fail OutOfFuel.
Proof.
  split; [exact ScenarioFacts.tree5_is_st5|].
  intros fuel.
  destruct fuel as [|[|[|k]]]; [split; vm_compute; reflexivity ..|].
  unfold BB.searchForRangeWithPagination, BB.searchForRangeWithPaginationKVP, BB.rangeWith.
  split.
  - cbv -[BB.range_loop]. rewrite range_loop_step.
    cbv -[BB.range_loop]. rewrite range_loop_past_the_end. reflexivity.
  - cbv -[BB.range_loop]. rewrite range_loop_step.
    cbv -[BB.range_loop]. rewrite range_loop_past_the_end. reflexivity.
Qed.

(** Claim C6.  On the tree of scenario 1 the unbounded range returns
    10, 20, 30 only: the right leaf's list has the stale [max] that
    [splitAt] gave it (the node of key 30), so the collection in that
    leaf stops before its first cell. *)
Theorem range_unbounded_misses_keys (k : nat) :
  Scenario.rangeAll (10 + k) [10; 20; 30; 40; 50] = Ok [10; 20; 30].
Proof. vm_compute. reflexivity. Qed.

(** The same stale [max] breaks the leaves on deletion.  In scenario 4
    the delete of 5 takes a cell from the left sibling: the donated part
    is linked in through its stale [max], the node of key 2, so the left
    leaf becomes 1, 2, 6 and the leaf of 6 becomes 3.  The delete of 6
    then finds nothing, and [range(1, 8)] is neither ascending nor
    without 6. *)
Lemma scenario4_range_after_deletes (k : nat) :
  Scenario.scenario4 (10 + k) = Ok ([Some 4; Some 5; None], [1; 2; 6; 3; 7; 8]).
Proof. vm_compute. reflexivity. Qed.

(** A bound that is the key 0 counts as no bound ([!endKey]). *)
Lemma range_end_bound_zero_is_ignored (k : nat) :
  Scenario.rangeToZero (10 + k) = Ok [-10; 10].
Proof. vm_compute. reflexivity. Qed.

(** Scenario 5 does return 50, 60: with both bounds given, [max] is
    not read. *)
Lemma scenario5_returns_50_60 (k : nat) : Scenario.scenario5 (10 + k) = Ok [50; 60].
Proof. vm_compute. reflexivity. Qed.

(** Claim C7.  Through the facade, after three puts of key 5 with the
    values 1, 2, 3: [get(5)] returns 3, the latest value; [delete(5)]
    returns 3; but [size] is then 2, not 0, and [get(5)] returns nothing.
    The second put makes the leaf's list count 0, so the balancing drops
    the root; the third put starts a new root, and the delete removes
    that one cell and subtracts 1 from a size of 3. *)
Theorem three_puts_delete_leaves_size_two (k : nat) :
  Scenario.scenario3 (10 + k) = Ok (Some 3, Some 3, 2, None).
Proof. vm_compute. reflexivity. Qed.

(** Claim C8, as the code has it.  [getMiddleKey] returns nothing on a
    tree of size 0.  On a tree of size at least 2, with
    [hs = floor(size / 2)], it walks the leaf chain adding up the counts
    of the leaves' cell lists and returns the first key of the first leaf
    at which the running count reaches [hs].  After inserting 50, 30, 70,
    10, 40, 60, 90, 20, 80, 100 with [max_node_size = 4] it returns 50. *)
Theorem getMiddleKey_first_key_of_middle_leaf :
  (forall (K V : Type) (fuel : nat) (st : Heap.t K V),
     BPlusTree.size (Heap.tree st) = 0 ->
     BB.getMiddleKey fuel st = Ok None) /\
  (forall (K V : Type) (fuel : nat) (st : Heap.t K V) (ls : list nat) (cs : list Z)
          (j b : nat) (k : K),
     leafChain st (BPlusTree.left_most_node (Heap.tree st)) ls ->
     Forall2 (hasCount st) ls cs ->
     0 < BPlusTree.size (Heap.tree st) / 2 ->
     (forall i, (i < j)%nat -> running cs (S i) < BPlusTree.size (Heap.tree st) / 2) ->
     BPlusTree.size (Heap.tree st) / 2 <= running cs (S j) ->
     ls !! j = Some b ->
     hasFirstKey st b k ->
     (j < fuel)%nat ->
     BB.getMiddleKey fuel st = Ok (Some k)) /\
  (forall n : nat,
     Scenario.middleKeyAfter (10 + n) [50; 30; 70; 10; 40; 60; 90; 20; 80; 100]
       = Ok (Some 50)).
Proof.
  split; [|split].
  - intros K V fuel st. apply getMiddleKey_empty.
  - intros K V fuel st ls cs j b k. apply getMiddleKey_middle_leaf.
  - intros n. vm_compute. reflexivity.
Qed.

(** On the tree of scenario 1 (size 5, leaves of 3 and 2 cells) the
    first leaf reaches [floor(5 / 2) = 2], and its first key is 10. *)
Lemma getMiddleKey_first_key_of_middle_leaf_witness :
  BB.getMiddleKey 1 Scenario.st5 = Ok (Some 10).
Proof.
  apply (proj1 (proj2 getMiddleKey_first_key_of_middle_leaf) Z Z 1%nat Scenario.st5
           [0%nat; 1%nat] [3; 2] 0%nat 0%nat 10).
  - exact ScenarioFacts.st5_leafChain.
  - exact ScenarioFacts.st5_counts.
  - vm_compute. reflexivity.
  - intros i Hi. lia.
  - vm_compute. discriminate.
  - reflexivity.
  - exact ScenarioFacts.st5_firstKey.
  - lia.
Defined.

(** Claim C8 as stated fails on its own example: of the ten keys 10,
    20, ..., 100 the key at position [floor(10 / 2) = 5], counted from 0,
    is 60, and [getMiddleKey] returns 50, the first key of the second
    leaf. *)
Lemma getMiddleKey_not_the_key_at_half :
  Scenario.middleKeyAfter 10 [50; 30; 70; 10; 40; 60; 90; 20; 80; 100] <>
    Ok ([10; 20; 30; 40; 50; 60; 70; 80; 90; 100] !! Z.to_nat (10 / 2)).
Proof. vm_compute. discriminate. Qed.

(** Nor is it the key at that position on smaller trees: after
    inserting 10, 20, 30 it returns 10, not 20, and on a tree of one key
    it returns nothing. *)
Lemma getMiddleKey_small_trees (k : nat) :
  Scenario.middleKeyAfter (10 + k) [10; 20; 30] = Ok (Some 10) /\
  Scenario.middleKeyAfter (10 + k) [10] = Ok None.
Proof. split; vm_compute; reflexivity. Qed.

(** Claim C9, as the code has it.  For a [max_node_size] that is not
    negative, the constructor fails exactly when it is odd; for every even
    one, those below 4 included, it succeeds with
    [half_capacity = max_node_size / 2]. *)
Theorem BPlusTree_new_fails_iff_odd (m : Z) :
  0 <= m ->
  ((exists e, BPlusTree.new m = Fail e) <-> Z.odd m = true) /\
  (Z.even m = true ->
   BPlusTree.new m = Ok (BPlusTree.mk None None None 0 (m / 2) m)).
Proof.
  intros Hm. unfold BPlusTree.new.
  assert (Hrem : Z.rem m 2 = m mod 2) by (apply Z.rem_mod_nonneg; lia).
  rewrite Hrem. rewrite Zodd_mod, Zeven_mod.
  destruct (Z.eqb_spec (m mod 2) 1) as [E|E], (Z.eqb_spec (m mod 2) 0) as [E0|E0]; try lia.
  all: split; [split|]; try discriminate; eauto.
  - intros [e He]. discriminate.
  - pose proof (Z.mod_pos_bound m 2). lia.
Qed.

(** At [max_node_size = 6]. *)
Lemma BPlusTree_new_fails_iff_odd_witness :
  ((exists e, BPlusTree.new 6 = Fail e) <-> Z.odd 6 = true) /\
  (Z.even 6 = true ->
   BPlusTree.new 6 = Ok (BPlusTree.mk None None None 0 (6 / 2) 6)).
Proof. apply (BPlusTree_new_fails_iff_odd 6). lia. Defined.

(** Claim C9 as stated fails at [max_node_size = 2]: it is below 4 and
    the constructor accepts it. *)
Lemma BPlusTree_new_accepts_two :
  ~ ((exists e, BPlusTree.new 2 = Fail e) <-> (Z.odd 2 = true \/ 2 < 4)).
Proof.
  intros [_ H]. destruct H as [e He]; [right; lia|]. vm_compute in He. discriminate.
Qed.

(** The descent for key 25 on the tree of scenario 1. *)
Lemma searchForLeafNode_descends_as_specified_witness :
  let st1 := Heap.add_cell Scenario.st5 (BPlusCell.new 25 None None) in
  exists leaf n,
    BB.searchForLeafNode 2 Scenario.intCompare 25 None Scenario.st5 = Ok (Some leaf, st1) /\
    Heap.nodes st1 !! leaf = Some n /\
    BPlusNode.isLeaf n = true /\
    spec_descent st1 Scenario.intCompare (length (Heap.cells Scenario.st5)) 2 leaf.
Proof.
  apply (searchForLeafNode_descends_as_specified 2 Scenario.intCompare 25 Scenario.st5
           1 1 2).
  - reflexivity.
  - exact ScenarioFacts.st5_subtree.
  - exact ScenarioFacts.intCompare_total.
  - lia.
Defined.

(** Deleting the absent key 25 from the tree of scenario 1. *)
Lemma deleteKey_absent_key_changes_nothing_witness :
  let probe := BPlusCell.new 25 None None in
  let st2 := Heap.add_cell (Heap.add_cell Scenario.st5 probe) probe in
  BB.deleteKey 5 Scenario.intCompare 25 Scenario.st5 = Ok (None, st2) /\
  BB.deleteKeyReturnValue 5 Scenario.intCompare 25 Scenario.st5 = Ok (None, st2) /\
  Heap.tree st2 = Heap.tree Scenario.st5 /\
  Heap.nodes st2 = Heap.nodes Scenario.st5 /\
  Heap.lheap st2 = Heap.lheap Scenario.st5 /\
  (forall i c, Heap.cells Scenario.st5 !! i = Some c -> Heap.cells st2 !! i = Some c).
Proof.
  eapply (deleteKey_absent_key_changes_nothing 5 Scenario.intCompare 25 Scenario.st5
            2%nat 0%nat).
  - reflexivity.
  - vm_compute. reflexivity.
  - reflexivity.
  - vm_compute. reflexivity.
Defined.

(** * Further properties *)

Section MoreLists.
Context {K : Type}.
Implicit Types h : LHeap.t K.
Variable compare : K -> K -> Res Z.

Lemma lastOr_cons d c ns : lastOr d (c :: ns) = lastOr (Some c) ns.
Proof.
  unfold lastOr. destruct ns as [|x ns]; [reflexivity|].
  change (last (c :: x :: ns)) with (last (x :: ns)).
  destruct (last (x :: ns)) eqn:E; [reflexivity|].
  apply last_None in E. discriminate.
Qed.

(** The search loop walks over a prefix of nodes below the searched key. *)
Lemma search_loop_prefix h key ty rest :
  forall pre prev o fuel eq lte gte,
  chain h prev o (pre ++ rest) ->
  (forall c n, c ∈ pre -> LHeap.lnodes h !! c = Some n ->
               exists z, compare key (LinkedNode.key n) = Ok z /\ 0 < z) ->
  LL.search_loop compare (length pre + fuel) h key ty o eq lte gte =
  LL.search_loop compare fuel h key ty (head rest) eq (lastOr lte pre) gte.
Proof.
  induction pre as [|c pre IH]; intros prev o fuel eq lte gte Hc Hpre.
  - cbn. rewrite (chain_head _ _ _ _ Hc). reflexivity.
  - inversion Hc as [|? ? n ? Hn Hl Hrest]; subst.
    destruct (Hpre c n (list_elem_of_here _ _) Hn) as (z & Hz & Hpos).
    cbn [length Nat.add LL.search_loop]. unfold LL.node, deref. rewrite Hn.
    cbn [bind Monad_Res]. rewrite Hz.
    destruct (Z.eqb_spec z 0) as [E|_]; [lia|].
    destruct (Z.gtb_spec z 0) as [_|E]; [|lia].
    rewrite lastOr_cons.
    apply (IH (Some c)); [exact Hrest|].
    intros; eapply Hpre; eauto using list_elem_of_further.
Qed.

(** The search for a key that a node [f] holds, on a list sorted up to
    [f]: the modes EQ, LE and GE return [f]; LT returns the node before
    [f], or nothing when [f] is the first. *)
Theorem LL_search_present fuel h list l pre f fn post key ty :
  LHeap.llists h !! list = Some l ->
  chain h None (SortedLinkedList.min l) (pre ++ f :: post) ->
  LHeap.lnodes h !! f = Some fn ->
  (forall c n, c ∈ pre -> LHeap.lnodes h !! c = Some n ->
               exists z, compare key (LinkedNode.key n) = Ok z /\ 0 < z) ->
  compare key (LinkedNode.key fn) = Ok 0 ->
  ty <> GreaterThan ->
  (length pre < fuel)%nat ->
  LL.search compare fuel h list key ty =
    Ok (match ty with LesserThan => lastOr None pre | _ => Some f end).
Proof.
  intros Hl Hc Hf Hpre Hzero Hty Hfuel.
  unfold LL.search, LL.header, deref. rewrite Hl. cbn [bind Monad_Res].
  assert (Hmin : exists m, SortedLinkedList.min l = Some m).
  { rewrite (chain_head _ _ _ _ Hc). destruct pre; cbn; eauto. }
  destruct Hmin as [m Hmin]. rewrite Hmin. rewrite <- Hmin.
  replace fuel with (length pre + S (fuel - S (length pre)))%nat by lia.
  rewrite (search_loop_prefix h key ty (f :: post) pre None _ _ None None None Hc Hpre).
  cbn [head LL.search_loop]. unfold LL.node, deref. rewrite Hf. cbn [bind Monad_Res].
  rewrite Hzero. cbn [Z.eqb].
  destruct ty; try congruence; cbn [orElse]; reflexivity.
Qed.

(** The search for a key that no node holds, on a sorted list: [pre]
    are the nodes below the key and [post] the nodes from the first one
    above it.  EQ finds nothing; LE and LT return the last node below;
    GE and GT return the first node above. *)
Theorem LL_search_absent fuel h list l pre post key ty :
  LHeap.llists h !! list = Some l ->
  chain h None (SortedLinkedList.min l) (pre ++ post) ->
  (forall c n, c ∈ pre -> LHeap.lnodes h !! c = Some n ->
               exists z, compare key (LinkedNode.key n) = Ok z /\ 0 < z) ->
  (forall g n, head post = Some g -> LHeap.lnodes h !! g = Some n ->
               exists z, compare key (LinkedNode.key n) = Ok z /\ z < 0) ->
  (length pre < fuel)%nat ->
  LL.search compare fuel h list key ty =
    Ok (match ty with
        | EqualsTo => None
        | LesserThanOrEqualsTo | LesserThan => lastOr None pre
        | GreaterThanOrEqualsTo | GreaterThan => head post
        end).
Proof.
  intros Hl Hc Hpre Hpost Hfuel.
  unfold LL.search, LL.header, deref. rewrite Hl. cbn [bind Monad_Res].
  destruct (SortedLinkedList.min l) as [m|] eqn:Hmin.
  - replace fuel with (length pre + S (fuel - S (length pre)))%nat by lia.
    rewrite (search_loop_prefix h key ty post pre None _ _ None None None Hc Hpre).
    destruct post as [|g post].
    + cbn [head LL.search_loop]. destruct ty; reflexivity.
    + assert (Hg : exists n, LHeap.lnodes h !! g = Some n).
      { destruct (chain_lookup h None _ _ (length pre) g Hc) as (n & Hn & _);
          [apply list_lookup_middle; reflexivity|eauto]. }
      destruct Hg as [n Hn].
      destruct (Hpost g n eq_refl Hn) as (z & Hz & Hneg).
      cbn [head LL.search_loop]. unfold LL.node, deref. rewrite Hn. cbn [bind Monad_Res].
      rewrite Hz.
      destruct (Z.eqb_spec z 0) as [E|_]; [lia|].
      destruct (Z.gtb_spec z 0) as [E|_]; [lia|].
      destruct ty; reflexivity.
  - pose proof (chain_head _ _ _ _ Hc) as Hh.
    destruct pre; [|discriminate]. destruct post; [|discriminate].
    destruct ty; reflexivity.
Qed.

(** Deleting a key that no node of the list compares equal to returns
    nothing and leaves every list and node as it was. *)
Theorem LL_deleteNode_missing fuel h list l ns key :
  LHeap.llists h !! list = Some l ->
  chain h None (SortedLinkedList.min l) ns ->
  (forall c n, c ∈ ns -> LHeap.lnodes h !! c = Some n ->
               exists z, compare key (LinkedNode.key n) = Ok z /\ z <> 0) ->
  (length ns <= fuel)%nat ->
  LL.deleteNode compare fuel list key h = Ok (None, h).
Proof.
  intros Hl Hc Hcmp Hfuel.
  assert (Hsearch : LL.search compare fuel h list key EqualsTo = Ok None).
  { unfold LL.search, LL.header, deref. rewrite Hl. cbn [bind Monad_Res].
    destruct (SortedLinkedList.min l) as [m|] eqn:Hmin; [|reflexivity].
    destruct (search_loop_chain compare h key EqualsTo ns None (Some m) fuel None None None)
      as (e & lt & g & Hloop & He & _); auto.
    { intros c n Hin Hn. destruct (Hcmp c n Hin Hn) as (z & Hz & _). eauto. }
    rewrite Hloop. destruct He as [->|(x & -> & Hx & n & z & Hn & Hz & Hs)]; [reflexivity|].
    destruct (Hcmp x n Hx Hn) as (z' & Hz' & Hne). congruence. }
  unfold LL.deleteNode. cbn [bind Monad_M]. unfold read. rewrite Hsearch. reflexivity.
Qed.
End MoreLists.

Section Collect.
Context {K : Type}.
Implicit Types h : LHeap.t K.

Lemma find_loop_chain (queryCompare : K -> K -> Res Z) h :
  forall ns nds prev o fuel result,
  chain h prev o ns ->
  stored h ns nds ->
  (forall n, n ∈ nds -> exists z, queryCompare (LinkedNode.key n) (LinkedNode.key n) = Ok z) ->
  (length ns <= fuel)%nat ->
  LL.find_loop queryCompare fuel h o result =
    Ok (result ++ List.filter (matchesQuery queryCompare) (map LinkedNode.key nds)).
Proof.
  induction ns as [|c ns IH]; intros nds prev o fuel result Hc Hst Hq Hfuel.
  - inversion Hc; subst. inversion Hst; subst. cbn. rewrite app_nil_r.
    destruct fuel; reflexivity.
  - inversion Hc as [|? ? n ? Hn Hl Hrest]; subst.
    inversion Hst as [|? n' ? nds' Hn' Hst']; subst.
    rewrite Hn in Hn'. injection Hn' as <-.
    destruct fuel as [|fuel]; [cbn in Hfuel; lia|].
    destruct (Hq n (list_elem_of_here _ _)) as [z Hz].
    cbn [LL.find_loop]. unfold LL.node, deref. rewrite Hn. cbn [bind Monad_Res]. rewrite Hz.
    rewrite (IH nds' (Some c) _ fuel _ Hrest Hst');
      [|intros; apply Hq; eauto using list_elem_of_further|cbn in Hfuel; lia].
    cbn [map List.filter]. unfold matchesQuery at 2. rewrite Hz.
    destruct (z =? 0); [rewrite <- app_assoc|]; reflexivity.
Qed.

(** [find] returns the keys of the list for which the query comparator
    returns zero, in list order, each once. *)
Theorem LL_find_is_filter (queryCompare : K -> K -> Res Z) fuel h list l ns nds individually :
  LHeap.llists h !! list = Some l ->
  chain h None (SortedLinkedList.min l) ns ->
  stored h ns nds ->
  (forall n, n ∈ nds -> exists z, queryCompare (LinkedNode.key n) (LinkedNode.key n) = Ok z) ->
  (length ns <= fuel)%nat ->
  LL.find fuel h list queryCompare individually =
    Ok (List.filter (matchesQuery queryCompare) (map LinkedNode.key nds)).
Proof.
  intros Hl Hc Hst Hq Hfuel. unfold LL.find, LL.header, deref. rewrite Hl.
  cbn [bind Monad_Res]. apply (find_loop_chain _ _ _ _ _ _ _ [] Hc Hst Hq Hfuel).
Qed.

Variable compare : K -> K -> Res Z.
Variable falsy : K -> bool.

Lemma searchTillStream_loop_chain h (en : LinkedNode.t K) individually :
  forall ns nds prev o fuel result,
  chain h prev o ns ->
  stored h ns nds ->
  (forall n, n ∈ nds ->
     exists z, compare (LinkedNode.key en) (LinkedNode.key n) = Ok z /\ 0 <= z) ->
  (length ns <= fuel)%nat ->
  LL.searchTillStream_loop compare fuel h en individually o result =
    Ok (result ++ flat_map (expand individually) nds).
Proof.
  induction ns as [|c ns IH]; intros nds prev o fuel result Hc Hst Hq Hfuel.
  - inversion Hc; subst. inversion Hst; subst. cbn. rewrite app_nil_r.
    destruct fuel; reflexivity.
  - inversion Hc as [|? ? n ? Hn Hl Hrest]; subst.
    inversion Hst as [|? n' ? nds' Hn' Hst']; subst.
    rewrite Hn in Hn'. injection Hn' as <-.
    destruct fuel as [|fuel]; [cbn in Hfuel; lia|].
    destruct (Hq n (list_elem_of_here _ _)) as (z & Hz & Hpos).
    cbn [LL.searchTillStream_loop]. unfold LL.node, deref. rewrite Hn. cbn [bind Monad_Res].
    rewrite Hz. destruct (Z.geb_spec z 0) as [_|E]; [|lia].
    rewrite (IH nds' (Some c) _ fuel _ Hrest Hst');
      [|intros; apply Hq; eauto using list_elem_of_further|cbn in Hfuel; lia].
    cbn [flat_map]. rewrite <- app_assoc. reflexivity.
Qed.

(** With no bounds, on a list whose [max] holds a key that is not below
    any key of the list, [searchTillStream] returns every key in list
    order: once, or once per insert when duplicates are expanded. *)
Theorem LL_searchTillStream_unbounded fuel h list l ns nds m mn individually :
  LHeap.llists h !! list = Some l ->
  chain h None (SortedLinkedList.min l) ns ->
  stored h ns nds ->
  SortedLinkedList.max l = Some m ->
  LHeap.lnodes h !! m = Some mn ->
  (forall n, n ∈ nds ->
     exists z, compare (LinkedNode.key mn) (LinkedNode.key n) = Ok z /\ 0 <= z) ->
  (length ns <= fuel)%nat ->
  LL.searchTillStream compare falsy fuel h list None None individually =
    Ok (flat_map (expand individually) nds).
Proof.
  intros Hl Hc Hst Hmax Hm Hq Hfuel.
  unfold LL.searchTillStream, LL.header, deref. rewrite Hl. cbn [bind Monad_Res].
  rewrite Hmax. unfold LL.node, deref. rewrite Hm. cbn [bind Monad_Res].
  apply (searchTillStream_loop_chain _ _ _ _ _ _ _ _ [] Hc Hst Hq Hfuel).
Qed.
End Collect.

Section ChainMore.
Context {K : Type}.
Implicit Types h : LHeap.t K.

Lemma chain_ext h h' prev o ns :
  (forall c, c ∈ ns -> LHeap.lnodes h' !! c = LHeap.lnodes h !! c) ->
  chain h prev o ns -> chain h' prev o ns.
Proof.
  intros Hsame Hc. induction Hc as [|prev c n rest Hn Hl Hc IH]; [constructor|].
  econstructor; eauto.
  - rewrite Hsame; [exact Hn|apply list_elem_of_here].
  - apply IH. intros; apply Hsame; eauto using list_elem_of_further.
Qed.

Lemma chain_suffix h a : forall prev o b,
  chain h prev o (a ++ b) -> exists prev', chain h prev' (head b) b.
Proof.
  induction a as [|c a IH]; intros prev o b Hc.
  - cbn in Hc. exists prev. rewrite <- (chain_head _ _ _ _ Hc). exact Hc.
  - inversion Hc; subst. eauto.
Qed.

Lemma chain_det h : forall ns1 ns2 p1 p2 o,
  chain h p1 o ns1 -> chain h p2 o ns2 -> ns1 = ns2.
Proof.
  induction ns1 as [|c ns1 IH]; intros ns2 p1 p2 o H1 H2.
  - inversion H1; subst. inversion H2; subst. reflexivity.
  - inversion H1 as [|? ? n ? Hn Hl Hrest]; subst.
    inversion H2 as [|? ? n' ? Hn' Hl' Hrest']; subst.
    rewrite Hn in Hn'. injection Hn' as <-.
    f_equal. eapply IH; eauto.
Qed.

(** A chain ends, so no node occurs twice in it. *)
Lemma chain_NoDup h prev o ns : chain h prev o ns -> NoDup ns.
Proof.
  intros Hc. induction Hc as [|prev c n rest Hn Hl Hc IH]; constructor; [|exact IH].
  intros Hin. apply list_elem_of_split in Hin as (r1 & r2 & ->).
  destruct (chain_suffix _ _ _ _ _ Hc) as [p' Hsuf]. cbn in Hsuf.
  assert (Hfull : chain h prev (Some c) (c :: r1 ++ c :: r2)) by (econstructor; eauto).
  pose proof (chain_det _ _ _ _ _ _ Hfull Hsuf) as Heq.
  apply (f_equal length) in Heq. cbn in Heq. rewrite length_app in Heq. cbn in Heq. lia.
Qed.

(** The [rightSibling] of a node of a chain is its successor. *)
Lemma chain_next h prev o ns i a an :
  chain h prev o ns -> ns !! i = Some a -> LHeap.lnodes h !! a = Some an ->
  LinkedNode.rightSibling an = ns !! S i.
Proof.
  intros Hc. revert i. induction Hc as [|prev c n rest Hn Hl Hc IH]; intros i Hi Ha.
  - discriminate.
  - destruct i as [|i]; cbn in Hi.
    + injection Hi as <-. rewrite Hn in Ha. injection Ha as <-.
      cbn. rewrite (chain_head _ _ _ _ Hc). destruct rest; reflexivity.
    + cbn. eapply IH; eauto.
Qed.

(** What [splitAt] does to the list nodes: the link between the node
    at index [i] and the next one is cut in both directions; nothing
    else changes in the nodes, and no other list header changes. *)
Lemma LL_splitAt_effect h list l ns i a b an bn :
  LHeap.llists h !! list = Some l ->
  chain h None (SortedLinkedList.min l) ns ->
  0 <= i < SortedLinkedList.count l - 1 ->
  ns !! Z.to_nat i = Some a ->
  ns !! S (Z.to_nat i) = Some b ->
  LHeap.lnodes h !! a = Some an ->
  LHeap.lnodes h !! b = Some bn ->
  exists h',
    LL.splitAt list i h = Ok ((list, length (LHeap.llists h)), h') /\
    LHeap.lnodes h' =
      <[b := LinkedNode.set_leftSibling None bn]>
        (<[a := LinkedNode.set_rightSibling None an]> (LHeap.lnodes h)) /\
    LHeap.llists h' !! list =
      Some (SortedLinkedList.mk (SortedLinkedList.min l) (Some a) (i + 1)) /\
    LHeap.llists h' !! length (LHeap.llists h) =
      Some (SortedLinkedList.mk (Some b) (Some a) (SortedLinkedList.count l - i - 1)) /\
    length (LHeap.llists h') = S (length (LHeap.llists h)).
Proof.
  intros Hl Hc Hi Ha Hb Han Hbn.
  destruct (chain_lookup _ _ _ _ _ _ Hc Hb) as (bn0 & Hbn0 & Hbl). rewrite Ha in Hbl.
  rewrite Hbn in Hbn0. injection Hbn0 as <-.
  assert (Hab : a <> b).
  { intros ->. pose proof (chain_NoDup _ _ _ _ Hc) as Hnd.
    pose proof (NoDup_lookup _ _ _ _ Hnd Ha Hb). lia. }
  assert (Hlist : (list < length (LHeap.llists h))%nat) by (eapply lookup_lt_Some; eauto).
  eexists. split; [|split; [|split; [|split]]].
  - unfold LL.splitAt. cbn [bind Monad_M].
    unfold LL.getl at 1, read, LL.header, deref. rewrite Hl.
    destruct (Z.ltb_spec (SortedLinkedList.count l) 2); [lia|].
    destruct (Z.ltb_spec i (SortedLinkedList.count l - 1)); [|lia]. cbn [negb].
    replace (Z.to_nat (i + 1)) with (S (Z.to_nat i)) by lia.
    rewrite (advance_chain _ _ _ _ _ _ Hc Hb).
    unfold LL.getn at 1, read, LL.node, deref. rewrite Hbn. cbn [ret Monad_M]. rewrite Hbl.
    cbn [LL.modify_node_if]. unfold LL.modify_node at 1. rewrite Han.
    unfold LL.modify_node at 1. cbn [LHeap.lnodes].
    rewrite list_lookup_insert_ne by exact Hab. rewrite Hbn.
    unfold LL.modify_list at 1. cbn [LHeap.llists]. rewrite Hl.
    unfold LL.modify_list at 1. cbn [LHeap.llists].
    rewrite list_lookup_insert_eq by exact Hlist.
    cbn [LL.alloc_list LHeap.llists LHeap.lnodes].
    unfold LL.modify_list at 1. cbn [LHeap.llists].
    rewrite list_lookup_middle by len.
    unfold LL.getl at 1, read, LL.header, deref. cbn [LHeap.llists].
    rewrite list_lookup_insert_ne by len.
    rewrite lookup_app_l by len.
    rewrite list_lookup_insert_eq by len.
    unfold LL.modify_list at 1. cbn [LHeap.llists].
    rewrite list_lookup_insert_eq by len.
    unfold LL.modify_list at 1. cbn [LHeap.llists].
    rewrite list_lookup_insert_eq by len.
    repeat rewrite length_insert. reflexivity.
  - reflexivity.
  - cbn [LHeap.llists].
    rewrite !list_lookup_insert_ne by len.
    rewrite lookup_app_l by len.
    rewrite list_lookup_insert_eq by len.
    reflexivity.
  - cbn [LHeap.llists].
    rewrite list_lookup_insert_eq by len.
    reflexivity.
  - cbn [LHeap.llists]. len.
Qed.

(** Splitting a list after index [i] and merging the right half back
    into the left restores every list node and the count; the [max] of
    the list is then the node at index [i]. *)
Theorem LL_split_merge_round_trip h list l ns i a b :
  LHeap.llists h !! list = Some l ->
  chain h None (SortedLinkedList.min l) ns ->
  0 <= i < SortedLinkedList.count l - 1 ->
  ns !! Z.to_nat i = Some a ->
  ns !! S (Z.to_nat i) = Some b ->
  exists h',
    (let* '(leftPart, rightPart) := LL.splitAt list i in
     LL.mergeSplittedRightIntoLeft leftPart rightPart) h = Ok (list, h') /\
    LHeap.lnodes h' = LHeap.lnodes h /\
    LHeap.llists h' !! list =
      Some (SortedLinkedList.mk (SortedLinkedList.min l) (Some a) (SortedLinkedList.count l)).
Proof.
  intros Hl Hc Hi Ha Hb.
  destruct (chain_lookup _ _ _ _ _ _ Hc Hb) as (bn & Hbn & Hbl). rewrite Ha in Hbl.
  destruct (chain_lookup _ _ _ _ _ _ Hc Ha) as (an & Han & _).
  pose proof (chain_next _ _ _ _ _ _ _ Hc Ha Han) as Har. rewrite Hb in Har.
  assert (Hab : a <> b).
  { intros ->. pose proof (chain_NoDup _ _ _ _ Hc) as Hnd.
    pose proof (NoDup_lookup _ _ _ _ Hnd Ha Hb). lia. }
  assert (Halt : (a < length (LHeap.lnodes h))%nat) by (eapply lookup_lt_Some; eauto).
  assert (Hblt : (b < length (LHeap.lnodes h))%nat) by (eapply lookup_lt_Some; eauto).
  assert (Hlist : (list < length (LHeap.llists h))%nat) by (eapply lookup_lt_Some; eauto).
  destruct (LL_splitAt_effect h list l ns i a b an bn Hl Hc Hi Ha Hb Han Hbn)
    as (h1 & Hsplit & Hnodes & Hleft & Hright & Hlen).
  eexists. split; [|split].
  - cbn [bind Monad_M]. rewrite Hsplit.
    unfold LL.mergeSplittedRightIntoLeft. cbn [bind Monad_M].
    unfold LL.getl at 1, read, LL.header, deref. rewrite Hright. cbn [SortedLinkedList.count].
    destruct (Z.eqb_spec (SortedLinkedList.count l - i - 1) 0); [lia|].
    unfold LL.getl at 1, read, LL.header, deref. rewrite Hleft.
    cbn [SortedLinkedList.max SortedLinkedList.min LL.modify_node_if].
    unfold LL.modify_node at 1. rewrite Hnodes.
    rewrite list_lookup_insert_ne by lia.
    rewrite list_lookup_insert_eq by exact Halt.
    unfold LL.modify_node at 1. cbn [LHeap.lnodes].
    rewrite list_lookup_insert_ne by exact Hab.
    rewrite list_lookup_insert_eq by len.
    unfold LL.modify_list at 1. cbn [LHeap.llists]. rewrite Hleft.
    unfold LL.getl at 1, read, LL.header, deref. cbn [LHeap.llists].
    rewrite list_lookup_insert_ne by lia. rewrite Hright.
    unfold LL.modify_list at 1. cbn [LHeap.llists].
    rewrite list_lookup_insert_eq by (rewrite Hlen; lia).
    cbn [ret Monad_M]. reflexivity.
  - cbn [LHeap.lnodes].
    replace (LinkedNode.set_rightSibling (Some b) (LinkedNode.set_rightSibling None an)) with an
      by (destruct an; cbn in *; subst; reflexivity).
    replace (LinkedNode.set_leftSibling (Some a) (LinkedNode.set_leftSibling None bn)) with bn
      by (destruct bn; cbn in *; subst; reflexivity).
    apply list_eq. intros j.
    destruct (decide (j = b)) as [->|Hjb].
    + rewrite list_lookup_insert_eq by len. symmetry. exact Hbn.
    + rewrite list_lookup_insert_ne by lia.
      destruct (decide (j = a)) as [->|Hja].
      * rewrite list_lookup_insert_eq by len. symmetry. exact Han.
      * rewrite !list_lookup_insert_ne by lia.
        reflexivity.
  - cbn [LHeap.llists]. rewrite list_lookup_insert_eq by (rewrite length_insert, Hlen; lia).
    unfold SortedLinkedList.set_count, SortedLinkedList.set_max.
    cbn [SortedLinkedList.min SortedLinkedList.max SortedLinkedList.count].
    f_equal. f_equal. lia.
Qed.
End ChainMore.

Section InsertNew.
Context {K : Type}.
Implicit Types h : LHeap.t K.
Variable compare : K -> K -> Res Z.

Lemma lastOr_app d a b : lastOr d (a ++ b) = lastOr (lastOr d a) b.
Proof.
  revert d. induction a as [|c a IH]; intros d; [reflexivity|].
  change ((c :: a) ++ b) with (c :: (a ++ b)). rewrite !lastOr_cons. apply IH.
Qed.

Lemma lastOr_in d ns p : lastOr d ns = Some p -> d = Some p \/ p ∈ ns.
Proof.
  revert d. induction ns as [|c ns IH]; intros d H.
  - left. exact H.
  - rewrite lastOr_cons in H. destruct (IH _ H) as [E|E].
    + injection E as ->. right. apply list_elem_of_here.
    + right. apply list_elem_of_further. exact E.
Qed.

(** A chain through [pre'] and then [p] stays a chain when the nodes of
    [pre'] are kept and [p] keeps its [leftSibling]. *)
Lemma chain_insert_after h h' p pn tail' : forall pre' prev o post,
  chain h prev o (pre' ++ p :: post) ->
  (forall c, c ∈ pre' -> LHeap.lnodes h' !! c = LHeap.lnodes h !! c) ->
  LHeap.lnodes h !! p = Some pn ->
  (exists pn', LHeap.lnodes h' !! p = Some pn' /\
               LinkedNode.leftSibling pn' = LinkedNode.leftSibling pn /\
               chain h' (Some p) (LinkedNode.rightSibling pn') tail') ->
  chain h' prev o (pre' ++ p :: tail').
Proof.
  induction pre' as [|c pre' IH]; intros prev o post Hc Hsame Hp (pn' & Hp' & Hleft & Htail).
  - inversion Hc as [|? ? n ? Hn Hl Hrest]; subst.
    rewrite Hp in Hn. injection Hn as <-.
    cbn. econstructor; eauto.
  - inversion Hc as [|? ? n ? Hn Hl Hrest]; subst.
    cbn. econstructor.
    + rewrite Hsame; [exact Hn|apply list_elem_of_here].
    + reflexivity.
    + eapply IH; eauto.
      intros; apply Hsame; eauto using list_elem_of_further.
Qed.

(** A new node linked in front of a chain. *)
Lemma chain_link_front h h' new nn prev prev0 post :
  chain h prev0 (head post) post ->
  new ∉ post ->
  LHeap.lnodes h' !! new = Some nn ->
  LinkedNode.leftSibling nn = prev ->
  LinkedNode.rightSibling nn = head post ->
  (forall g gn, head post = Some g -> LHeap.lnodes h !! g = Some gn ->
     LHeap.lnodes h' !! g = Some (LinkedNode.set_leftSibling (Some new) gn)) ->
  (forall c, c ∈ tail post -> LHeap.lnodes h' !! c = LHeap.lnodes h !! c) ->
  chain h' prev (Some new) (new :: post).
Proof.
  intros Hc Hnew Hnn Hl Hr Hg Hrest.
  econstructor; [exact Hnn|exact Hl|]. rewrite Hr.
  destruct post as [|g post']; [constructor|].
  inversion Hc as [|? ? gn ? Hgn Hgl Hpost']; subst.
  cbn [head]. econstructor.
  - apply Hg; [reflexivity|exact Hgn].
  - reflexivity.
  - cbn. eapply chain_ext; [|exact Hpost']. intros c Hin. apply Hrest. exact Hin.
Qed.

Lemma chain_bound h prev o ns c :
  chain h prev o ns -> c ∈ ns -> (c < length (LHeap.lnodes h))%nat.
Proof.
  intros Hc Hin. apply list_elem_of_lookup_1 in Hin as [i Hi].
  destruct (chain_lookup _ _ _ _ _ _ Hc Hi) as (n & Hn & _).
  eapply lookup_lt_Some; eauto.
Qed.

(** [if (o) o.field = v]: the referenced node, if any, is updated and
    no other node is. *)
Lemma modify_node_if_spec (o : option nat) (f : LinkedNode.t K -> LinkedNode.t K) h :
  (forall g, o = Some g -> is_Some (LHeap.lnodes h !! g)) ->
  exists L',
    LL.modify_node_if o f h = Ok (tt, LHeap.mk L' (LHeap.llists h)) /\
    length L' = length (LHeap.lnodes h) /\
    (forall g, o = Some g -> L' !! g = f <$> (LHeap.lnodes h !! g)) /\
    (forall c, o <> Some c -> L' !! c = LHeap.lnodes h !! c).
Proof.
  intros Hsome. destruct o as [g|].
  - destruct (Hsome g eq_refl) as [gn Hgn].
    exists (<[g := f gn]> (LHeap.lnodes h)). split; [|split; [|split]].
    + cbn [LL.modify_node_if]. unfold LL.modify_node. rewrite Hgn. reflexivity.
    + apply length_insert.
    + intros g' E. injection E as <-. rewrite Hgn. cbn.
      apply list_lookup_insert_eq. eapply lookup_lt_Some; eauto.
    + intros c Hne. apply list_lookup_insert_ne. congruence.
  - exists (LHeap.lnodes h). split; [|split; [|split]].
    + destruct h; reflexivity.
    + reflexivity.
    + discriminate.
    + reflexivity.
Qed.

(** The LE-search that [insert] runs for a key that no node holds
    returns the last node below the key. *)
Lemma search_LE_absent fuel h list l pre post key :
  LHeap.llists h !! list = Some l ->
  chain h None (SortedLinkedList.min l) (pre ++ post) ->
  (forall c n, c ∈ pre -> LHeap.lnodes h !! c = Some n ->
               exists z, compare key (LinkedNode.key n) = Ok z /\ 0 < z) ->
  (forall g n, head post = Some g -> LHeap.lnodes h !! g = Some n ->
               exists z, compare key (LinkedNode.key n) = Ok z /\ z < 0) ->
  (length pre < fuel)%nat ->
  LL.search compare fuel h list key LesserThanOrEqualsTo = Ok (lastOr None pre).
Proof.
  intros Hl Hc Hpre Hpost Hfuel.
  unfold LL.search, LL.header, deref. rewrite Hl. cbn [bind Monad_Res].
  destruct (SortedLinkedList.min l) as [m|] eqn:Hmin.
  - replace fuel with (length pre + S (fuel - S (length pre)))%nat by lia.
    rewrite (search_loop_prefix compare h key LesserThanOrEqualsTo post pre None _ _
               None None None Hc Hpre).
    destruct post as [|g post]; [reflexivity|].
    assert (Hg : exists n, LHeap.lnodes h !! g = Some n).
    { destruct (chain_lookup h None _ _ (length pre) g Hc) as (n & Hn & _);
        [apply list_lookup_middle; reflexivity|eauto]. }
    destruct Hg as [n Hn].
    destruct (Hpost g n eq_refl Hn) as (z & Hz & Hneg).
    cbn [head LL.search_loop]. unfold LL.node, deref. rewrite Hn. cbn [bind Monad_Res].
    rewrite Hz.
    destruct (Z.eqb_spec z 0) as [E|_]; [lia|].
    destruct (Z.gtb_spec z 0) as [E|_]; [lia|].
    reflexivity.
  - pose proof (chain_head _ _ _ _ Hc) as Hh.
    destruct pre; [|discriminate]. reflexivity.
Qed.

(** Inserting a key that no node of a sorted, well-linked list compares
    equal to ([pre] are the nodes below the key, [post] the nodes from
    the first one above it): the new node is linked between [pre] and
    [post], the count grows by one, a [max] that was the last node is
    the last node again, and every older node keeps its key and its
    duplicate count. *)
Theorem LL_insert_new_key fuel h list l pre post key :
  LHeap.llists h !! list = Some l ->
  chain h None (SortedLinkedList.min l) (pre ++ post) ->
  (forall c n, c ∈ pre -> LHeap.lnodes h !! c = Some n ->
               exists z, compare key (LinkedNode.key n) = Ok z /\ 0 < z) ->
  (forall g n, head post = Some g -> LHeap.lnodes h !! g = Some n ->
               exists z, compare key (LinkedNode.key n) = Ok z /\ z < 0) ->
  (length pre < fuel)%nat ->
  exists h' l',
    LL.insert compare fuel list key h = Ok (length (LHeap.lnodes h), h') /\
    LHeap.llists h' !! list = Some l' /\
    chain h' None (SortedLinkedList.min l') (pre ++ length (LHeap.lnodes h) :: post) /\
    SortedLinkedList.count l' = SortedLinkedList.count l + 1 /\
    (SortedLinkedList.max l = lastOr None (pre ++ post) ->
     SortedLinkedList.max l' = lastOr None (pre ++ length (LHeap.lnodes h) :: post)) /\
    (exists nn, LHeap.lnodes h' !! length (LHeap.lnodes h) = Some nn /\
                LinkedNode.key nn = key /\ LinkedNode.duplicate_count nn = 0) /\
    (forall c n, LHeap.lnodes h !! c = Some n ->
       exists n', LHeap.lnodes h' !! c = Some n' /\
                  LinkedNode.key n' = LinkedNode.key n /\
                  LinkedNode.duplicate_count n' = LinkedNode.duplicate_count n).
Proof.
  intros Hl Hc Hpre Hpost Hfuel.
  set (new := length (LHeap.lnodes h)).
  set (h1 := LHeap.mk (LHeap.lnodes h ++ [LinkedNode.new key]) (LHeap.llists h)).
  assert (Hl1 : LHeap.llists h1 !! list = Some l) by exact Hl.
  assert (Hllt : (list < length (LHeap.llists h))%nat) by (eapply lookup_lt_Some; eauto).
  assert (Hc1 : chain h1 None (SortedLinkedList.min l) (pre ++ post))
    by (apply chain_alloc; exact Hc).
  assert (Hnd : NoDup (pre ++ post)) by (eapply chain_NoDup; eauto).
  assert (Hbound : forall c, c ∈ pre ++ post -> (c < new)%nat)
    by (intros; eapply chain_bound; eauto).
  assert (Hold : forall c n, LHeap.lnodes h !! c = Some n -> (c < new)%nat)
    by (intros c n Hn; eapply lookup_lt_Some; eauto).
  assert (Hlen1 : length (LHeap.lnodes h1) = S new) by (cbn; rewrite length_app; cbn; lia).
  assert (Hnew1 : LHeap.lnodes h1 !! new = Some (LinkedNode.new key))
    by (cbn; apply list_lookup_middle; reflexivity).
  assert (Hpre1 : forall c n, c ∈ pre -> LHeap.lnodes h1 !! c = Some n ->
               exists z, compare key (LinkedNode.key n) = Ok z /\ 0 < z).
  { intros c n Hin Hn. eapply Hpre; eauto.
    assert (Hlt : (c < new)%nat) by (apply Hbound, elem_of_app; left; exact Hin).
    cbn in Hn. rewrite lookup_app_l in Hn by exact Hlt. exact Hn. }
  assert (Hpost1 : forall g n, head post = Some g -> LHeap.lnodes h1 !! g = Some n ->
               exists z, compare key (LinkedNode.key n) = Ok z /\ z < 0).
  { intros g n Hg Hn. eapply Hpost; eauto.
    assert (Hlt : (g < new)%nat).
    { apply Hbound, elem_of_app; right. destruct post; [discriminate|].
      injection Hg as ->. apply list_elem_of_here. }
    cbn in Hn. rewrite lookup_app_l in Hn by exact Hlt. exact Hn. }
  pose proof (search_LE_absent fuel h1 list l pre post key Hl1 Hc1 Hpre1 Hpost1 Hfuel)
    as Hsearch.
  destruct (SortedLinkedList.min l) as [m|] eqn:Hmin.
  2:{ (* the list is empty *)
    pose proof (chain_head _ _ _ _ Hc) as Hh.
    destruct pre; [|discriminate]. destruct post; [|discriminate].
    eexists _, _. split; [|split; [|split; [|split; [|split; [|split]]]]].
    - unfold LL.insert. cbn [bind Monad_M LL.alloc_node]. fold h1.
      unfold read at 1, LL.header, deref. rewrite Hl1, Hmin.
      unfold LL.modify_list at 1. rewrite Hl1.
      unfold LL.modify_list at 1. cbn [LHeap.llists].
      rewrite list_lookup_insert_eq by exact Hllt.
      unfold LL.modify_list at 1. cbn [LHeap.llists].
      rewrite list_lookup_insert_eq by (rewrite length_insert; exact Hllt).
      cbn [ret Monad_M]. reflexivity.
    - cbn [LHeap.llists]. rewrite list_lookup_insert_eq by (rewrite !length_insert; exact Hllt).
      reflexivity.
    - cbn. econstructor; [exact Hnew1|reflexivity|constructor].
    - reflexivity.
    - intros _. reflexivity.
    - exists (LinkedNode.new key). split; [exact Hnew1|split; reflexivity].
    - intros c n Hn. exists n. split; [|split; reflexivity].
      cbn. apply lookup_app_l_Some. exact Hn. }
  destruct (lastOr None pre) as [p|] eqn:Hlast.
  2:{ (* the key is below every key of the list *)
    assert (pre = []) as ->.
    { destruct pre as [|c pre]; [reflexivity|]. rewrite lastOr_cons in Hlast.
      unfold lastOr in Hlast. destruct (last pre); discriminate. }
    cbn [app] in *.
    pose proof (chain_head _ _ _ _ Hc) as Hh.
    destruct post as [|g post']; [discriminate|]. cbn in Hh. injection Hh as <-.
    inversion Hc as [|? ? gn ? Hgn Hgl Hpost']; subst.
    assert (Hgn1 : LHeap.lnodes h1 !! m = Some gn) by (cbn; apply lookup_app_l_Some; exact Hgn).
    assert (Hmlt : (m < new)%nat) by (eapply Hold; eauto).
    assert (Hmnot : m ∉ post') by (inversion Hnd; assumption).
    eexists _, _. split; [|split; [|split; [|split; [|split; [|split]]]]].
    - unfold LL.insert. cbn [bind Monad_M LL.alloc_node]. fold h1. fold new.
      unfold read at 1, LL.header, deref. rewrite Hl1, Hmin.
      unfold read at 1. rewrite Hsearch.
      unfold LL.modify_node at 1. rewrite Hgn1.
      unfold LL.modify_node at 1. cbn [LHeap.lnodes].
      rewrite list_lookup_insert_ne by lia. rewrite Hnew1.
      unfold LL.modify_list at 1. cbn [LHeap.llists]. rewrite Hl1.
      unfold LL.modify_list at 1. cbn [LHeap.llists].
      rewrite list_lookup_insert_eq by exact Hllt.
      cbn [ret Monad_M]. reflexivity.
    - cbn [LHeap.llists]. rewrite list_lookup_insert_eq by (rewrite !length_insert; exact Hllt).
      reflexivity.
    - cbn [SortedLinkedList.min SortedLinkedList.set_count SortedLinkedList.set_min].
      eapply (chain_link_front h _ new _ None None (m :: post')).
      + exact Hc.
      + intros Hin. apply Hbound in Hin. lia.
      + cbn [LHeap.lnodes]. apply list_lookup_insert_eq. len.
      + reflexivity.
      + reflexivity.
      + intros g gn' Hg Hgn'. cbn in Hg. injection Hg as <-.
        rewrite Hgn in Hgn'. injection Hgn' as <-.
        cbn [LHeap.lnodes]. rewrite list_lookup_insert_ne by lia.
        apply list_lookup_insert_eq. len.
      + intros c Hin. cbn in Hin. cbn [LHeap.lnodes].
        assert (c < new)%nat by (apply Hbound, list_elem_of_further, Hin).
        assert (c <> m) by (intros ->; contradiction).
        rewrite !list_lookup_insert_ne by lia. apply lookup_app_l. assumption.
    - reflexivity.
    - intros Hmax. cbn [SortedLinkedList.max SortedLinkedList.set_count SortedLinkedList.set_min].
      rewrite Hmax. rewrite !lastOr_cons.
      destruct post' as [|x post']; [|rewrite !lastOr_cons; reflexivity].
      (* a one-node list: its max, the node [m], stays the last node *)
      reflexivity.
    - eexists. split; [cbn [LHeap.lnodes]; apply list_lookup_insert_eq; len|].
      split; reflexivity.
    - intros c n Hn. assert (c < new)%nat by (eapply Hold; eauto).
      cbn [LHeap.lnodes]. rewrite list_lookup_insert_ne by lia.
      destruct (decide (c = m)) as [->|Hcm].
      + rewrite Hgn in Hn. injection Hn as <-. eexists.
        split; [apply list_lookup_insert_eq; len|split; reflexivity].
      + exists n. rewrite list_lookup_insert_ne by lia.
        split; [apply lookup_app_l_Some; exact Hn|split; reflexivity]. }
  (* the key goes after the node [p] *)
  assert (Hsplit : exists pre', pre = pre' ++ [p]).
  { destruct pre as [|c pre] using rev_ind; [discriminate|].
    exists pre. rewrite lastOr_app in Hlast. cbn in Hlast. congruence. }
  destruct Hsplit as [pre' ->]. clear Hlast.
  rewrite <- app_assoc in *. cbn [app] in *.
  assert (Hpi : (pre' ++ p :: post) !! length pre' = Some p)
    by (apply list_lookup_middle; reflexivity).
  destruct (chain_lookup _ _ _ _ _ _ Hc Hpi) as (pn & Hpn & Hpl).
  pose proof (chain_next _ _ _ _ _ _ _ Hc Hpi Hpn) as Hpr.
  assert (Hpr' : LinkedNode.rightSibling pn = head post).
  { rewrite Hpr. rewrite lookup_app_r by lia.
    replace (S (length pre') - length pre')%nat with 1%nat by lia. destruct post; reflexivity. }
  assert (Hpn1 : LHeap.lnodes h1 !! p = Some pn) by (cbn; apply lookup_app_l_Some; exact Hpn).
  assert (Hplt : (p < new)%nat) by (eapply Hold; eauto).
  destruct (Hpre1 p pn) as (z & Hz & Hzpos); [apply elem_of_app; right; apply list_elem_of_here|exact Hpn1|].
  apply NoDup_app in Hnd as (Hnd1 & Hdisj & Hnd2).
  assert (Hppost : p ∉ post) by (inversion Hnd2; assumption).
  assert (Hppre : p ∉ pre') by (intros Hin; apply (Hdisj p Hin); apply list_elem_of_here).
  destruct (chain_suffix _ _ _ _ _ Hc) as [pv Hsuf]. cbn [head] in Hsuf.
  inversion Hsuf as [|? ? pn0 ? Hpn0 Hpl0 Hcpost]; subst.
  rewrite Hpn in Hpn0. injection Hpn0 as <-. rewrite Hpr' in Hcpost.
  set (nn := LinkedNode.set_rightSibling (head post)
               (LinkedNode.set_leftSibling (Some p) (LinkedNode.new key))).
  set (h2 := LHeap.mk
               (<[new := nn]>
                  (<[new := LinkedNode.set_leftSibling (Some p) (LinkedNode.new key)]>
                     (<[p := LinkedNode.set_rightSibling (Some new) pn]> (LHeap.lnodes h1))))
               (LHeap.llists h)).
  assert (Hlen2 : length (LHeap.lnodes h2) = S new) by (cbn; rewrite !length_insert; exact Hlen1).
  assert (Hh2new : LHeap.lnodes h2 !! new = Some nn).
  { cbn [h2 LHeap.lnodes]. apply list_lookup_insert_eq. rewrite !length_insert, Hlen1. lia. }
  assert (Hh2p : LHeap.lnodes h2 !! p = Some (LinkedNode.set_rightSibling (Some new) pn)).
  { cbn [h2 LHeap.lnodes]. rewrite !list_lookup_insert_ne by lia.
    apply list_lookup_insert_eq. rewrite Hlen1. lia. }
  assert (Hh2old : forall c, c <> p -> (c < new)%nat ->
            LHeap.lnodes h2 !! c = LHeap.lnodes h !! c).
  { intros c Hcp Hcn. cbn [h2 LHeap.lnodes]. rewrite !list_lookup_insert_ne by lia.
    cbn. apply lookup_app_l. exact Hcn. }
  assert (Hgsome : forall g, head post = Some g -> is_Some (LHeap.lnodes h2 !! g)).
  { intros g Hg. apply lookup_lt_is_Some_2. rewrite Hlen2.
    assert (g < new)%nat; [|lia].
    apply Hbound. apply elem_of_app. right. apply list_elem_of_further.
    destruct post; [discriminate|]. injection Hg as ->. apply list_elem_of_here. }
  destruct (modify_node_if_spec (head post) (LinkedNode.set_leftSibling (Some new)) h2 Hgsome)
    as (L' & Hrun & HlenL & Hhead & Hother).
  set (lmid := if decide (Some p = SortedLinkedList.max l)
               then SortedLinkedList.set_max (Some new) l else l).
  assert (Hnewpost : new ∉ post).
  { intros Hin. assert (new < new)%nat; [|lia].
    apply Hbound. apply elem_of_app. right. apply list_elem_of_further. exact Hin. }
  assert (HLnew : L' !! new = Some nn).
  { rewrite Hother; [exact Hh2new|]. intros E.
    apply Hnewpost. destruct post; [discriminate|]. injection E as ->. apply list_elem_of_here. }
  assert (HLp : L' !! p = Some (LinkedNode.set_rightSibling (Some new) pn)).
  { rewrite Hother; [exact Hh2p|]. intros E.
    apply Hppost. destruct post; [discriminate|]. injection E as ->. apply list_elem_of_here. }
  exists (LHeap.mk L' (<[list := SortedLinkedList.set_count (SortedLinkedList.count lmid + 1) lmid]>
                         (<[list := lmid]> (LHeap.llists h)))),
         (SortedLinkedList.set_count (SortedLinkedList.count lmid + 1) lmid).
  split; [|split; [|split; [|split; [|split; [|split]]]]].
  - unfold LL.insert. cbn [bind Monad_M LL.alloc_node]. fold h1. fold new.
    unfold read at 1, LL.header, deref. rewrite Hl1, Hmin.
    unfold read at 1. rewrite Hsearch.
    unfold read at 1, LL.node, deref. rewrite Hpn1.
    unfold read at 1. rewrite Hz.
    destruct (Z.eqb_spec z 0) as [E|_]; [lia|].
    rewrite Hpr'.
    unfold LL.modify_node at 1. rewrite Hpn1.
    unfold LL.modify_node at 1. cbn [LHeap.lnodes].
    rewrite list_lookup_insert_ne by lia. rewrite Hnew1.
    unfold LL.modify_node at 1. cbn [LHeap.lnodes].
    rewrite list_lookup_insert_eq by (rewrite length_insert, Hlen1; lia).
    cbn [LHeap.llists h1]. fold nn. fold h2. rewrite Hrun.
    change (LHeap.llists h2) with (LHeap.llists h).
    unfold read at 1, LL.header, deref. cbn [LHeap.llists]. rewrite Hl.
    unfold lmid. destruct (decide (Some p = SortedLinkedList.max l)) as [E|E].
    + unfold LL.modify_list at 1. cbn [LHeap.llists]. rewrite Hl.
      unfold LL.modify_list at 1. cbn [LHeap.llists].
      rewrite list_lookup_insert_eq by exact Hllt.
      cbn [ret Monad_M]. reflexivity.
    + cbn [ret Monad_M]. unfold LL.modify_list at 1. cbn [LHeap.llists]. rewrite Hl.
      rewrite (list_insert_id (LHeap.llists h) list l Hl). reflexivity.
  - cbn [LHeap.llists]. apply list_lookup_insert_eq. rewrite length_insert. exact Hllt.
  - replace (SortedLinkedList.min _) with (Some m)
      by (unfold lmid; destruct (decide (Some p = SortedLinkedList.max l)); cbn; congruence).
    eapply (chain_insert_after h _ p pn (new :: post) pre' None (Some m) post Hc).
    + intros c Hin. cbn [LHeap.lnodes].
      assert (c < new)%nat by (apply Hbound, elem_of_app; left; exact Hin).
      assert (c <> p) by (intros ->; contradiction).
      rewrite Hother; [apply Hh2old; assumption|].
      intros E. apply (Hdisj c Hin). apply list_elem_of_further.
      destruct post; [discriminate|]. injection E as ->. apply list_elem_of_here.
    + exact Hpn.
    + exists (LinkedNode.set_rightSibling (Some new) pn). split; [exact HLp|].
      split; [reflexivity|]. cbn [LinkedNode.rightSibling LinkedNode.set_rightSibling].
      eapply (chain_link_front h _ new nn (Some p) (Some p) post Hcpost Hnewpost).
      * exact HLnew.
      * reflexivity.
      * reflexivity.
      * intros g gn Hg Hgn. cbn [LHeap.lnodes]. rewrite (Hhead g Hg).
        assert (g ∈ post) by (destruct post; [discriminate|]; injection Hg as ->; apply list_elem_of_here).
        rewrite Hh2old; [rewrite Hgn; reflexivity|intros ->; contradiction|].
        apply Hbound, elem_of_app; right. apply list_elem_of_further. assumption.
      * intros c Hin. cbn [LHeap.lnodes].
        assert (Hcpst : c ∈ post) by (destruct post; [inversion Hin|apply list_elem_of_further; exact Hin]).
        rewrite Hother.
        -- apply Hh2old; [intros ->; contradiction|].
           apply Hbound, elem_of_app; right. apply list_elem_of_further. exact Hcpst.
        -- intros E. destruct post as [|g post']; [discriminate|]. injection E as ->.
           cbn in Hin. inversion Hnd2 as [|? ? ? Hnd3]; subst. inversion Hnd3; subst. contradiction.
  - unfold lmid. destruct (decide (Some p = SortedLinkedList.max l)); reflexivity.
  - intros Hmax. cbn [SortedLinkedList.max SortedLinkedList.set_count].
    rewrite <- app_assoc in Hmax. cbn [app] in Hmax.
    rewrite lastOr_app, lastOr_cons in Hmax. rewrite lastOr_app, !lastOr_cons.
    unfold lmid. destruct post as [|g post'].
    + cbn in Hmax. rewrite decide_True by congruence. reflexivity.
    + rewrite lastOr_cons in Hmax. rewrite lastOr_cons.
      rewrite decide_False; [exact Hmax|].
      intros E. rewrite Hmax in E. symmetry in E. apply lastOr_in in E as [E|E].
      * injection E as ->. apply Hppost. apply list_elem_of_here.
      * apply Hppost. apply list_elem_of_further. exact E.
  - exists nn. cbn [LHeap.lnodes]. split; [exact HLnew|split; reflexivity].
  - intros c n Hn. cbn [LHeap.lnodes]. assert (Hcn : (c < new)%nat) by (eapply Hold; eauto).
    destruct (decide (head post = Some c)) as [Hhc|Hhc].
    + rewrite (Hhead c Hhc).
      assert (c ∈ post) by (destruct post; [discriminate|]; injection Hhc as ->; apply list_elem_of_here).
      rewrite Hh2old; [|intros ->; contradiction|exact Hcn].
      rewrite Hn. eexists. split; [reflexivity|split; reflexivity].
    + rewrite (Hother c Hhc). destruct (decide (c = p)) as [->|Hcp].
      * rewrite Hh2p. rewrite Hpn in Hn. injection Hn as <-.
        eexists. split; [reflexivity|split; reflexivity].
      * rewrite Hh2old by assumption. exists n. split; [exact Hn|split; reflexivity].
Qed.
End InsertNew.

Section ParentCell.
Context {K V : Type}.
Implicit Types st : Heap.t K V.

Lemma parent_cell_loop_spineTo st : forall k b c fuel,
  spineTo st b k c -> (k < fuel)%nat ->
  BB.parent_cell_loop fuel st (Some b) = Ok (Some c).
Proof.
  induction k as [|k IH]; intros b c fuel Hs Hfuel.
  - inversion Hs as [? n ? Hn Hpc|]; subst.
    destruct fuel as [|fuel]; [lia|].
    cbn [BB.parent_cell_loop]. unfold bnodeOf, deref. rewrite Hn. cbn [bind Monad_Res].
    rewrite Hpc. reflexivity.
  - inversion Hs as [|? n p ? ? Hn Hpc Hpn Hup]; subst.
    destruct fuel as [|fuel]; [lia|].
    cbn [BB.parent_cell_loop]. unfold bnodeOf, deref. rewrite Hn. cbn [bind Monad_Res].
    rewrite Hpc, Hpn. apply IH; [exact Hup|lia].
Qed.

Lemma parent_cell_loop_spineOff st : forall k b fuel,
  spineOff st b k -> (k < fuel)%nat ->
  BB.parent_cell_loop fuel st (Some b) = Ok None.
Proof.
  induction k as [|k IH]; intros b fuel Hs Hfuel.
  - inversion Hs as [? n Hn Hpc Hpn|]; subst.
    destruct fuel as [|fuel]; [lia|].
    cbn [BB.parent_cell_loop]. unfold bnodeOf, deref. rewrite Hn. cbn [bind Monad_Res].
    rewrite Hpc, Hpn. destruct fuel; reflexivity.
  - inversion Hs as [|? n p ? Hn Hpc Hpn Hup]; subst.
    destruct fuel as [|fuel]; [lia|].
    cbn [BB.parent_cell_loop]. unfold bnodeOf, deref. rewrite Hn. cbn [bind Monad_Res].
    rewrite Hpc, Hpn. apply IH; [exact Hup|lia].
Qed.

(** [find_effective_parent_cell] returns the parent cell of the nearest
    node, going up from the given one through the parents, that has a
    parent cell. *)
Theorem find_effective_parent_cell_nearest st b k c fuel :
  spineTo st b k c -> (k < fuel)%nat ->
  BB.find_effective_parent_cell fuel st b = Ok c.
Proof.
  intros Hs Hfuel. unfold BB.find_effective_parent_cell.
  inversion Hs as [? n ? Hn Hpc|? n p ? ? Hn Hpc Hpn Hup]; subst.
  - unfold bnodeOf, deref. rewrite Hn. cbn [bind Monad_Res]. rewrite Hpc. reflexivity.
  - unfold bnodeOf at 1, deref. rewrite Hn. cbn [bind Monad_Res]. rewrite Hpc.
    rewrite (parent_cell_loop_spineTo st (S k0) b c fuel Hs Hfuel). reflexivity.
Qed.

(** When no node on the way up to the root has a parent cell, the
    result is the first cell of the parent's cell list; it is the error
    "Not allowed condition" when the node is the root or when the
    parent's list is empty. *)
Theorem find_effective_parent_cell_leftmost st b k n fuel :
  spineOff st b k -> (k < fuel)%nat ->
  Heap.nodes st !! b = Some n ->
  BB.find_effective_parent_cell fuel st b =
    match BPlusNode.parent_node n with
    | Some p =>
      let* pn := bnodeOf st p in
      let* pl := listOf st (BPlusNode.cellsList pn) in
      match SortedLinkedList.min pl with
      | Some m => let* ln := lnodeOf st m in Ok (LinkedNode.key ln)
      | None => Fail (Error "Not allowed condition")
      end
    | None => Fail (Error "Not allowed condition")
    end.
Proof.
  intros Hs Hfuel Hn. unfold BB.find_effective_parent_cell.
  unfold bnodeOf at 1, deref. rewrite Hn. cbn [bind Monad_Res].
  assert (Hpc : BPlusNode.parent_cell n = None).
  { inversion Hs as [? n0 Hn0 Hpc0 _|? n0 ? ? Hn0 Hpc0 _ _]; subst; congruence. }
  rewrite Hpc. rewrite (parent_cell_loop_spineOff st k b fuel Hs Hfuel). reflexivity.
Qed.
End ParentCell.

Section Lookups.
Context {K V : Type}.
Implicit Types st : Heap.t K V.

Lemma grown_refl st : grown st st.
Proof. repeat split. exists []. rewrite app_nil_r. reflexivity. Qed.

Lemma grown_trans st1 st2 st3 : grown st1 st2 -> grown st2 st3 -> grown st1 st3.
Proof.
  intros (H1 & H2 & H3 & m1 & H4) (G1 & G2 & G3 & m2 & G4).
  repeat split; try congruence. exists (m1 ++ m2). rewrite G4, H4, app_assoc. reflexivity.
Qed.

Lemma grown_add_cell st c : grown st (Heap.add_cell st c).
Proof. repeat split. exists [c]. reflexivity. Qed.

(** A probe cell, which has no right child, is only allocated. *)
Lemma createBPlusCell_probe (key : K) p st :
  createBPlusCell (V:=V) key None p st =
    Ok (length (Heap.cells st), Heap.add_cell st (BPlusCell.new key None p)).
Proof. reflexivity. Qed.

Lemma searchForLeafNode_grown fuel compare (key : K) q st r st' :
  BB.searchForLeafNode (V:=V) fuel compare key q st = Ok (r, st') -> grown st st'.
Proof.
  unfold BB.searchForLeafNode. cbn [bind Monad_M]. unfold get_tree.
  destruct (BPlusTree.root_node (Heap.tree st)) as [root|].
  - rewrite createBPlusCell_probe. unfold read.
    destruct (BB.descend _ _ _ _ _) as [x|e]; [|discriminate].
    intros E. injection E as _ <-. apply grown_add_cell.
  - intros E. injection E as _ <-. apply grown_refl.
Qed.

Lemma searchInLeaf_grown fuel compare (key : K) ty st r st' :
  BB.searchInLeaf (V:=V) fuel compare key ty st = Ok (r, st') -> grown st st'.
Proof.
  unfold BB.searchInLeaf. cbn [bind Monad_M].
  destruct (BB.searchForLeafNode fuel compare key None st) as [[leaf st1]|e] eqn:Hleaf;
    [|discriminate].
  apply searchForLeafNode_grown in Hleaf.
  destruct leaf as [leaf|]; [|intros E; injection E as _ <-; exact Hleaf].
  unfold getb at 1, read at 1. destruct (bnodeOf st1 leaf) as [n|e]; [|discriminate].
  rewrite createBPlusCell_probe. unfold read at 1.
  destruct (LLsearch _ _ _ _ _ _) as [[f|]|e]; [| |discriminate].
  - unfold getln, read at 1. destruct (lnodeOf _ f) as [fn|e]; [|discriminate].
    unfold getc, read at 1. destruct (cellOf _ _) as [c|e]; [|discriminate].
    intros E. injection E as _ <-. eapply grown_trans; [exact Hleaf|apply grown_add_cell].
  - intros E. injection E as _ <-. eapply grown_trans; [exact Hleaf|apply grown_add_cell].
Qed.

(** The point lookups never change the tree: whatever they return,
    the tree record, the nodes, the cell lists and the cells are as
    before; only probe cells have been allocated. *)
Theorem lookups_only_add_cells fuel compare (key : K) ty st :
  (forall r st', BB.searchForKey (V:=V) fuel compare key ty st = Ok (r, st') -> grown st st') /\
  (forall r st', BB.searchForValue (V:=V) fuel compare key ty st = Ok (r, st') -> grown st st') /\
  (forall r st', BB.searchForKV (V:=V) fuel compare key ty st = Ok (r, st') -> grown st st').
Proof.
  split; [|split]; intros r st'.
  - unfold BB.searchForKey. cbn [bind Monad_M].
    destruct (BB.searchInLeaf fuel compare key ty st) as [[x st1]|e] eqn:Hrun; [|discriminate].
    intros E. injection E as _ <-. eapply searchInLeaf_grown; eauto.
  - unfold BB.searchForValue. cbn [bind Monad_M].
    destruct (BB.searchInLeaf fuel compare key ty st) as [[x st1]|e] eqn:Hrun; [|discriminate].
    intros E. injection E as _ <-. eapply searchInLeaf_grown; eauto.
  - unfold BB.searchForKV. cbn [bind Monad_M].
    destruct (BB.searchForLeafNode fuel compare key None st) as [[leaf st1]|e] eqn:Hleaf;
      [|discriminate].
    apply searchForLeafNode_grown in Hleaf.
    destruct leaf as [leaf|]; [|intros E; injection E as _ <-; exact Hleaf].
    rewrite createBPlusCell_probe. unfold read at 1.
    destruct (BB.kv_loop _ _ _ _ _ _) as [x|e]; [|discriminate].
    intros E. injection E as _ <-. eapply grown_trans; [exact Hleaf|apply grown_add_cell].
Qed.

Lemma searchForKV_as_searchInLeaf fuel compare (key : K) ty st :
  ty <> LesserThan -> ty <> GreaterThan ->
  BB.searchForKV (V:=V) (S fuel) compare key ty st =
    (let* found := BB.searchInLeaf (S fuel) compare key ty in
     ret (option_map (fun c => (BPlusCell.key c, BPlusCell.value c)) found)) st.
Proof.
  intros Hlt Hgt.
  unfold BB.searchInLeaf, BB.searchForKV.
  cbn [bind Monad_M].
  destruct (BB.searchForLeafNode (S fuel) compare key None st) as [[[leaf|] st1]|e];
    [|reflexivity|reflexivity].
  rewrite createBPlusCell_probe. unfold getb, getln, getc, read. cbn [BB.kv_loop].
  change (bnodeOf (Heap.add_cell st1 (BPlusCell.new key None None)) leaf) with (bnodeOf st1 leaf).
  destruct (bnodeOf st1 leaf) as [n|e]; [|reflexivity].
  rewrite createBPlusCell_probe. cbn [bind Monad_Res].
  destruct (LLsearch _ _ _ _ _ _) as [[f|]|e]; [| |reflexivity].
  - destruct (lnodeOf _ f) as [fn|e]; [|reflexivity].
    cbn [bind Monad_Res].
    destruct (cellOf _ _) as [c|e]; reflexivity.
  - destruct ty; try congruence; reflexivity.
Qed.

(** In the modes that look at one leaf only (EQ, LE, GE), [searchForKV]
    is [searchForKey] and [searchForValue] at once: the three run the
    same steps, and [searchForKV] pairs the key and the value of the cell
    the other two return the key and the value of. *)
Theorem searchForKV_pairs_key_and_value fuel compare (key : K) ty st :
  ty <> LesserThan -> ty <> GreaterThan ->
  BB.searchForKey (V:=V) (S fuel) compare key ty st =
    (let* kv := BB.searchForKV (S fuel) compare key ty in ret (option_map fst kv)) st /\
  BB.searchForValue (V:=V) (S fuel) compare key ty st =
    (let* kv := BB.searchForKV (S fuel) compare key ty in
     ret (match kv with Some (_, v) => v | None => None end)) st.
Proof.
  intros Hlt Hgt.
  unfold BB.searchForKey, BB.searchForValue. cbn [bind Monad_M].
  rewrite (searchForKV_as_searchInLeaf fuel compare key ty st Hlt Hgt). cbn [bind Monad_M].
  destruct (BB.searchInLeaf (S fuel) compare key ty st) as [[[c|] st1]|e]; split; reflexivity.
Qed.

End Lookups.

Section FirstInsert.
Context {K V : Type}.
Implicit Types st : Heap.t K V.

Lemma insert_snoc_last {A} (l : list A) x y : <[length l := x]> (l ++ [y]) = l ++ [x].
Proof.
  replace (length l) with (length l + 0)%nat at 1 by lia.
  rewrite insert_app_r. reflexivity.
Qed.

Lemma lookup_snoc_last {A} (l : list A) y : (l ++ [y]) !! length l = Some y.
Proof. apply list_lookup_middle. reflexivity. Qed.

Lemma insert_rootless fuel compare (key : K) (value : option V) st :
  BPlusTree.root_node (Heap.tree st) = None ->
  BB.insert fuel compare key value st = Ok (Some key, firstState st key value).
Proof.
  intros Hroot. destruct st as [[lnodes llists] cells nodes tree]. cbn in Hroot.
  unfold BB.insert. cbn [bind Monad_M]. unfold get_tree at 1. cbn [Heap.tree]. rewrite Hroot.
  unfold createBPlusNode, new_BPlusNode. cbn [bind Monad_M].
  unfold liftLL at 1. cbn [LL.alloc_list Heap.lheap LHeap.llists LHeap.lnodes Heap.cells Heap.nodes Heap.tree].
  unfold alloc_bnode. cbn [Heap.lheap LHeap.llists LHeap.lnodes Heap.cells Heap.nodes Heap.tree].
  unfold modify_bnode at 1. cbn [Heap.lheap LHeap.llists LHeap.lnodes Heap.cells Heap.nodes Heap.tree].
  rewrite lookup_snoc_last, insert_snoc_last.
  unfold modify_bnode at 1. cbn [Heap.lheap LHeap.llists LHeap.lnodes Heap.cells Heap.nodes Heap.tree].
  rewrite lookup_snoc_last, insert_snoc_last.
  unfold modify_bnode at 1. cbn [Heap.lheap LHeap.llists LHeap.lnodes Heap.cells Heap.nodes Heap.tree].
  rewrite lookup_snoc_last, insert_snoc_last.
  unfold liftLL at 1. cbn [LL.alloc_list Heap.lheap LHeap.llists LHeap.lnodes Heap.cells Heap.nodes Heap.tree].
  unfold modify_bnode at 1. cbn [Heap.lheap LHeap.llists LHeap.lnodes Heap.cells Heap.nodes Heap.tree].
  rewrite lookup_snoc_last, insert_snoc_last.
  cbn [ret Monad_M].
  unfold modify_tree. cbn [Heap.lheap LHeap.llists LHeap.lnodes Heap.cells Heap.nodes Heap.tree].
  unfold getb at 1, read at 1, bnodeOf, deref. cbn [Heap.nodes]. rewrite lookup_snoc_last.
  unfold createBPlusCell. cbn [bind Monad_M]. unfold alloc_cell.
  cbn [Heap.add_cell Heap.lheap LHeap.llists LHeap.lnodes Heap.cells Heap.nodes Heap.tree ret Monad_M].
  unfold LLinsert, liftLL.
  cbn [BPlusNode.cellsList BPlusNode.set_cellsList Heap.add_cell Heap.lheap Heap.cells Heap.nodes Heap.tree].
  unfold LL.insert. cbn [bind Monad_M LL.alloc_node LHeap.lnodes LHeap.llists].
  unfold read at 1, LL.header, deref. cbn [LHeap.llists]. rewrite lookup_snoc_last.
  cbn [SortedLinkedList.min SortedLinkedList.new].
  unfold LL.modify_list at 1. cbn [LHeap.llists LHeap.lnodes]. rewrite lookup_snoc_last, insert_snoc_last.
  unfold LL.modify_list at 1. cbn [LHeap.llists LHeap.lnodes]. rewrite lookup_snoc_last, insert_snoc_last.
  unfold LL.modify_list at 1. cbn [LHeap.llists LHeap.lnodes]. rewrite lookup_snoc_last, insert_snoc_last.
  cbn [ret Monad_M].
  unfold getln, read at 1, lnodeOf, LL.node, deref. cbn [Heap.lheap LHeap.lnodes].
  rewrite lookup_snoc_last.
  unfold modify_cell. cbn [Heap.cells LinkedNode.key LinkedNode.new]. rewrite lookup_snoc_last, insert_snoc_last.
  unfold firstState. cbn. rewrite length_app, <- app_assoc. cbn.
  replace (length llists + 1)%nat with (S (length llists)) by lia. reflexivity.
Qed.

Lemma descend_leaf fuel st compare sk b n :
  Heap.nodes st !! b = Some n -> BPlusNode.isLeaf n = true ->
  BB.descend fuel st compare sk (Some b) = Ok (Some b).
Proof.
  intros Hn Hleaf.
  destruct fuel; cbn [BB.descend]; unfold bnodeOf, deref; rewrite Hn; cbn;
    rewrite Hleaf; reflexivity.
Qed.

(** The leaf lookup on a tree whose root is a leaf, for a key that the
    node [f] of the leaf holds. *)
Lemma searchInLeaf_leaf_root fuel compare (key : K) ty st b n l pre f fn fc post :
  let probe := BPlusCell.new key None None in
  BPlusTree.root_node (Heap.tree st) = Some b ->
  Heap.nodes st !! b = Some n ->
  BPlusNode.isLeaf n = true ->
  LHeap.llists (Heap.lheap st) !! BPlusNode.cellsList n = Some l ->
  chain (Heap.lheap st) None (SortedLinkedList.min l) (pre ++ f :: post) ->
  LHeap.lnodes (Heap.lheap st) !! f = Some fn ->
  Heap.cells st !! LinkedNode.key fn = Some fc ->
  (forall c ln, c ∈ pre -> LHeap.lnodes (Heap.lheap st) !! c = Some ln ->
     exists lc z, Heap.cells st !! LinkedNode.key ln = Some lc /\
                  compare probe lc = Ok z /\ 0 < z) ->
  compare probe fc = Ok 0 ->
  ty <> LesserThan -> ty <> GreaterThan ->
  (length pre < fuel)%nat ->
  BB.searchInLeaf fuel compare key ty st =
    Ok (Some fc, Heap.add_cell (Heap.add_cell st probe) probe).
Proof.
  intros probe Hroot Hn Hleaf Hl Hc Hf Hfc Hpre Hzero Hlt Hgt Hfuel.
  set (st1 := Heap.add_cell st probe). set (st2 := Heap.add_cell st1 probe).
  assert (Hprobe : cellOf st2 (length (Heap.cells st1)) = Ok probe).
  { unfold cellOf, deref. cbn [st2 Heap.cells Heap.add_cell]. rewrite lookup_snoc_last. reflexivity. }
  assert (Hcell : forall i c, Heap.cells st !! i = Some c -> cellOf st2 i = Ok c).
  { intros i c Hi. unfold cellOf, deref. cbn [st2 st1 Heap.cells Heap.add_cell].
    rewrite (lookup_app_l_Some _ _ _ _ (lookup_app_l_Some _ _ _ _ Hi)). reflexivity. }
  assert (Hmin : exists m, SortedLinkedList.min l = Some m).
  { rewrite (chain_head _ _ _ _ Hc). destruct pre; cbn; eauto. }
  destruct Hmin as [m Hmin].
  destruct (search_loop_equal (onCells st2 compare) (Heap.lheap st) (length (Heap.cells st1)) ty
              f fn post ltac:(destruct ty; congruence) Hf
              ltac:(unfold onCells; rewrite Hprobe, (Hcell _ _ Hfc); exact Hzero)
              pre None (SortedLinkedList.min l) fuel None None None Hc) as [lte' Hloop].
  { intros c ln Hin Hln. destruct (Hpre c ln Hin Hln) as (lc & z & Hlc & Hz & Hpos).
    exists z. split; [|exact Hpos]. unfold onCells. rewrite Hprobe, (Hcell _ _ Hlc). exact Hz. }
  { exact Hfuel. }
  unfold BB.searchInLeaf. cbn [bind Monad_M].
  rewrite (searchForLeafNode_root _ _ _ _ _ _ Hroot). fold probe. fold st1.
  rewrite (descend_leaf fuel st1 compare _ b n Hn Hleaf).
  unfold getb, read at 1, bnodeOf, deref. cbn [st1 Heap.nodes Heap.add_cell]. rewrite Hn.
  rewrite createBPlusCell_probe. fold probe. fold st1. fold st2.
  unfold read at 1, LLsearch, LL.search, LL.header, deref.
  cbn [st2 st1 Heap.lheap Heap.add_cell]. rewrite Hl. cbn [bind Monad_Res].
  fold st1. fold st2. rewrite Hmin. rewrite <- Hmin. rewrite Hloop.
  assert (Hres : match ty with
                 | LesserThanOrEqualsTo => Ok (orElse (Some f) lte')
                 | EqualsTo => Ok (Some f)
                 | GreaterThanOrEqualsTo => Ok (orElse (Some f) None)
                 | LesserThan => Ok lte'
                 | GreaterThan => Ok None
                 end = Ok (A:=option nat) (Some f)) by (destruct ty; try congruence; reflexivity).
  rewrite Hres.
  unfold getln, read at 1, lnodeOf, LL.node, deref. cbn [st2 st1 Heap.lheap Heap.add_cell].
  rewrite Hf. fold st1. fold st2.
  unfold getc, read. rewrite (Hcell _ _ Hfc). reflexivity.
Qed.

(** The lookups on a tree whose root is a leaf, for a key that the leaf
    holds ([pre] are the nodes of the leaf's list with smaller keys, and
    [fc] is the cell that compares equal): in the modes EQ, LE and GE
    they return the key, the value, and the pair of both, of that cell;
    the only change to the state is the two probe cells. *)
Theorem leaf_root_lookup_finds fuel compare (key : K) ty st b n l pre f fn fc post :
  let probe := BPlusCell.new key None None in
  BPlusTree.root_node (Heap.tree st) = Some b ->
  Heap.nodes st !! b = Some n ->
  BPlusNode.isLeaf n = true ->
  LHeap.llists (Heap.lheap st) !! BPlusNode.cellsList n = Some l ->
  chain (Heap.lheap st) None (SortedLinkedList.min l) (pre ++ f :: post) ->
  LHeap.lnodes (Heap.lheap st) !! f = Some fn ->
  Heap.cells st !! LinkedNode.key fn = Some fc ->
  (forall c ln, c ∈ pre -> LHeap.lnodes (Heap.lheap st) !! c = Some ln ->
     exists lc z, Heap.cells st !! LinkedNode.key ln = Some lc /\
                  compare probe lc = Ok z /\ 0 < z) ->
  compare probe fc = Ok 0 ->
  ty <> LesserThan -> ty <> GreaterThan ->
  (length pre < fuel)%nat ->
  let st2 := Heap.add_cell (Heap.add_cell st probe) probe in
  BB.searchForKey fuel compare key ty st = Ok (Some (BPlusCell.key fc), st2) /\
  BB.searchForValue fuel compare key ty st = Ok (BPlusCell.value fc, st2) /\
  BB.searchForKV fuel compare key ty st = Ok (Some (BPlusCell.key fc, BPlusCell.value fc), st2).
Proof.
  intros probe Hroot Hn Hleaf Hl Hc Hf Hfc Hpre Hzero Hlt Hgt Hfuel st2.
  pose proof (searchInLeaf_leaf_root fuel compare key ty st b n l pre f fn fc post
                Hroot Hn Hleaf Hl Hc Hf Hfc Hpre Hzero Hlt Hgt Hfuel) as Hrun.
  split; [|split].
  - unfold BB.searchForKey. cbn [bind Monad_M]. rewrite Hrun. reflexivity.
  - unfold BB.searchForValue. cbn [bind Monad_M]. rewrite Hrun. reflexivity.
  - destruct fuel as [|fuel]; [lia|].
    rewrite (searchForKV_as_searchInLeaf fuel compare key ty st Hlt Hgt).
    cbn [bind Monad_M]. rewrite Hrun. reflexivity.
Qed.

(** Deleting the only key of a tree whose root is a leaf. *)
Lemma deleteCell_only_key fuel compare (key : K) st b n l f fn fc :
  let probe := BPlusCell.new key None None in
  BPlusTree.root_node (Heap.tree st) = Some b ->
  Heap.nodes st !! b = Some n ->
  BPlusNode.isLeaf n = true ->
  BPlusNode.leftSibling n = None ->
  BPlusNode.rightSibling n = None ->
  BPlusNode.left_most_child n = None ->
  LHeap.llists (Heap.lheap st) !! BPlusNode.cellsList n = Some l ->
  SortedLinkedList.count l = 1 ->
  chain (Heap.lheap st) None (SortedLinkedList.min l) [f] ->
  LHeap.lnodes (Heap.lheap st) !! f = Some fn ->
  LinkedNode.duplicate_count fn = 0 ->
  Heap.cells st !! LinkedNode.key fn = Some fc ->
  compare probe fc = Ok 0 ->
  0 < BPlusTree.half_capacity (Heap.tree st) ->
  0 <= BPlusTree.max_node_size (Heap.tree st) ->
  exists st',
    BB.deleteCell (S fuel) compare key st = Ok (Some fc, st') /\
    Heap.tree st' =
      BPlusTree.set_root_node None
        (BPlusTree.set_size (BPlusTree.size (Heap.tree st) - 1) (Heap.tree st)) /\
    Heap.nodes st' = Heap.nodes st /\
    Heap.cells st' = Heap.cells st ++ [probe; probe].
Proof.
  intros probe Hroot Hn Hleaf Hls Hrs Hlmc Hl Hcount Hc Hf Hdup Hfc Hzero Hhc Hmax.
  set (st1 := Heap.add_cell st probe). set (st2 := Heap.add_cell st1 probe).
  assert (Hprobe : cellOf st2 (length (Heap.cells st1)) = Ok probe).
  { unfold cellOf, deref. cbn [st2 Heap.cells Heap.add_cell]. rewrite lookup_snoc_last. reflexivity. }
  assert (Hcell : forall i c, Heap.cells st !! i = Some c -> cellOf st2 i = Ok c).
  { intros i c Hi. unfold cellOf, deref. cbn [st2 st1 Heap.cells Heap.add_cell].
    rewrite (lookup_app_l_Some _ _ _ _ (lookup_app_l_Some _ _ _ _ Hi)). reflexivity. }
  assert (Hmin : SortedLinkedList.min l = Some f) by (rewrite (chain_head _ _ _ _ Hc); reflexivity).
  assert (Hllt : (BPlusNode.cellsList n < length (LHeap.llists (Heap.lheap st)))%nat)
    by (eapply lookup_lt_Some; eauto).
  assert (Hcmp : onCells st2 compare (length (Heap.cells st1)) (LinkedNode.key fn) = Ok 0).
  { unfold onCells. rewrite Hprobe, (Hcell _ _ Hfc). exact Hzero. }
  eexists. split; [|split; [|split]].
  - unfold BB.deleteCell. cbn [bind Monad_M]. unfold get_tree at 1. rewrite Hroot.
    rewrite (searchForLeafNode_root _ _ _ _ _ _ Hroot). fold probe. fold st1.
    rewrite (descend_leaf (S fuel) st1 compare _ b n Hn Hleaf).
    cbn [defined ret Monad_M].
    unfold getb at 1, read at 1, bnodeOf, deref. cbn [st1 Heap.nodes Heap.add_cell]. rewrite Hn.
    rewrite createBPlusCell_probe. fold probe. fold st1. fold st2.
    unfold LLdeleteNode, liftLL, LL.deleteNode. cbn [bind Monad_M].
    unfold read at 1, LL.search, LL.header, deref.
    cbn [st2 st1 Heap.lheap Heap.add_cell]. rewrite Hl. cbn [bind Monad_Res]. rewrite Hmin.
    cbn [LL.search_loop]. unfold LL.node at 1, deref. rewrite Hf. cbn [bind Monad_Res].
    fold st1. fold st2. rewrite Hcmp. cbn [Z.eqb bind Monad_Res].
    unfold LL.getn at 1, read at 1, LL.node, deref. rewrite Hf.
    cbn [LL.alloc_node].
    unfold LL.modify_node at 1. cbn [LHeap.lnodes LHeap.llists]. rewrite lookup_snoc_last, insert_snoc_last.
    unfold LL.getl at 1, read at 1, LL.header, deref. cbn [LHeap.lnodes LHeap.llists]. rewrite Hl.
    rewrite Hcount. cbn [Z.eqb Pos.eqb].
    unfold LL.modify_list at 1. cbn [LHeap.lnodes LHeap.llists]. rewrite Hl.
    unfold LL.modify_list at 1. cbn [LHeap.lnodes LHeap.llists].
    rewrite list_lookup_insert_eq by exact Hllt.
    unfold LL.modify_list at 1. cbn [LHeap.lnodes LHeap.llists].
    rewrite list_lookup_insert_eq by (rewrite length_insert; exact Hllt).
    cbn [ret Monad_M].
    unfold getln at 1, read at 1, lnodeOf, LL.node, deref. cbn [Heap.lheap LHeap.lnodes].
    rewrite lookup_snoc_last.
    unfold modify_tree at 1.
    cbn [Heap.lheap Heap.cells Heap.nodes Heap.tree LinkedNode.duplicate_count
         LinkedNode.set_duplicate_count st2 st1 Heap.add_cell].
    cbn [SortedLinkedList.count SortedLinkedList.set_max SortedLinkedList.set_min
         SortedLinkedList.set_count SortedLinkedList.min SortedLinkedList.max].
    rewrite Hdup, Hcount.
    match goal with |- context [BB.balance _ _ _ ?s] => set (st3 := s) end.
    assert (Hcase : BB._determineBalancingCase st3 b = Ok REMOVE_ROOT).
    { unfold BB._determineBalancingCase, BB.sizeOf, BB.siblingSize, bnodeOf, listOf, LL.header, deref.
      cbn [st3 Heap.nodes Heap.lheap LHeap.llists Heap.tree]. rewrite Hn. cbn [bind Monad_Res].
      rewrite list_lookup_insert_eq by (rewrite !length_insert; exact Hllt).
      cbn [bind Monad_Res SortedLinkedList.count BPlusTree.half_capacity BPlusTree.set_size
           BPlusTree.max_node_size].
      rewrite Hls, Hrs.
      cbn [SortedLinkedList.count SortedLinkedList.set_count]. change (1 - (0 + 1)) with 0.
      destruct (Z.leb_spec (BPlusTree.half_capacity (Heap.tree st)) 0); [lia|].
      cbn [andb].
      destruct (Z.gtb_spec 0 (BPlusTree.max_node_size (Heap.tree st))); [lia|].
      reflexivity. }
    cbn [BB.balance]. unfold BB.catchBalancing. cbn [bind Monad_M]. unfold read at 1.
    rewrite Hcase. clear Hcase. subst st3.
    unfold get_tree at 1. cbn [Heap.tree BPlusTree.root_node BPlusTree.set_size].
    rewrite Hroot. cbn [defined ret Monad_M].
    unfold getb at 1, read at 1, bnodeOf, deref. cbn [Heap.nodes]. rewrite Hn.
    unfold modify_tree at 1. unfold get_tree at 1.
    cbn [Heap.tree BPlusTree.root_node BPlusTree.set_root_node]. rewrite Hlmc.
    cbn [modify_bnode_if ret Monad_M].
    unfold getln at 1, read at 1, lnodeOf, LL.node, deref. cbn [Heap.lheap LHeap.lnodes].
    rewrite lookup_snoc_last.
    unfold getc, read, cellOf, deref.
    cbn [Heap.cells LinkedNode.key LinkedNode.set_duplicate_count LinkedNode.new].
    rewrite (lookup_app_l_Some _ _ _ _ (lookup_app_l_Some _ _ _ _ Hfc)).
    reflexivity.
  - cbn. reflexivity.
  - reflexivity.
  - cbn. rewrite <- app_assoc. reflexivity.
Qed.

(** Deleting the only key of a tree whose root is a leaf that holds
    one cell, inserted once: both delete operations return what the cell
    holds, the size drops by one and the tree loses its root, while
    [left_most_node] and [right_most_node] keep pointing at the dropped
    leaf. *)
Theorem delete_only_key_drops_root fuel compare (key : K) st b n l f fn fc :
  let probe := BPlusCell.new key None None in
  BPlusTree.root_node (Heap.tree st) = Some b ->
  Heap.nodes st !! b = Some n ->
  BPlusNode.isLeaf n = true ->
  BPlusNode.leftSibling n = None ->
  BPlusNode.rightSibling n = None ->
  BPlusNode.left_most_child n = None ->
  LHeap.llists (Heap.lheap st) !! BPlusNode.cellsList n = Some l ->
  SortedLinkedList.count l = 1 ->
  chain (Heap.lheap st) None (SortedLinkedList.min l) [f] ->
  LHeap.lnodes (Heap.lheap st) !! f = Some fn ->
  LinkedNode.duplicate_count fn = 0 ->
  Heap.cells st !! LinkedNode.key fn = Some fc ->
  compare probe fc = Ok 0 ->
  0 < BPlusTree.half_capacity (Heap.tree st) ->
  0 <= BPlusTree.max_node_size (Heap.tree st) ->
  exists st',
    BB.deleteKey (S fuel) compare key st = Ok (Some (BPlusCell.key fc), st') /\
    BB.deleteKeyReturnValue (S fuel) compare key st = Ok (BPlusCell.value fc, st') /\
    BB.getSize st' = BB.getSize st - 1 /\
    BPlusTree.root_node (Heap.tree st') = None /\
    BPlusTree.left_most_node (Heap.tree st') = BPlusTree.left_most_node (Heap.tree st) /\
    BPlusTree.right_most_node (Heap.tree st') = BPlusTree.right_most_node (Heap.tree st) /\
    Heap.nodes st' = Heap.nodes st.
Proof.
  intros probe Hroot Hn Hleaf Hls Hrs Hlmc Hl Hcount Hc Hf Hdup Hfc Hzero Hhc Hmax.
  destruct (deleteCell_only_key fuel compare key st b n l f fn fc
              Hroot Hn Hleaf Hls Hrs Hlmc Hl Hcount Hc Hf Hdup Hfc Hzero Hhc Hmax)
    as (st' & Hrun & Htree & Hnodes & Hcells).
  exists st'. split; [|split; [|split; [|split; [|split; [|split]]]]].
  - unfold BB.deleteKey. cbn [bind Monad_M]. rewrite Hrun. reflexivity.
  - unfold BB.deleteKeyReturnValue. cbn [bind Monad_M]. rewrite Hrun. reflexivity.
  - unfold BB.getSize. rewrite Htree. reflexivity.
  - rewrite Htree. reflexivity.
  - rewrite Htree. reflexivity.
  - rewrite Htree. reflexivity.
  - exact Hnodes.
Qed.

(** The first insert, into a tree without a root, whatever else the
    state holds: the key is returned, the size grows by one, and a new
    leaf is the root and both ends of the leaf chain; the leaf has no
    parent and no siblings, and its cell list counts one cell, which
    holds the key and the value.  No node and no cell that existed is
    changed. *)
Theorem insert_first_key fuel compare (key : K) (value : option V) st :
  BPlusTree.root_node (Heap.tree st) = None ->
  let b := length (Heap.nodes st) in
  exists st' n,
    BB.insert fuel compare key value st = Ok (Some key, st') /\
    BB.getSize st' = BB.getSize st + 1 /\
    BPlusTree.root_node (Heap.tree st') = Some b /\
    BPlusTree.left_most_node (Heap.tree st') = Some b /\
    BPlusTree.right_most_node (Heap.tree st') = Some b /\
    Heap.nodes st' !! b = Some n /\
    BPlusNode.isLeaf n = true /\
    BPlusNode.parent_node n = None /\
    BPlusNode.leftSibling n = None /\ BPlusNode.rightSibling n = None /\
    hasCount st' b 1 /\
    hasFirstKey st' b key /\
    Heap.cells st' !! length (Heap.cells st) = Some (BPlusCell.mk key value None (Some b)) /\
    (forall i x, Heap.nodes st !! i = Some x -> Heap.nodes st' !! i = Some x) /\
    (forall i c, Heap.cells st !! i = Some c -> Heap.cells st' !! i = Some c).
Proof.
  intros Hroot b.
  assert (Hll : forall (a c : SortedLinkedList.t),
            (LHeap.llists (Heap.lheap st) ++ [a; c])
              !! S (length (LHeap.llists (Heap.lheap st))) = Some c).
  { intros a c. change [a; c] with ([a] ++ [c]). rewrite app_assoc.
    replace (S (length (LHeap.llists (Heap.lheap st))))
      with (length (LHeap.llists (Heap.lheap st) ++ [a])) by (rewrite length_app; cbn; lia).
    apply lookup_snoc_last. }
  eexists (firstState st key value), _.
  split; [apply insert_rootless; exact Hroot|].
  split; [reflexivity|]. split; [reflexivity|]. split; [reflexivity|]. split; [reflexivity|].
  split; [cbn; apply lookup_snoc_last|].
  split; [reflexivity|]. split; [reflexivity|]. split; [reflexivity|]. split; [reflexivity|].
  split; [|split; [|split; [|split]]].
  - do 2 eexists. cbn. split; [apply lookup_snoc_last|]. split; [apply Hll|reflexivity].
  - do 5 eexists. cbn.
    split; [apply lookup_snoc_last|]. split; [apply Hll|].
    split; [reflexivity|]. split; [apply lookup_snoc_last|].
    split; [apply lookup_snoc_last|reflexivity].
  - cbn. apply lookup_snoc_last.
  - intros i x Hx. cbn. apply lookup_app_l_Some. exact Hx.
  - intros i c Hc. cbn. apply lookup_app_l_Some. exact Hc.
Qed.
End FirstInsert.

Section Cache.
Context {K V : Type}.
Variable cmp : K -> K -> Res Z.

(** Through the facade, on a cache whose tree has no root (a new
    cache, or one emptied by deletes) and whose node size is at least 2:
    after [put(key, value)] the size is one more, [get(key)] returns the
    value, [delete(key)] returns it too and restores the size, and
    [get(key)] then returns nothing. *)
Theorem cache_put_get_delete_round_trip fuel (key : K) (value : option V) (st : Heap.t K V) :
  BPlusTree.root_node (Heap.tree st) = None ->
  0 < BPlusTree.half_capacity (Heap.tree st) ->
  0 <= BPlusTree.max_node_size (Heap.tree st) ->
  cmp key key = Ok 0 ->
  exists st1 st2 st3,
    InMemoCache.put cmp fuel key value st = Ok (tt, st1) /\
    InMemoCache.size st1 = InMemoCache.size st + 1 /\
    InMemoCache.get cmp (S fuel) key st1 = Ok (value, st2) /\
    InMemoCache.delete cmp (S fuel) key st2 = Ok (value, st3) /\
    InMemoCache.size st3 = InMemoCache.size st /\
    InMemoCache.get cmp fuel key st3 = Ok (None, st3).
Proof.
  intros Hroot Hhc Hmax Hcmp.
  set (probe := BPlusCell.new (V:=V) key None None).
  set (st1 := firstState st key value).
  set (st2 := Heap.add_cell (Heap.add_cell st1 probe) probe).
  set (b := length (Heap.nodes st)).
  set (stored := BPlusCell.mk key value None (Some b)).
  assert (Hll : LHeap.llists (Heap.lheap st1) !! S (length (LHeap.llists (Heap.lheap st)))
                = Some (SortedLinkedList.mk (Some (length (LHeap.lnodes (Heap.lheap st))))
                          (Some (length (LHeap.lnodes (Heap.lheap st)))) 1)).
  { cbn. match goal with |- (?l ++ [?a; ?c]) !! _ = _ =>
      change [a; c] with ([a] ++ [c]); rewrite app_assoc;
      replace (S (length l)) with (length (l ++ [a])) by (rewrite length_app; cbn; lia) end.
    apply lookup_snoc_last. }
  assert (Hchain : chain (Heap.lheap st1) None (Some (length (LHeap.lnodes (Heap.lheap st))))
                     [length (LHeap.lnodes (Heap.lheap st))]).
  { econstructor; [cbn; apply lookup_snoc_last|reflexivity|constructor]. }
  assert (Hget : BB.searchInLeaf (S fuel) (InMemoCache.comparator cmp) key EqualsTo st1
                 = Ok (Some stored, st2)).
  { eapply (searchInLeaf_leaf_root (S fuel) (InMemoCache.comparator cmp) key EqualsTo st1 b
              _ _ [] _ _ stored []).
    - reflexivity.
    - cbn. apply lookup_snoc_last.
    - reflexivity.
    - exact Hll.
    - exact Hchain.
    - cbn. apply lookup_snoc_last.
    - cbn. apply lookup_snoc_last.
    - intros c ln Hin. apply elem_of_nil in Hin. destruct Hin.
    - exact Hcmp.
    - discriminate.
    - discriminate.
    - cbn. lia. }
  destruct (deleteCell_only_key fuel (InMemoCache.comparator cmp) key st2 b
              (BPlusNode.mk None None None None (S (length (LHeap.llists (Heap.lheap st))))
                 None true)
              (SortedLinkedList.mk (Some (length (LHeap.lnodes (Heap.lheap st))))
                 (Some (length (LHeap.lnodes (Heap.lheap st)))) 1)
              (length (LHeap.lnodes (Heap.lheap st)))
              (LinkedNode.new (length (Heap.cells st)))
              stored) as (st3 & Hdel & Htree & Hnodes & Hcells).
  { reflexivity. }
  { cbn. apply lookup_snoc_last. }
  { reflexivity. }
  { reflexivity. }
  { reflexivity. }
  { reflexivity. }
  { exact Hll. }
  { reflexivity. }
  { exact Hchain. }
  { cbn. apply lookup_snoc_last. }
  { reflexivity. }
  { cbn. rewrite <- !app_assoc. apply list_lookup_middle. reflexivity. }
  { exact Hcmp. }
  { exact Hhc. }
  { exact Hmax. }
  exists st1, st2, st3.
  split; [|split; [|split; [|split; [|split]]]].
  - unfold InMemoCache.put. cbn [bind Monad_M].
    rewrite (insert_rootless fuel _ key value st Hroot). reflexivity.
  - unfold InMemoCache.size. cbn. reflexivity.
  - unfold InMemoCache.get, BB.searchForValue. cbn [bind Monad_M]. rewrite Hget. reflexivity.
  - unfold InMemoCache.delete, BB.deleteKeyReturnValue. cbn [bind Monad_M]. rewrite Hdel.
    reflexivity.
  - unfold InMemoCache.size. rewrite Htree. cbn. lia.
  - unfold InMemoCache.get, BB.searchForValue, BB.searchInLeaf, BB.searchForLeafNode.
    cbn [bind Monad_M]. unfold get_tree. rewrite Htree. reflexivity.
Qed.
End Cache.

Section LeafChains.
Context {K V : Type}.
Implicit Types st : Heap.t K V.

Lemma leafChain_head st o ls : leafChain st o ls -> o = head ls.
Proof. destruct 1; reflexivity. Qed.

Lemma leafChain_det st : forall ls1 ls2 o,
  leafChain st o ls1 -> leafChain st o ls2 -> ls1 = ls2.
Proof.
  induction ls1 as [|b ls1 IH]; intros ls2 o H1 H2.
  - inversion H1; subst. inversion H2; subst. reflexivity.
  - inversion H1 as [|? n ? Hn Hrest]; subst.
    inversion H2 as [|? n' ? Hn' Hrest']; subst.
    rewrite Hn in Hn'. injection Hn' as <-.
    f_equal. eapply IH; eauto.
Qed.

Lemma leafChain_suffix st a : forall o b,
  leafChain st o (a ++ b) -> leafChain st (head b) b.
Proof.
  induction a as [|c a IH]; intros o b Hc.
  - cbn in Hc. rewrite <- (leafChain_head _ _ _ Hc). exact Hc.
  - inversion Hc; subst. eauto.
Qed.

(** A leaf chain ends, so no leaf occurs twice in it. *)
Lemma leafChain_NoDup st o ls : leafChain st o ls -> NoDup ls.
Proof.
  intros Hc. induction Hc as [|b n rest Hn Hc IH]; constructor; [|exact IH].
  intros Hin. apply list_elem_of_split in Hin as (r1 & r2 & ->).
  pose proof (leafChain_suffix _ _ _ _ Hc) as Hsuf. cbn in Hsuf.
  assert (Hfull : leafChain st (Some b) (b :: r1 ++ b :: r2)) by (econstructor; eauto).
  pose proof (leafChain_det _ _ _ _ Hfull Hsuf) as Heq.
  apply (f_equal length) in Heq. cbn in Heq. rewrite length_app in Heq. cbn in Heq. lia.
Qed.
End LeafChains.

Section Ranges.
Context {K V R : Type}.
Implicit Types st : Heap.t K V.
Variable falsy : K -> bool.
Variable emit : BPlusCell.t K V -> R.

(** Once [limit] cells have been pushed, the pagination passes over
    whatever follows. *)
Lemma paginate_saturated st offset limit (ids : list nat) skip count (result : list R) :
  offset <= skip -> limit <> -1 -> count = limit ->
  BB.paginate emit st offset limit ids skip count result = Ok (skip, count, result).
Proof.
  intros Hskip Hlim Hcount. destruct ids as [|n1 rest]; [reflexivity|].
  cbn [BB.paginate]. destruct (Z.geb_spec skip offset); [|lia].
  destruct (Z.eqb_spec limit (-1)); [lia|]. destruct (Z.eqb_spec count limit); [|lia].
  reflexivity.
Qed.

(** The pagination of two leaves in turn is the pagination of their
    cells put together. *)
Lemma paginate_app st offset limit : forall (a b : list nat) skip count (result : list R),
  BB.paginate emit st offset limit (a ++ b) skip count result =
    (let* '(s', c', r') := BB.paginate emit st offset limit a skip count result in
     BB.paginate emit st offset limit b s' c' r').
Proof.
  induction a as [|n1 a IH]; intros b skip count result; [reflexivity|].
  cbn [app BB.paginate].
  destruct (Z.geb_spec skip offset) as [Hge|Hlt].
  - destruct (Z.eqb_spec limit (-1)) as [Hm1|Hm1]; cbn [negb andb].
    + destruct (cellOf st n1) as [c|e]; [|reflexivity]. cbn [bind Monad_Res]. apply IH.
    + destruct (Z.eqb_spec count limit) as [Heq|Hne].
      * cbn [bind Monad_Res]. symmetry. apply paginate_saturated; auto.
      * destruct (cellOf st n1) as [c|e]; [|reflexivity]. cbn [bind Monad_Res]. apply IH.
  - apply IH.
Qed.

(** What the pagination pushes, on the cells [cs] held by [ids]. *)
Lemma paginate_spec st offset limit : forall (ids : list nat) cs skip count result,
  Forall2 (fun n c => Heap.cells st !! n = Some c) ids cs ->
  0 <= count ->
  (limit < 0 \/ count <= limit) ->
  exists skip' count',
    BB.paginate emit st offset limit ids skip count result =
      Ok (skip', count',
          result ++ map emit
            (let rest := drop (Z.to_nat (offset - skip)) cs in
             if limit <? 0 then rest else take (Z.to_nat (limit - count)) rest)).
Proof.
  induction ids as [|n1 ids IH]; intros cs skip count result Hcs Hpos Hlim.
  - inversion Hcs; subst. exists skip, count.
    cbn. rewrite drop_nil. destruct (limit <? 0); cbn; rewrite ?take_nil, app_nil_r; reflexivity.
  - inversion Hcs as [|? c ? cs' Hc Hcs']; subst.
    cbn [BB.paginate].
    destruct (Z.geb_spec skip offset) as [Hge|Hlt].
    + replace (Z.to_nat (offset - skip)) with 0%nat by lia. rewrite drop_0.
      destruct (Z.eqb_spec limit (-1)) as [Hm1|Hm1]; cbn [negb andb].
      * destruct (IH cs' skip (count + 1) (result ++ [emit c]) Hcs' ltac:(lia) ltac:(lia))
          as (s' & c' & Hrun).
        unfold cellOf, deref. rewrite Hc. cbn [bind Monad_Res]. rewrite Hrun.
        exists s', c'.
        replace (Z.to_nat (offset - skip)) with 0%nat by lia. rewrite drop_0.
        destruct (Z.ltb_spec limit 0); [|lia].
        rewrite <- app_assoc. reflexivity.
      * destruct (Z.eqb_spec count limit) as [Heq|Hne].
        -- exists skip, count.
           destruct (Z.ltb_spec limit 0); [lia|].
           replace (Z.to_nat (limit - count)) with 0%nat by lia.
           cbn. rewrite app_nil_r. reflexivity.
        -- destruct (IH cs' skip (count + 1) (result ++ [emit c]) Hcs' ltac:(lia) ltac:(lia))
             as (s' & c' & Hrun).
           unfold cellOf, deref. rewrite Hc. cbn [bind Monad_Res]. rewrite Hrun.
           exists s', c'.
           replace (Z.to_nat (offset - skip)) with 0%nat by lia. rewrite drop_0.
           destruct (Z.ltb_spec limit 0).
           ++ rewrite <- app_assoc. reflexivity.
           ++ replace (Z.to_nat (limit - count)) with (S (Z.to_nat (limit - (count + 1)))) by lia.
              cbn [take map]. rewrite <- app_assoc. reflexivity.
    + destruct (IH cs' (skip + 1) count result Hcs' Hpos Hlim) as (s' & c' & Hrun).
      rewrite Hrun. exists s', c'.
      replace (Z.to_nat (offset - skip)) with (S (Z.to_nat (offset - (skip + 1)))) by lia.
      reflexivity.
Qed.

Lemma probeFor_unbounded (k : option K) st :
  BB.bound falsy k = None -> BB.probeFor falsy k st = Ok (None, st).
Proof. intros Hb. unfold BB.probeFor. rewrite Hb. reflexivity. Qed.

(** Without bounds, the collection on a well-formed leaf gives all the
    cells of the leaf to the pagination. *)
Lemma collectLeaf_unbounded st compare W b ids fuel offset limit skip count (result : list R) :
  leafHolds st compare W b ids ->
  (W <= fuel)%nat ->
  BB.collectLeaf emit fuel compare offset limit None None b skip count result st =
    match BB.paginate emit st offset limit ids skip count result with
    | Ok r => Ok (r, st)
    | Fail e => Fail e
    end.
Proof.
  intros (n & l & ns & nds & Hn & Hl & Hc & Hst & Hids & Hw & Hmax) Hfuel.
  assert (Hstream : LLsearchTillStream fuel st compare (BPlusNode.cellsList n) None None = Ok ids).
  { unfold LLsearchTillStream, LL.searchTillStream, LL.header, deref. rewrite Hl.
    cbn [bind Monad_Res].
    destruct (SortedLinkedList.max l) as [m|].
    - destruct Hmax as (mn & Hmn & Hall).
      unfold LL.node, deref. rewrite Hmn. cbn [bind Monad_Res].
      rewrite (searchTillStream_loop_chain (onCells st compare) (Heap.lheap st) mn false
                 ns nds None _ fuel [] Hc Hst).
      + cbn [app]. subst ids.
        assert (Hflat : flat_map (expand false) nds = map LinkedNode.key nds).
        { clear. induction nds as [|x nds IH]; [reflexivity|].
          cbn [flat_map map]. unfold expand at 1. cbn [app]. rewrite IH. reflexivity. }
        rewrite Hflat. reflexivity.
      + intros x Hx. apply Hall. subst ids. apply list_elem_of_fmap. exists x. auto.
      + lia.
    - subst ns. inversion Hst; subst. reflexivity. }
  unfold BB.collectLeaf. cbn [bind Monad_M].
  unfold getb, read at 1, bnodeOf, deref. rewrite Hn.
  unfold read at 1. rewrite Hstream. unfold read. reflexivity.
Qed.

(** The loop of the range operations along the leaves before the end
    leaf. *)
Lemma range_loop_walk st compare W offset limit startKey endKey e rest :
  BB.bound falsy startKey = None ->
  BB.bound falsy endKey = None ->
  forall ls1 idss o fuel skip count (result : list R),
  leafChain st o (ls1 ++ e :: rest) ->
  e ∉ ls1 ->
  Forall2 (leafHolds st compare W) ls1 idss ->
  (length ls1 + W <= fuel)%nat ->
  BB.range_loop falsy emit fuel compare offset limit startKey endKey (Some e) o
      skip count result st =
    match BB.paginate emit st offset limit (concat idss) skip count result with
    | Ok (s', c', r') => Ok ((Some e, s', c', r'), st)
    | Fail x => Fail x
    end.
Proof.
  intros Hsk Hek.
  induction ls1 as [|b ls1 IH]; intros idss o fuel skip count result Hch Hnot Hall Hfuel.
  - inversion Hall; subst. cbn in Hch. inversion Hch; subst.
    destruct fuel; cbn [BB.range_loop concat BB.paginate];
      (destruct (decide (Some e = Some e)); [reflexivity|congruence]).
  - inversion Hall as [|? ids ? idss' Hb Hall']; subst.
    cbn in Hch. inversion Hch as [|? n ? Hn Hrest]; subst.
    destruct fuel as [|fuel]; [cbn in Hfuel; lia|].
    cbn [BB.range_loop].
    destruct (decide (Some b = Some e)) as [E|_].
    { injection E as ->. exfalso. apply Hnot. apply list_elem_of_here. }
    cbn [bind Monad_M]. rewrite (probeFor_unbounded _ _ Hsk), (probeFor_unbounded _ _ Hek).
    rewrite (collectLeaf_unbounded st compare W b ids (S fuel) offset limit skip count result Hb)
      by (cbn in Hfuel; lia).
    cbn [concat]. rewrite paginate_app.
    destruct (BB.paginate emit st offset limit ids skip count result) as [[[s1 c1] r1]|x];
      [|reflexivity].
    cbn [bind Monad_Res].
    unfold getb, read at 1, bnodeOf, deref. rewrite Hn.
    apply IH; auto.
    + intros Hin. apply Hnot. apply list_elem_of_further. exact Hin.
    + cbn in Hfuel. lia.
Qed.

(** Without bounds (each bound missing or falsy), on a tree whose leaf
    chain runs from [left_most_node] to [right_most_node] through
    well-formed leaves, a range operation returns what it pushes for the
    cells of all the leaves in order, from position [offset] on and at
    most [limit] of them (all of them when [limit] is negative); the
    state is unchanged. *)
Lemma rangeWith_unbounded st compare W fuel offset limit startKey endKey
    (ls : list nat) (idss : list (list nat)) (cs : list (BPlusCell.t K V)) :
  BB.bound falsy startKey = None ->
  BB.bound falsy endKey = None ->
  leafChain st (BPlusTree.left_most_node (Heap.tree st)) ls ->
  BPlusTree.right_most_node (Heap.tree st) = last ls ->
  Forall2 (leafHolds st compare W) ls idss ->
  Forall2 (fun id c => Heap.cells st !! id = Some c) (concat idss) cs ->
  (length ls + W <= fuel)%nat ->
  BB.rangeWith falsy emit fuel compare offset limit startKey endKey st =
    Ok (map emit
          (let rest := drop (Z.to_nat offset) cs in
           if limit <? 0 then rest else take (Z.to_nat limit) rest),
        st).
Proof.
  intros Hsk Hek Hch Hlast Hall Hcs Hfuel.
  destruct (paginate_spec st offset limit (concat idss) cs 0 0 [] Hcs ltac:(lia) ltac:(lia))
    as (s' & c' & Hpag).
  rewrite !Z.sub_0_r in Hpag. cbn [app] in Hpag.
  unfold BB.rangeWith. cbn [bind Monad_M]. unfold get_tree. rewrite Hsk, Hek.
  cbn [ret Monad_M]. rewrite Hlast.
  destruct ls as [|b0 ls0] using rev_ind.
  - inversion Hch as [Hlm|]; subst. inversion Hall; subst. inversion Hcs; subst.
    cbn [last]. destruct (decide (None = None)) as [_|E]; [|congruence].
    cbn. rewrite drop_nil. destruct (limit <? 0); rewrite ?take_nil; reflexivity.
  - clear IHls0. rewrite last_snoc.
    apply Forall2_app_inv_l in Hall as (idss0 & idsl & Hall0 & Hall1 & ->).
    inversion Hall1 as [|? ids ? ? Hb Hnil]; subst. inversion Hnil; subst.
    pose proof (leafChain_NoDup _ _ _ Hch) as Hnd.
    apply NoDup_app in Hnd as (_ & Hdisj & _).
    assert (Hnot : b0 ∉ ls0).
    { intros Hin. apply (Hdisj b0 Hin). apply list_elem_of_here. }
    rewrite length_app in Hfuel. cbn in Hfuel.
    rewrite concat_app in Hpag. cbn [concat] in Hpag. rewrite app_nil_r in Hpag.
    rewrite paginate_app in Hpag.
    destruct (BB.paginate emit st offset limit (concat idss0) 0 0 []) as [[[s1 c1] r1]|x] eqn:Hp0;
      [|discriminate].
    cbn [bind Monad_Res] in Hpag.
    assert (Htail :
      (let* sk := BB.probeFor falsy startKey in
       let* ek := BB.probeFor falsy endKey in
       let* '(_, _, result') :=
         BB.collectLeaf emit fuel compare offset limit sk ek b0 s1 c1 r1 in
       ret result') st =
      Ok (map emit
            (if limit <? 0 then drop (Z.to_nat offset) cs
             else take (Z.to_nat limit) (drop (Z.to_nat offset) cs)), st)).
    { cbn [bind Monad_M]. rewrite (probeFor_unbounded _ _ Hsk), (probeFor_unbounded _ _ Hek).
      rewrite (collectLeaf_unbounded st compare W b0 ids fuel offset limit s1 c1 r1 Hb) by lia.
      rewrite Hpag. reflexivity. }
    cbn [bind Monad_M] in Htail.
    destruct (decide (BPlusTree.left_most_node (Heap.tree st) = Some b0)) as [E|E].
    + rewrite E in Hch. pose proof (leafChain_head _ _ _ Hch) as Hh.
      destruct ls0 as [|x ls0].
      * inversion Hall0; subst. cbn in Hp0. injection Hp0 as <- <- <-.
        rewrite E. destruct (decide (Some b0 = Some b0)) as [_|E']; [|congruence].
        exact Htail.
      * cbn in Hh. injection Hh as <-. exfalso. apply Hnot. apply list_elem_of_here.
    + rewrite (range_loop_walk st compare W offset limit startKey endKey b0 [] Hsk Hek
                 ls0 idss0 _ fuel 0 0 [] Hch Hnot Hall0) by lia.
      rewrite Hp0. destruct (decide (Some b0 = Some b0)) as [_|E']; [|congruence].
      exact Htail.
Qed.
End Ranges.

Section MergeLeft.
Context {K : Type}.
Implicit Types h : LHeap.t K.

(** Splitting a list after index [i] and merging the left half into
    the right one gives the new list all the nodes, linked as they were,
    and the count; its [max] is the node at index [i], the [max] that
    [splitAt] gave the right half, not the last node. *)
Theorem LL_split_merge_left_into_right h list l ns i a b :
  LHeap.llists h !! list = Some l ->
  chain h None (SortedLinkedList.min l) ns ->
  0 <= i < SortedLinkedList.count l - 1 ->
  ns !! Z.to_nat i = Some a ->
  ns !! S (Z.to_nat i) = Some b ->
  exists h',
    (let* '(leftPart, rightPart) := LL.splitAt list i in
     LL.mergeSplittedLeftIntoRight leftPart rightPart) h
      = Ok (length (LHeap.llists h), h') /\
    LHeap.lnodes h' = LHeap.lnodes h /\
    LHeap.llists h' !! length (LHeap.llists h) =
      Some (SortedLinkedList.mk (SortedLinkedList.min l) (Some a) (SortedLinkedList.count l)).
Proof.
  intros Hl Hc Hi Ha Hb.
  destruct (chain_lookup _ _ _ _ _ _ Hc Hb) as (bn & Hbn & Hbl). rewrite Ha in Hbl.
  destruct (chain_lookup _ _ _ _ _ _ Hc Ha) as (an & Han & _).
  pose proof (chain_next _ _ _ _ _ _ _ Hc Ha Han) as Har. rewrite Hb in Har.
  assert (Hab : a <> b).
  { intros ->. pose proof (chain_NoDup _ _ _ _ Hc) as Hnd.
    pose proof (NoDup_lookup _ _ _ _ Hnd Ha Hb). lia. }
  assert (Halt : (a < length (LHeap.lnodes h))%nat) by (eapply lookup_lt_Some; eauto).
  assert (Hblt : (b < length (LHeap.lnodes h))%nat) by (eapply lookup_lt_Some; eauto).
  assert (Hlist : (list < length (LHeap.llists h))%nat) by (eapply lookup_lt_Some; eauto).
  destruct (LL_splitAt_effect h list l ns i a b an bn Hl Hc Hi Ha Hb Han Hbn)
    as (h1 & Hsplit & Hnodes & Hleft & Hright & Hlen).
  eexists. split; [|split].
  - cbn [bind Monad_M]. rewrite Hsplit.
    unfold LL.mergeSplittedLeftIntoRight. cbn [bind Monad_M].
    unfold LL.getl at 1, read, LL.header, deref. rewrite Hleft. cbn [SortedLinkedList.count].
    destruct (Z.eqb_spec (i + 1) 0); [lia|].
    unfold LL.getl at 1, read, LL.header, deref. rewrite Hright.
    cbn [SortedLinkedList.max SortedLinkedList.min LL.modify_node_if].
    unfold LL.modify_node at 1. rewrite Hnodes.
    rewrite list_lookup_insert_ne by lia.
    rewrite list_lookup_insert_eq by exact Halt.
    unfold LL.modify_node at 1. cbn [LHeap.lnodes].
    rewrite list_lookup_insert_ne by exact Hab.
    rewrite list_lookup_insert_eq by len.
    unfold LL.modify_list at 1. cbn [LHeap.llists]. rewrite Hright.
    unfold LL.getl at 1, read, LL.header, deref. cbn [LHeap.llists].
    rewrite list_lookup_insert_ne by lia. rewrite Hleft.
    unfold LL.modify_list at 1. cbn [LHeap.llists].
    rewrite list_lookup_insert_eq by (rewrite Hlen; lia).
    cbn [ret Monad_M]. reflexivity.
  - cbn [LHeap.lnodes].
    replace (LinkedNode.set_rightSibling (Some b) (LinkedNode.set_rightSibling None an)) with an
      by (destruct an; cbn in *; subst; reflexivity).
    replace (LinkedNode.set_leftSibling (Some a) (LinkedNode.set_leftSibling None bn)) with bn
      by (destruct bn; cbn in *; subst; reflexivity).
    apply list_eq. intros j.
    destruct (decide (j = b)) as [->|Hjb].
    + rewrite list_lookup_insert_eq by len. symmetry. exact Hbn.
    + rewrite list_lookup_insert_ne by lia.
      destruct (decide (j = a)) as [->|Hja].
      * rewrite list_lookup_insert_eq by len. symmetry. exact Han.
      * rewrite !list_lookup_insert_ne by lia.
        reflexivity.
  - cbn [LHeap.llists]. rewrite list_lookup_insert_eq by (rewrite length_insert, Hlen; lia).
    unfold SortedLinkedList.set_count, SortedLinkedList.set_min.
    cbn [SortedLinkedList.min SortedLinkedList.max SortedLinkedList.count].
    f_equal. f_equal. lia.
Qed.
End MergeLeft.

Section Adoption.
Context {K V : Type}.
Implicit Types st : Heap.t K V.

Lemma set_parent_node_twice p (x : BPlusNode.t) :
  BPlusNode.set_parent_node p (BPlusNode.set_parent_node p x) = BPlusNode.set_parent_node p x.
Proof. reflexivity. Qed.

Lemma omap_cons_match {A B} (f : A -> option B) x l :
  omap f (x :: l) = match f x with Some y => y :: omap f l | None => omap f l end.
Proof. reflexivity. Qed.

(** The loop that walks a cell list and makes [node] the parent of the
    right child of every cell: only those nodes change, and only in
    their [parent_node]. *)
Lemma adopt_loop_spec node : forall ns nds cs prev o fuel st,
  chain (Heap.lheap st) prev o ns ->
  stored (Heap.lheap st) ns nds ->
  Forall2 (fun nd c => Heap.cells st !! LinkedNode.key nd = Some c) nds cs ->
  (forall r, r ∈ omap BPlusCell.right_child_node cs -> (r < length (Heap.nodes st))%nat) ->
  (length ns <= fuel)%nat ->
  exists st',
    adopt_loop fuel node o st = Ok (tt, st') /\
    Heap.lheap st' = Heap.lheap st /\
    Heap.cells st' = Heap.cells st /\
    Heap.tree st' = Heap.tree st /\
    forall i,
      Heap.nodes st' !! i =
        if decide (i ∈ omap BPlusCell.right_child_node cs)
        then BPlusNode.set_parent_node (Some node) <$> (Heap.nodes st !! i)
        else Heap.nodes st !! i.
Proof.
  induction ns as [|c ns IH]; intros nds cs prev o fuel st Hc Hst Hcs Hkids Hfuel.
  - inversion Hc; subst. inversion Hst; subst. inversion Hcs; subst.
    exists st. split; [destruct fuel; reflexivity|]. repeat split.
  - inversion Hc as [|? ? n ? Hn Hl Hrest]; subst.
    inversion Hst as [|? n' ? nds' Hn' Hst']; subst.
    rewrite Hn in Hn'. injection Hn' as <-.
    inversion Hcs as [|? k ? cs' Hk Hcs']; subst.
    destruct fuel as [|fuel]; [cbn in Hfuel; lia|].
    cbn [adopt_loop bind Monad_M].
    unfold getln at 1, read at 1, lnodeOf, LL.node, deref. rewrite Hn.
    unfold getc at 1, read at 1, cellOf, deref. rewrite Hk.
    destruct (BPlusCell.right_child_node k) as [r|] eqn:Hr.
    + assert (Hrlt : (r < length (Heap.nodes st))%nat).
      { apply Hkids. rewrite omap_cons_match, Hr. apply list_elem_of_here. }
      destruct (lookup_lt_is_Some_2 _ _ Hrlt) as [x Hx].
      cbn [modify_bnode_if]. unfold modify_bnode at 1. rewrite Hx.
      match goal with |- context [getln c ?s] => set (st1 := s) end.
      unfold getln at 1, read at 1, lnodeOf, LL.node, deref.
      cbn [st1 Heap.lheap]. rewrite Hn. fold st1.
      destruct (IH nds' cs' (Some c) (LinkedNode.rightSibling n) fuel st1)
        as (st' & Hrun & Hlh & Hce & Htr & Hnodes); auto.
      { intros r' Hr'. cbn [st1 Heap.nodes]. rewrite length_insert. apply Hkids.
        rewrite omap_cons_match, Hr. apply list_elem_of_further. exact Hr'. }
      { cbn in Hfuel. lia. }
      exists st'. split; [exact Hrun|]. repeat split; auto.
      intros i. rewrite Hnodes. rewrite omap_cons_match, Hr. cbn [st1 Heap.nodes].
      destruct (decide (i ∈ r :: omap BPlusCell.right_child_node cs')) as [F|F].
      * destruct (decide (i = r)) as [->|Hir].
        -- rewrite list_lookup_insert_eq by exact Hrlt. rewrite Hx.
           destruct (decide (r ∈ omap BPlusCell.right_child_node cs')); reflexivity.
        -- rewrite list_lookup_insert_ne by congruence.
           apply elem_of_cons in F as [?|F]; [contradiction|].
           rewrite decide_True by exact F. reflexivity.
      * assert (Hir : i <> r) by (intros ->; apply F, list_elem_of_here).
        rewrite list_lookup_insert_ne by congruence.
        rewrite decide_False; [reflexivity|].
        intros E. apply F, list_elem_of_further, E.
    + cbn [modify_bnode_if ret Monad_M].
      unfold getln at 1, read at 1, lnodeOf, LL.node, deref. rewrite Hn.
      destruct (IH nds' cs' (Some c) (LinkedNode.rightSibling n) fuel st)
        as (st' & Hrun & Hlh & Hce & Htr & Hnodes); auto.
      { intros r' Hr'. apply Hkids. rewrite omap_cons_match, Hr. exact Hr'. }
      { cbn in Hfuel. lia. }
      exists st'. split; [exact Hrun|]. repeat split; auto.
      intros i. rewrite Hnodes. rewrite omap_cons_match, Hr. reflexivity.
Qed.

(** [reinforceParentShipInChildNodes] and [setAsCellsList] on an
    interior node make that node the [parent_node] of the right child of
    every cell of the list they walk, and change no other field of any
    node, no cell and no list; [setAsCellsList] then makes the list the
    node's cell list.  On a leaf the first does nothing and the second
    only sets the cell list. *)
Theorem adoption_sets_parent_of_right_children fuel st node n list l ns nds cs :
  Heap.nodes st !! node = Some n ->
  LHeap.llists (Heap.lheap st) !! list = Some l ->
  chain (Heap.lheap st) None (SortedLinkedList.min l) ns ->
  stored (Heap.lheap st) ns nds ->
  Forall2 (fun nd c => Heap.cells st !! LinkedNode.key nd = Some c) nds cs ->
  (forall r, r ∈ omap BPlusCell.right_child_node cs -> (r < length (Heap.nodes st))%nat) ->
  (length ns <= fuel)%nat ->
  let adopted (i : nat) :=
    if BPlusNode.isLeaf n then Heap.nodes st !! i
    else if decide (i ∈ omap BPlusCell.right_child_node cs)
         then BPlusNode.set_parent_node (Some node) <$> (Heap.nodes st !! i)
         else Heap.nodes st !! i in
  (BPlusNode.cellsList n = list ->
   exists st',
     reinforceParentShipInChildNodes fuel node st = Ok (tt, st') /\
     Heap.lheap st' = Heap.lheap st /\ Heap.cells st' = Heap.cells st /\
     Heap.tree st' = Heap.tree st /\
     forall i, Heap.nodes st' !! i = adopted i) /\
  (exists st',
     setAsCellsList fuel node list st = Ok (tt, st') /\
     Heap.lheap st' = Heap.lheap st /\ Heap.cells st' = Heap.cells st /\
     Heap.tree st' = Heap.tree st /\
     forall i, Heap.nodes st' !! i =
       if decide (i = node) then BPlusNode.set_cellsList list <$> adopted i else adopted i).
Proof.
  intros Hn Hl Hc Hst Hcs Hkids Hfuel adopted.
  assert (Hnlt : (node < length (Heap.nodes st))%nat) by (eapply lookup_lt_Some; eauto).
  destruct (adopt_loop_spec node ns nds cs None _ fuel st Hc Hst Hcs Hkids Hfuel)
    as (st1 & Hrun & Hlh & Hce & Htr & Hnodes).
  split.
  - intros Hlist. subst list.
    unfold reinforceParentShipInChildNodes. cbn [bind Monad_M].
    unfold getb at 1, read at 1, bnodeOf, deref. rewrite Hn.
    subst adopted. cbn beta. destruct (BPlusNode.isLeaf n); cbn [negb].
    + exists st. repeat split.
    + unfold getll, read at 1, listOf, LL.header, deref. rewrite Hl.
      exists st1. split; [exact Hrun|]. repeat split; auto.
  - unfold setAsCellsList. cbn [bind Monad_M].
    unfold getb at 1, read at 1, bnodeOf, deref. rewrite Hn.
    subst adopted. cbn beta. destruct (BPlusNode.isLeaf n); cbn [negb].
    + cbn [ret Monad_M]. unfold modify_bnode. rewrite Hn.
      eexists. split; [reflexivity|]. repeat split.
      intros i. cbn [Heap.nodes]. destruct (decide (i = node)) as [->|Hne].
      * rewrite list_lookup_insert_eq by exact Hnlt. rewrite Hn. reflexivity.
      * rewrite list_lookup_insert_ne by congruence. reflexivity.
    + unfold getll, read at 1, listOf, LL.header, deref. rewrite Hl.
      rewrite Hrun.
      assert (Hn1 : is_Some (Heap.nodes st1 !! node)).
      { rewrite Hnodes. destruct (decide _); rewrite Hn; eauto. }
      destruct Hn1 as [x Hx].
      unfold modify_bnode. rewrite Hx.
      eexists. split; [reflexivity|]. repeat split; auto.
      intros i. cbn [Heap.nodes]. destruct (decide (i = node)) as [->|Hne].
      * rewrite list_lookup_insert_eq by (eapply lookup_lt_Some; eauto).
        rewrite <- Hnodes, Hx. reflexivity.
      * rewrite list_lookup_insert_ne by congruence. apply Hnodes.
Qed.
End Adoption.

Section FindV.
Context {K V : Type}.
Implicit Types st : Heap.t K V.
Variable falsy : K -> bool.
Variable queryComparator : K -> K -> Res Z.

(** The cells of a leaf that a query comparator on cells matches. *)
Lemma LLfind_leaf_cells (qc : ComparatorFunction (BPlusCell.t K V)) st W b cs fuel :
  leafCells st W b cs ->
  (forall c, c ∈ cs -> exists z, qc c c = Ok z) ->
  (W <= fuel)%nat ->
  exists n ids,
    Heap.nodes st !! b = Some n /\
    BB.LLfind fuel st qc (BPlusNode.cellsList n) = Ok ids /\
    Forall2 (fun id c => Heap.cells st !! id = Some c) ids
      (List.filter (matchesQuery qc) cs).
Proof.
  intros (n & l & ns & nds & Hn & Hl & Hc & Hst & Hcs & Hw) Hq Hfuel.
  exists n, (List.filter (matchesQuery (onCells st qc)) (map LinkedNode.key nds)).
  assert (Hon : forall nd c, Heap.cells st !! LinkedNode.key nd = Some c ->
            onCells st qc (LinkedNode.key nd) (LinkedNode.key nd) = qc c c).
  { intros nd c Hk. unfold onCells, cellOf, deref. rewrite Hk. reflexivity. }
  split; [exact Hn|]. split.
  - unfold BB.LLfind, LL.find, LL.header, deref. rewrite Hl. cbn [bind Monad_Res].
    apply (find_loop_chain (onCells st qc) (Heap.lheap st)
             ns nds None _ fuel [] Hc Hst); [|lia].
    intros nd Hnd.
    apply list_elem_of_lookup_1 in Hnd as [i Hi].
    destruct (Forall2_lookup_l _ _ _ _ _ Hcs Hi) as (c & Hci & Hk).
    rewrite (Hon _ _ Hk). apply Hq. eapply list_elem_of_lookup_2; eauto.
  - clear Hc Hst Hw Hl Hn. induction Hcs as [|nd c nds cs Hk Hcs IH]; [constructor|].
    destruct (Hq c (list_elem_of_here _ _)) as [z Hz].
    assert (H1 : matchesQuery (onCells st qc) (LinkedNode.key nd) = (z =? 0))
      by (unfold matchesQuery; rewrite (Hon _ _ Hk), Hz; reflexivity).
    assert (H2 : matchesQuery qc c = (z =? 0))
      by (unfold matchesQuery; rewrite Hz; reflexivity).
    cbn [map List.filter]. rewrite H1, H2.
    destruct (z =? 0).
    + constructor; [exact Hk|]. apply IH. intros; apply Hq. apply list_elem_of_further; auto.
    + apply IH. intros; apply Hq. apply list_elem_of_further; auto.
Qed.

(** The cells of a leaf that the query comparator of [findV] matches. *)
Lemma LLfind_leaf st W b cs fuel :
  leafCells st W b cs ->
  (forall c, c ∈ cs -> exists z, queryComparator (BPlusCell.key c) (BPlusCell.key c) = Ok z) ->
  (W <= fuel)%nat ->
  exists n ids,
    Heap.nodes st !! b = Some n /\
    BB.LLfind fuel st (BB.onKeys queryComparator) (BPlusNode.cellsList n) = Ok ids /\
    Forall2 (fun id c => Heap.cells st !! id = Some c) ids
      (List.filter (fun c => matchesQuery queryComparator (BPlusCell.key c)) cs).
Proof.
  intros Hcs Hq Hfuel.
  exact (LLfind_leaf_cells (BB.onKeys queryComparator) st W b cs fuel Hcs Hq Hfuel).
Qed.

Lemma matchesQuery_true (k : K) :
  matchesQuery queryComparator k = true -> queryComparator k k = Ok 0.
Proof.
  unfold matchesQuery. destruct (queryComparator k k) as [z|e]; [|discriminate].
  intros Hz. apply Z.eqb_eq in Hz. subst z. reflexivity.
Qed.

(** The inner loop of [findV] on the matching cells of one leaf. *)
Lemma findV_matches_spec limit st bookmark :
  BB.bound falsy bookmark = None ->
  forall (ids : list nat) cs result,
  Forall2 (fun id c => Heap.cells st !! id = Some c) ids cs ->
  (forall c, c ∈ cs -> matchesQuery queryComparator (BPlusCell.key c) = true) ->
  BB.findV_matches falsy queryComparator limit st ids bookmark result =
    Ok (bookmark, cutInLeaf limit result (map BPlusCell.value cs)).
Proof.
  intros Hb. induction ids as [|id ids IH]; intros cs result Hcs Hm.
  - inversion Hcs; subst. cbn. unfold cutInLeaf. cbn [map].
    rewrite take_nil. destruct (_ <? _); rewrite app_nil_r; reflexivity.
  - inversion Hcs as [|? c ? cs' Hc Hcs']; subst.
    cbn [BB.findV_matches]. rewrite Hb.
    unfold cellOf, deref. rewrite Hc. cbn [bind Monad_Res].
    rewrite (matchesQuery_true _ (Hm c (list_elem_of_here _ _))). cbn [bind Monad_Res Z.eqb].
    rewrite length_app. cbn [length].
    destruct (Z.eqb_spec (Z.of_nat (length result + 1)) limit) as [Heq|Hne].
    + unfold cutInLeaf. destruct (Z.ltb_spec (Z.of_nat (length result)) limit); [|lia].
      replace (Z.to_nat (limit - Z.of_nat (length result))) with 1%nat by lia.
      cbn [map take]. rewrite take_0. reflexivity.
    + rewrite (IH cs' (result ++ [BPlusCell.value c]) Hcs')
        by (intros; apply Hm; apply list_elem_of_further; assumption).
      unfold cutInLeaf. rewrite length_app. cbn [length map].
      destruct (Z.ltb_spec (Z.of_nat (length result)) limit) as [Hlt|Hge].
      * destruct (Z.ltb_spec (Z.of_nat (length result + 1)) limit); [|lia].
        replace (Z.to_nat (limit - Z.of_nat (length result)))
          with (S (Z.to_nat (limit - Z.of_nat (length result + 1)))) by lia.
        cbn [take]. rewrite <- app_assoc. reflexivity.
      * destruct (Z.ltb_spec (Z.of_nat (length result + 1)) limit); [lia|].
        rewrite <- app_assoc. reflexivity.
Qed.

(** The loop of [findV] along the leaves, without a bookmark. *)
Lemma findV_leaves_spec limit bookmark W st :
  BB.bound falsy bookmark = None ->
  forall ls css o fuel result,
  leafChain st o ls ->
  Forall2 (leafCells st W) ls css ->
  (forall cs c, cs ∈ css -> c ∈ cs ->
     exists z, queryComparator (BPlusCell.key c) (BPlusCell.key c) = Ok z) ->
  (length ls + W <= fuel)%nat ->
  BB.findV_leaves falsy fuel queryComparator limit o bookmark result st =
    Ok (foldl (cutInLeaf limit) result
          (map (fun cs => map BPlusCell.value
                  (List.filter (fun c => matchesQuery queryComparator (BPlusCell.key c)) cs))
               css),
        st).
Proof.
  intros Hb. induction ls as [|b ls IH]; intros css o fuel result Hch Hall Hq Hfuel.
  - inversion Hch; subst. inversion Hall; subst. destruct fuel; reflexivity.
  - inversion Hch as [|? n ? Hn Hrest]; subst.
    inversion Hall as [|? cs ? css' Hcs Hall']; subst.
    destruct fuel as [|fuel]; [cbn in Hfuel; lia|].
    destruct (LLfind_leaf st W b cs (S fuel) Hcs) as (n' & ids & Hn' & Hfind & Hids).
    { intros c Hc. apply (Hq cs c); [apply list_elem_of_here|exact Hc]. }
    { cbn in Hfuel. lia. }
    rewrite Hn in Hn'. injection Hn' as <-.
    cbn [BB.findV_leaves]. rewrite Hb. cbn [bind Monad_M ret].
    unfold getb at 1, read at 1, bnodeOf, deref. rewrite Hn.
    unfold read at 1. rewrite Hfind.
    unfold read at 1.
    rewrite (findV_matches_spec limit st bookmark Hb ids _ result Hids).
    2:{ intros c Hc. apply list_elem_of_In in Hc. apply List.filter_In in Hc as [_ Hc]. exact Hc. }
    unfold getb at 1, read at 1, bnodeOf, deref. rewrite Hn.
    rewrite (IH css' _ fuel _ Hrest Hall').
    + reflexivity.
    + intros cs0 c Hcs0 Hc. apply (Hq cs0 c); [apply list_elem_of_further; exact Hcs0|exact Hc].
    + cbn in Hfuel. lia.
Qed.

(** [findV] without a bookmark, from the leaf it starts at along the
    leaf chain: every leaf adds the values of its cells that the query
    matches, and the [limit] only cuts inside a leaf: the leaf at which
    the result reaches [limit] values is cut there, and every later leaf
    adds all its matching values. *)
Theorem findV_limit_cuts_inside_a_leaf fuel compare bookmark individually limit W st st1 o
    (ls : list nat) (css : list (list (BPlusCell.t K V))) :
  BB.bound falsy bookmark = None ->
  BB.firstLeaf falsy fuel compare (BB.onKeys queryComparator) bookmark st = Ok (o, st1) ->
  leafChain st1 o ls ->
  Forall2 (leafCells st1 W) ls css ->
  (forall cs c, cs ∈ css -> c ∈ cs ->
     exists z, queryComparator (BPlusCell.key c) (BPlusCell.key c) = Ok z) ->
  (length ls + W <= fuel)%nat ->
  BB.findV falsy fuel compare queryComparator bookmark individually limit st =
    Ok (foldl (cutInLeaf limit) []
          (map (fun cs => map BPlusCell.value
                  (List.filter (fun c => matchesQuery queryComparator (BPlusCell.key c)) cs))
               css),
        st1).
Proof.
  intros Hb Hfirst Hch Hall Hq Hfuel.
  unfold BB.findV. cbn [bind Monad_M]. rewrite Hfirst.
  apply (findV_leaves_spec limit bookmark W st1 Hb ls css o fuel [] Hch Hall Hq Hfuel).
Qed.





End FindV.

Section RangesReadOnly.
Context {K V R : Type}.
Implicit Types st : Heap.t K V.
Variable falsy : K -> bool.
Variable emit : BPlusCell.t K V -> R.

Lemma probeFor_grown (k : option K) st p st' :
  BB.probeFor falsy k st = Ok (p, st') -> grown st st'.
Proof.
  unfold BB.probeFor. destruct (BB.bound falsy k) as [k'|].
  - cbn [bind Monad_M]. rewrite createBPlusCell_probe. intros E. injection E as _ <-.
    apply grown_add_cell.
  - intros E. injection E as _ <-. apply grown_refl.
Qed.

Lemma collectLeaf_same fuel compare offset limit sk ek leaf skip count (result : list R) st r st' :
  BB.collectLeaf emit fuel compare offset limit sk ek leaf skip count result st = Ok (r, st') ->
  st' = st.
Proof.
  unfold BB.collectLeaf. cbn [bind Monad_M].
  unfold getb, read at 1. destruct (bnodeOf st leaf) as [n|e]; [|discriminate].
  unfold read at 1. destruct (LLsearchTillStream _ _ _ _ _ _) as [ids|e]; [|discriminate].
  unfold read. destruct (BB.paginate _ _ _ _ _ _ _ _) as [x|e]; [|discriminate].
  intros E. injection E as _ <-. reflexivity.
Qed.

Lemma range_loop_grown compare offset limit startKey endKey endNode :
  forall fuel currentNode skip count (result : list R) st r st',
  BB.range_loop falsy emit fuel compare offset limit startKey endKey endNode currentNode
    skip count result st = Ok (r, st') ->
  grown st st'.
Proof.
  induction fuel as [|fuel IH]; intros currentNode skip count result st r st'.
  - cbn [BB.range_loop]. destruct (decide (currentNode = endNode)) as [D|D]; [|discriminate].
    intros E. injection E as _ <-. apply grown_refl.
  - cbn [BB.range_loop]. destruct (decide (currentNode = endNode)) as [D|D].
    { intros E. injection E as _ <-. apply grown_refl. }
    cbn [bind Monad_M].
    destruct (BB.probeFor falsy startKey st) as [[sk st1]|e] eqn:H1; [|discriminate].
    destruct (BB.probeFor falsy endKey st1) as [[ek st2]|e] eqn:H2; [|discriminate].
    apply probeFor_grown in H1. apply probeFor_grown in H2.
    destruct currentNode as [cn|].
    + destruct (BB.collectLeaf _ _ _ _ _ _ _ _ _ _ _ _) as [[[[s1 c1] r1] st3]|e] eqn:H3;
        [|discriminate].
      apply collectLeaf_same in H3. subst st3.
      unfold getb, read at 1. destruct (bnodeOf st2 cn) as [n|e]; [|discriminate].
      intros Hrun. apply IH in Hrun.
      eapply grown_trans; [exact H1|]. eapply grown_trans; [exact H2|exact Hrun].
    + intros Hrun. apply IH in Hrun.
      eapply grown_trans; [exact H1|]. eapply grown_trans; [exact H2|exact Hrun].
Qed.

Lemma rangeWith_grown fuel compare offset limit startKey endKey st (r : list R) st' :
  BB.rangeWith falsy emit fuel compare offset limit startKey endKey st = Ok (r, st') ->
  grown st st'.
Proof.
  unfold BB.rangeWith. cbn [bind Monad_M]. unfold get_tree at 1.
  assert (Hend : forall k s o s',
    (match BB.bound falsy k with
     | None => ret (BPlusTree.right_most_node (Heap.tree s))
     | Some k' => BB.searchForLeafNode fuel compare k' None
     end) s = Ok (o, s') -> grown s s').
  { intros k s o s'. destruct (BB.bound falsy k).
    - apply searchForLeafNode_grown.
    - intros E. injection E as _ <-. apply grown_refl. }
  assert (Hstart : forall k s o s',
    (match BB.bound falsy k with
     | None => ret (BPlusTree.left_most_node (Heap.tree s))
     | Some k' => BB.searchForLeafNode fuel compare k' None
     end) s = Ok (o, s') -> grown s s').
  { intros k s o s'. destruct (BB.bound falsy k).
    - apply searchForLeafNode_grown.
    - intros E. injection E as _ <-. apply grown_refl. }
  destruct (match BB.bound falsy startKey with
            | None => ret (BPlusTree.left_most_node (Heap.tree st))
            | Some k' => BB.searchForLeafNode fuel compare k' None
            end st) as [[startNode st1]|e] eqn:H1; [|discriminate].
  apply Hstart in H1.
  unfold get_tree at 1.
  destruct (match BB.bound falsy endKey with
            | None => ret (BPlusTree.right_most_node (Heap.tree st1))
            | Some k' => BB.searchForLeafNode fuel compare k' None
            end st1) as [[endNode st2]|e] eqn:H2; [|discriminate].
  apply Hend in H2.
  assert (H12 : grown st st2) by (eapply grown_trans; eauto).
  destruct ((if decide (startNode = endNode) then ret (startNode, 0, 0, [])
             else BB.range_loop falsy emit fuel compare offset limit startKey endKey endNode
                    startNode 0 0 []) st2) as [[[[[cur skip] count] res] st3]|e] eqn:H3;
    [|discriminate].
  assert (H23 : grown st2 st3).
  { destruct (decide (startNode = endNode)) as [D|D].
    - injection H3 as _ _ _ _ <-. apply grown_refl.
    - eapply range_loop_grown; eauto. }
  destruct cur as [cn|]; [|intros E; injection E as _ <-; eapply grown_trans; eauto].
  destruct (decide (Some cn = endNode)) as [D|D];
    [|intros E; injection E as _ <-; eapply grown_trans; eauto].
  cbn [bind Monad_M].
  destruct (BB.probeFor falsy startKey st3) as [[sk st4]|e] eqn:H4; [|discriminate].
  destruct (BB.probeFor falsy endKey st4) as [[ek st5]|e] eqn:H5; [|discriminate].
  apply probeFor_grown in H4. apply probeFor_grown in H5.
  destruct (BB.collectLeaf _ _ _ _ _ _ _ _ _ _ _ _) as [[[[s1 c1] r1] st6]|e] eqn:H6;
    [|discriminate].
  apply collectLeaf_same in H6. subst st6.
  intros E. injection E as _ <-.
  eapply grown_trans; [exact H12|]. eapply grown_trans; [exact H23|].
  eapply grown_trans; eauto.
Qed.
End RangesReadOnly.

Section RangesPublic.
Context {K V : Type}.
Implicit Types st : Heap.t K V.
Variable falsy : K -> bool.

(** The three range operations never change the tree: whatever the
    bounds, when they return, the tree record, the nodes, the cell lists
    and the cells are as before; only probe cells have been
    allocated. *)
Theorem ranges_only_add_cells fuel compare offset limit (startKey endKey : option K) st :
  (forall r st',
     BB.searchForRangeWithPagination falsy fuel compare offset limit startKey endKey st
       = Ok (r, st') -> grown st st') /\
  (forall r st',
     BB.searchForRangeWithPaginationV (V:=V) falsy fuel compare offset limit startKey endKey st
       = Ok (r, st') -> grown st st') /\
  (forall r st',
     BB.searchForRangeWithPaginationKVP (V:=V) falsy fuel compare offset limit startKey endKey st
       = Ok (r, st') -> grown st st').
Proof.
  split; [|split]; intros r st'; apply rangeWith_grown.
Qed.

(** Without bounds (each bound missing or falsy), on a tree whose leaf
    chain runs from [left_most_node] to [right_most_node] through
    well-formed leaves, the three range operations return the keys, the
    values and the pairs of the cells of all the leaves in order, from
    position [offset] on and at most [limit] of them (all of them when
    [limit] is negative); the state is unchanged. *)
Theorem range_unbounded_is_window st compare W fuel offset limit (startKey endKey : option K)
    (ls : list nat) (idss : list (list nat)) (cs : list (BPlusCell.t K V)) :
  BB.bound falsy startKey = None ->
  BB.bound falsy endKey = None ->
  leafChain st (BPlusTree.left_most_node (Heap.tree st)) ls ->
  BPlusTree.right_most_node (Heap.tree st) = last ls ->
  Forall2 (leafHolds st compare W) ls idss ->
  Forall2 (fun id c => Heap.cells st !! id = Some c) (concat idss) cs ->
  (length ls + W <= fuel)%nat ->
  let window :=
    let rest := drop (Z.to_nat offset) cs in
    if limit <? 0 then rest else take (Z.to_nat limit) rest in
  BB.searchForRangeWithPagination falsy fuel compare offset limit startKey endKey st =
    Ok (map BPlusCell.key window, st) /\
  BB.searchForRangeWithPaginationV falsy fuel compare offset limit startKey endKey st =
    Ok (map BPlusCell.value window, st) /\
  BB.searchForRangeWithPaginationKVP falsy fuel compare offset limit startKey endKey st =
    Ok (map (fun c => (BPlusCell.key c, BPlusCell.value c)) window, st).
Proof.
  intros Hsk Hek Hch Hlast Hall Hcs Hfuel window.
  split; [|split]; eapply rangeWith_unbounded; eauto.
Qed.
End RangesPublic.

Section DeletePresent.
Context {K : Type}.
Implicit Types h : LHeap.t K.
Variable compare : K -> K -> Res Z.

(** A chain that starts at a node whose [leftSibling] has been reset. *)
Lemma chain_relink h h' prev prev0 post :
  chain h prev0 (head post) post ->
  (forall g gn, head post = Some g -> LHeap.lnodes h !! g = Some gn ->
     LHeap.lnodes h' !! g = Some (LinkedNode.set_leftSibling prev gn)) ->
  (forall c, c ∈ tail post -> LHeap.lnodes h' !! c = LHeap.lnodes h !! c) ->
  chain h' prev (head post) post.
Proof.
  intros Hc Hg Hrest.
  destruct post as [|g post']; [constructor|].
  inversion Hc as [|? ? gn ? Hgn Hgl Hpost']; subst.
  cbn [head]. econstructor.
  - apply Hg; [reflexivity|exact Hgn].
  - reflexivity.
  - cbn. eapply chain_ext; [|exact Hpost']. intros c Hin. apply Hrest. exact Hin.
Qed.

(** Deleting a key that the node [f] of a sorted, well-linked list
    holds, when the list's [count] is not 1 and its [max], if it is [f],
    is the last node: the call returns a new node, a copy of [f] with no
    siblings; [f] is unlinked and loses its siblings; the list's [min] is
    then its first remaining node, its [max] moves to the node before [f]
    when [f] was the [max] (and not the [min]), and its [count] drops by
    one more than the duplicate count of [f].  Every other node keeps its
    key and duplicate count. *)
Theorem LL_deleteNode_unlinks fuel h list l pre f fn post key :
  LHeap.llists h !! list = Some l ->
  chain h None (SortedLinkedList.min l) (pre ++ f :: post) ->
  LHeap.lnodes h !! f = Some fn ->
  (forall c n, c ∈ pre -> LHeap.lnodes h !! c = Some n ->
               exists z, compare key (LinkedNode.key n) = Ok z /\ 0 < z) ->
  compare key (LinkedNode.key fn) = Ok 0 ->
  SortedLinkedList.count l <> 1 ->
  (SortedLinkedList.max l = Some f -> post = []) ->
  (length pre < fuel)%nat ->
  let copy := LinkedNode.mk None None (LinkedNode.duplicate_count fn) (LinkedNode.key fn) in
  exists h',
    LL.deleteNode compare fuel list key h = Ok (Some (length (LHeap.lnodes h)), h') /\
    LHeap.lnodes h' !! length (LHeap.lnodes h) = Some copy /\
    LHeap.lnodes h' !! f = Some copy /\
    LHeap.llists h' !! list =
      Some (SortedLinkedList.mk
              (head (pre ++ post))
              (match pre with
               | [] => SortedLinkedList.max l
               | _ :: _ => if decide (SortedLinkedList.max l = Some f)
                           then lastOr None pre else SortedLinkedList.max l
               end)
              (SortedLinkedList.count l - (LinkedNode.duplicate_count fn + 1))) /\
    chain h' None (head (pre ++ post)) (pre ++ post) /\
    (forall c n, LHeap.lnodes h !! c = Some n ->
       exists n', LHeap.lnodes h' !! c = Some n' /\
                  LinkedNode.key n' = LinkedNode.key n /\
                  LinkedNode.duplicate_count n' = LinkedNode.duplicate_count n).
Proof.
  intros Hl Hc Hf Hpre Hzero Hcount Hmaxlast Hfuel copy.
  set (D := length (LHeap.lnodes h)).
  set (Dn := LinkedNode.set_duplicate_count (LinkedNode.duplicate_count fn)
               (LinkedNode.new (LinkedNode.key fn))).
  set (h1 := LHeap.mk (LHeap.lnodes h ++ [Dn]) (LHeap.llists h)).
  assert (Hllt : (list < length (LHeap.llists h))%nat) by (eapply lookup_lt_Some; eauto).
  assert (Hflt : (f < D)%nat) by (eapply lookup_lt_Some; eauto).
  assert (Hnd : NoDup (pre ++ f :: post)) by (eapply chain_NoDup; eauto).
  assert (Hbound : forall c, c ∈ pre ++ f :: post -> (c < D)%nat)
    by (intros; eapply chain_bound; eauto).
  assert (Hold : forall c n, LHeap.lnodes h !! c = Some n -> (c < D)%nat)
    by (intros c n Hn; eapply lookup_lt_Some; eauto).
  assert (Hlen1 : length (LHeap.lnodes h1) = S D) by (cbn; rewrite length_app; cbn; lia).
  assert (Hmin : SortedLinkedList.min l = head (pre ++ f :: post)) by (eapply chain_head; eauto).
  destruct (search_loop_equal compare h key EqualsTo f fn post ltac:(discriminate) Hf Hzero
              pre None (SortedLinkedList.min l) fuel None None None Hc Hpre Hfuel)
    as [lte' Hloop].
  assert (Hsearch : LL.search compare fuel h list key EqualsTo = Ok (Some f)).
  { unfold LL.search, LL.header, deref. rewrite Hl. cbn [bind Monad_Res].
    destruct (SortedLinkedList.min l) as [m|] eqn:Hm.
    - rewrite Hloop. reflexivity.
    - destruct pre; discriminate. }
  apply NoDup_app in Hnd as (Hnd1 & Hdisj & Hnd2).
  assert (Hfpost : f ∉ post) by (inversion Hnd2; assumption).
  assert (Hfpre : f ∉ pre) by (intros Hin; apply (Hdisj f Hin); apply list_elem_of_here).
  assert (Hpi : (pre ++ f :: post) !! length pre = Some f)
    by (apply list_lookup_middle; reflexivity).
  pose proof (chain_next _ _ _ _ _ _ _ Hc Hpi Hf) as Hfr.
  assert (Hfr' : LinkedNode.rightSibling fn = head post).
  { rewrite Hfr. rewrite lookup_app_r by lia.
    replace (S (length pre) - length pre)%nat with 1%nat by lia. destruct post; reflexivity. }
  destruct (chain_lookup _ _ _ _ _ _ Hc Hpi) as (fn0 & Hfn0 & Hfl).
  rewrite Hf in Hfn0. injection Hfn0 as <-.
  destruct (chain_suffix _ _ _ _ _ Hc) as [pv Hsuf]. cbn [head] in Hsuf.
  inversion Hsuf as [|? ? fn1 ? Hfn1 Hfl1 Hcpost]; subst.
  rewrite Hf in Hfn1. injection Hfn1 as <-. rewrite Hfr' in Hcpost.
  assert (Hf1 : LHeap.lnodes h1 !! f = Some fn) by (cbn; apply lookup_app_l_Some; exact Hf).
  assert (Hkeep : forall L' : Datatypes.list (LinkedNode.t K),
    (forall c n, c <> f -> LHeap.lnodes h !! c = Some n ->
       exists n', L' !! c = Some n' /\ LinkedNode.key n' = LinkedNode.key n /\
                  LinkedNode.duplicate_count n' = LinkedNode.duplicate_count n) ->
    L' !! f = Some copy ->
    forall c n, LHeap.lnodes h !! c = Some n ->
      exists n', L' !! c = Some n' /\ LinkedNode.key n' = LinkedNode.key n /\
                 LinkedNode.duplicate_count n' = LinkedNode.duplicate_count n).
  { intros L' Hother Hfc c n Hn. destruct (decide (c = f)) as [->|Hcf].
    - rewrite Hf in Hn. injection Hn as <-. exists copy. split; [exact Hfc|split; reflexivity].
    - apply Hother; assumption. }
  destruct pre as [|p pre' _] using rev_ind.
  - (* [f] is the first node *)
    cbn [app] in *. cbn [head] in Hmin. cbn [length] in Hfl.
    set (h2 := LHeap.mk (LHeap.lnodes h1)
                 (<[list := SortedLinkedList.set_min (head post) l]> (LHeap.llists h))).
    assert (Hgsome : forall g, head post = Some g -> is_Some (LHeap.lnodes h2 !! g)).
    { intros g Hg. apply lookup_lt_is_Some_2. cbn [h2 LHeap.lnodes]. rewrite Hlen1.
      assert (g < D)%nat; [|lia]. apply Hbound. apply list_elem_of_further.
      destruct post; [discriminate|]. injection Hg as ->. apply list_elem_of_here. }
    destruct (modify_node_if_spec (head post) (LinkedNode.set_leftSibling None) h2 Hgsome)
      as (L' & Hrun & HlenL & Hhead & Hother).
    cbn [h2 LHeap.lnodes LHeap.llists] in HlenL, Hhead, Hother.
    assert (Hnf : head post <> Some f).
    { intros E. apply Hfpost. destruct post; [discriminate|]. injection E as ->.
      apply list_elem_of_here. }
    assert (HLf : L' !! f = Some fn) by (rewrite (Hother f Hnf); exact Hf1).
    assert (HfL : (f < length L')%nat) by (rewrite HlenL, Hlen1; lia).
    eexists. split; [|split; [|split; [|split; [|split]]]].
    + unfold LL.deleteNode. cbn [bind Monad_M]. unfold read at 1. rewrite Hsearch.
      unfold LL.getn at 1, read at 1, LL.node, deref. rewrite Hf.
      cbn [LL.alloc_node].
      unfold LL.modify_node at 1. cbn [LHeap.lnodes LHeap.llists].
      rewrite lookup_snoc_last, insert_snoc_last. fold Dn. fold h1.
      unfold LL.getl at 1, read at 1, LL.header, deref. cbn [h1 LHeap.llists]. rewrite Hl.
      fold h1. destruct (Z.eqb_spec (SortedLinkedList.count l) 1) as [E|_]; [contradiction|].
      destruct (decide (Some f = SortedLinkedList.min l)) as [_|E]; [|congruence].
      unfold LL.modify_list at 1. cbn [h1 LHeap.llists LHeap.lnodes]. rewrite Hl.
      unfold LL.getn at 1, read at 1, LL.node, deref. cbn [LHeap.lnodes].
      rewrite (lookup_app_l_Some _ _ _ _ Hf). rewrite Hfr'.
      match goal with |- context [LL.modify_node_if (head post) _ ?s] => change s with h2 end.
      rewrite Hrun. cbn [h2 LHeap.llists LHeap.lnodes].
      unfold LL.modify_node at 1. cbn [LHeap.lnodes LHeap.llists]. rewrite HLf.
      unfold LL.getn at 1, read at 1, LL.node, deref. cbn [LHeap.lnodes].
      rewrite list_lookup_insert_eq by exact HfL.
      cbn [LinkedNode.leftSibling LinkedNode.rightSibling LinkedNode.set_rightSibling].
      rewrite Hfl. cbn [LL.modify_node_if ret Monad_M].
      unfold LL.modify_node at 1. cbn [LHeap.lnodes LHeap.llists].
      rewrite list_lookup_insert_eq by exact HfL.
      unfold LL.modify_node at 1. cbn [LHeap.lnodes LHeap.llists].
      rewrite list_lookup_insert_eq by (rewrite length_insert; exact HfL).
      unfold LL.modify_list at 1. cbn [LHeap.lnodes LHeap.llists].
      rewrite list_lookup_insert_eq by exact Hllt.
      reflexivity.
    + cbn [LHeap.lnodes]. rewrite !list_lookup_insert_ne by lia.
      rewrite Hother.
      * unfold D. cbn [h1 LHeap.lnodes]. rewrite lookup_snoc_last. reflexivity.
      * intros E. assert (D < D)%nat; [|lia]. apply Hbound. apply list_elem_of_further.
        destruct post; [discriminate|]. injection E as ->. apply list_elem_of_here.
    + cbn [LHeap.lnodes]. rewrite list_lookup_insert_eq by (rewrite !length_insert; exact HfL).
      unfold copy, LinkedNode.set_rightSibling, LinkedNode.set_leftSibling. cbn. reflexivity.
    + cbn [LHeap.llists]. rewrite list_lookup_insert_eq by (rewrite length_insert; exact Hllt).
      reflexivity.
    + eapply (chain_relink h _ None (Some f) post Hcpost).
      * intros g gn Hg Hgn. cbn [LHeap.lnodes].
        assert (g <> f) by (intros ->; apply Hnf, Hg).
        rewrite !list_lookup_insert_ne by congruence.
        rewrite (Hhead g Hg). cbn [h1 LHeap.lnodes].
        rewrite (lookup_app_l_Some _ _ _ _ Hgn). reflexivity.
      * intros c Hin. cbn [LHeap.lnodes].
        assert (Hcp : c ∈ post) by (destruct post; [inversion Hin|apply list_elem_of_further; exact Hin]).
        assert (c <> f) by (intros ->; contradiction).
        rewrite !list_lookup_insert_ne by congruence.
        rewrite Hother.
        -- cbn. apply lookup_app_l. apply Hbound. apply list_elem_of_further. exact Hcp.
        -- intros E. destruct post as [|g post']; [discriminate|]. injection E as ->.
           cbn in Hin. inversion Hnd2 as [|? ? ? Hnd3]; subst. inversion Hnd3; subst. contradiction.
    + apply Hkeep.
      * intros c n Hcf Hn.
        cbn [LHeap.lnodes]. rewrite !list_lookup_insert_ne by congruence.
        destruct (decide (head post = Some c)) as [E|E].
        -- rewrite (Hhead c E). cbn [h1 LHeap.lnodes]. rewrite (lookup_app_l_Some _ _ _ _ Hn).
           eexists. split; [reflexivity|split; reflexivity].
        -- rewrite (Hother c E). cbn [h1 LHeap.lnodes]. rewrite (lookup_app_l_Some _ _ _ _ Hn).
           eexists. split; [reflexivity|split; reflexivity].
      * cbn [LHeap.lnodes]. rewrite list_lookup_insert_eq by (rewrite !length_insert; exact HfL).
        reflexivity.
  - (* [f] has a predecessor [p] *)
    assert (Hc' : chain h None (SortedLinkedList.min l) (pre' ++ p :: f :: post)).
    { rewrite <- app_assoc in Hc. exact Hc. }
    assert (Hpi' : (pre' ++ p :: f :: post) !! S (length pre') = Some f).
    { rewrite lookup_app_r by lia.
      replace (S (length pre') - length pre')%nat with 1%nat by lia. reflexivity. }
    assert (Hpp : (pre' ++ p :: f :: post) !! length pre' = Some p)
      by (apply list_lookup_middle; reflexivity).
    destruct (chain_lookup _ _ _ _ _ _ Hc' Hpi') as (fn0 & Hfn0 & Hfl').
    rewrite Hf in Hfn0. injection Hfn0 as <-. rewrite Hpp in Hfl'. clear Hfl.
    destruct (chain_lookup _ _ _ _ _ _ Hc' Hpp) as (pn & Hpn & _).
    assert (Hpf : p <> f).
    { intros ->. apply Hfpre. apply elem_of_app. right. apply list_elem_of_here. }
    assert (Hplt : (p < D)%nat) by (eapply Hold; eauto).
    assert (Hpn1 : LHeap.lnodes h1 !! p = Some pn) by (cbn; apply lookup_app_l_Some; exact Hpn).
    assert (Hppost : p ∉ post).
    { intros Hin. apply (Hdisj p); [apply elem_of_app; right; apply list_elem_of_here|].
      apply list_elem_of_further. exact Hin. }
    assert (Hpre'p : forall c, c ∈ pre' -> c <> p /\ c <> f /\ (c < D)%nat /\ c ∉ post).
    { intros c Hin. apply NoDup_app in Hnd1 as (_ & Hd1 & _).
      repeat split.
      - intros ->. apply (Hd1 p Hin). apply list_elem_of_here.
      - intros ->. apply Hfpre. apply elem_of_app. left. exact Hin.
      - apply Hbound. apply elem_of_app. left. apply elem_of_app. left. exact Hin.
      - intros Hcp. apply (Hdisj c); [apply elem_of_app; left; exact Hin|].
        apply list_elem_of_further. exact Hcp. }
    assert (Hminf : Some f <> SortedLinkedList.min l).
    { rewrite Hmin. intros E. apply Hfpre.
      destruct pre' as [|x pre']; cbn in E; injection E as <-.
      - apply elem_of_app. right. apply list_elem_of_here.
      - cbn. apply list_elem_of_here. }
    assert (Hhd : head ((pre' ++ [p]) ++ post) = SortedLinkedList.min l).
    { rewrite Hmin. destruct pre'; reflexivity. }
    assert (Hmatch : forall (A : Type) (x y : A),
              match pre' ++ [p] with [] => x | _ :: _ => y end = y)
      by (intros; destruct pre'; reflexivity).
    rewrite Hhd, Hmatch.
    destruct (decide (SortedLinkedList.max l = Some f)) as [Hmx|Hmx].
    + (* [f] is the [max], and the last node *)
      pose proof (Hmaxlast Hmx) as ->. cbn [head] in Hfr'. rewrite app_nil_r.
      eexists. split; [|split; [|split; [|split; [|split]]]].
      * unfold LL.deleteNode. cbn [bind Monad_M]. unfold read at 1. rewrite Hsearch.
        unfold LL.getn at 1, read at 1, LL.node, deref. rewrite Hf.
        cbn [LL.alloc_node].
        unfold LL.modify_node at 1. cbn [LHeap.lnodes LHeap.llists].
        rewrite lookup_snoc_last, insert_snoc_last. fold Dn. fold h1.
        unfold LL.getl at 1, read at 1, LL.header, deref. cbn [h1 LHeap.llists]. rewrite Hl.
        fold h1. destruct (Z.eqb_spec (SortedLinkedList.count l) 1) as [E|_]; [contradiction|].
        destruct (decide (Some f = SortedLinkedList.min l)) as [E|_]; [contradiction|].
        destruct (decide (Some f = SortedLinkedList.max l)) as [_|E]; [|congruence].
        unfold LL.modify_list at 1. cbn [h1 LHeap.llists LHeap.lnodes]. rewrite Hl.
        unfold LL.getn at 1, read at 1, LL.node, deref. cbn [LHeap.lnodes].
        rewrite (lookup_app_l_Some _ _ _ _ Hf). rewrite Hfl'.
        cbn [LL.modify_node_if].
        unfold LL.modify_node at 1. cbn [LHeap.lnodes LHeap.llists].
        rewrite (lookup_app_l_Some _ _ _ _ Hpn).
        unfold LL.modify_node at 1. cbn [LHeap.lnodes LHeap.llists].
        rewrite list_lookup_insert_ne by exact Hpf. rewrite (lookup_app_l_Some _ _ _ _ Hf).
        unfold LL.getn at 1, read at 1, LL.node, deref. cbn [LHeap.lnodes].
        rewrite list_lookup_insert_eq by (rewrite length_insert, length_app; cbn; lia).
        cbn [LinkedNode.leftSibling LinkedNode.rightSibling LinkedNode.set_leftSibling].
        rewrite Hfr'. cbn [LL.modify_node_if ret Monad_M].
        unfold LL.modify_node at 1. cbn [LHeap.lnodes LHeap.llists].
        rewrite list_lookup_insert_eq by (rewrite length_insert, length_app; cbn; lia).
        unfold LL.modify_node at 1. cbn [LHeap.lnodes LHeap.llists].
        rewrite list_lookup_insert_eq by (rewrite !length_insert, length_app; cbn; lia).
        unfold LL.modify_list at 1. cbn [LHeap.lnodes LHeap.llists].
        rewrite list_lookup_insert_eq by exact Hllt.
        reflexivity.
      * cbn [LHeap.lnodes]. rewrite !list_lookup_insert_ne by lia.
        unfold D. rewrite lookup_snoc_last. reflexivity.
      * cbn [LHeap.lnodes].
        rewrite list_lookup_insert_eq by (rewrite !length_insert, length_app; cbn; lia).
        reflexivity.
      * cbn [LHeap.llists]. rewrite list_lookup_insert_eq by (rewrite length_insert; exact Hllt).
        rewrite lastOr_app. reflexivity.
      * eapply (chain_insert_after h _ p pn [] pre' None _ (f :: []) Hc').
        -- intros c Hin. destruct (Hpre'p c Hin) as (? & ? & ? & _). cbn [LHeap.lnodes].
           rewrite !list_lookup_insert_ne by congruence. apply lookup_app_l. assumption.
        -- exact Hpn.
        -- eexists. split; [|split].
           ++ cbn [LHeap.lnodes]. rewrite !list_lookup_insert_ne by congruence.
              apply list_lookup_insert_eq. rewrite length_app. cbn. lia.
           ++ reflexivity.
           ++ constructor.
      * apply Hkeep.
        -- intros c n Hcf Hn. cbn [LHeap.lnodes]. rewrite !list_lookup_insert_ne by congruence.
           destruct (decide (c = p)) as [->|Hcp].
           ++ rewrite list_lookup_insert_eq by (rewrite length_app; cbn; lia).
              rewrite Hpn in Hn. injection Hn as <-.
              eexists. split; [reflexivity|split; reflexivity].
           ++ rewrite list_lookup_insert_ne by congruence.
              rewrite (lookup_app_l_Some _ _ _ _ Hn).
              eexists. split; [reflexivity|split; reflexivity].
        -- cbn [LHeap.lnodes].
           rewrite list_lookup_insert_eq by (rewrite !length_insert, length_app; cbn; lia).
           reflexivity.
    + (* [f] is not the [max] *)
      set (h3 := LHeap.mk (<[p := LinkedNode.set_rightSibling (head post) pn]> (LHeap.lnodes h1))
                   (LHeap.llists h)).
      assert (Hlen3 : length (LHeap.lnodes h3) = S D)
        by (cbn [h3 LHeap.lnodes]; rewrite length_insert; exact Hlen1).
      assert (Hgsome : forall g, head post = Some g -> is_Some (LHeap.lnodes h3 !! g)).
      { intros g Hg. apply lookup_lt_is_Some_2. rewrite Hlen3.
        assert (g < D)%nat; [|lia]. apply Hbound. apply elem_of_app. right.
        apply list_elem_of_further.
        destruct post; [discriminate|]. injection Hg as ->. apply list_elem_of_here. }
      destruct (modify_node_if_spec (head post) (LinkedNode.set_leftSibling (Some p)) h3 Hgsome)
        as (L' & Hrun & HlenL & Hhead & Hother).
      assert (Hnf : head post <> Some f).
      { intros E. apply Hfpost. destruct post; [discriminate|]. injection E as ->.
        apply list_elem_of_here. }
      assert (Hnp : head post <> Some p).
      { intros E. apply Hppost. destruct post; [discriminate|]. injection E as ->.
        apply list_elem_of_here. }
      assert (HLf : L' !! f = Some fn).
      { rewrite (Hother f Hnf). cbn [h3 LHeap.lnodes].
        rewrite list_lookup_insert_ne by exact Hpf. exact Hf1. }
      assert (HLp : L' !! p = Some (LinkedNode.set_rightSibling (head post) pn)).
      { rewrite (Hother p Hnp). cbn [h3 LHeap.lnodes].
        apply list_lookup_insert_eq. rewrite Hlen1. lia. }
      assert (HfL : (f < length L')%nat) by (rewrite HlenL, Hlen3; lia).
      eexists. split; [|split; [|split; [|split; [|split]]]].
      * unfold LL.deleteNode. cbn [bind Monad_M]. unfold read at 1. rewrite Hsearch.
        unfold LL.getn at 1, read at 1, LL.node, deref. rewrite Hf.
        cbn [LL.alloc_node].
        unfold LL.modify_node at 1. cbn [LHeap.lnodes LHeap.llists].
        rewrite lookup_snoc_last, insert_snoc_last. fold Dn. fold h1.
        unfold LL.getl at 1, read at 1, LL.header, deref. cbn [h1 LHeap.llists]. rewrite Hl.
        fold h1. destruct (Z.eqb_spec (SortedLinkedList.count l) 1) as [E|_]; [contradiction|].
        destruct (decide (Some f = SortedLinkedList.min l)) as [E|_]; [contradiction|].
        destruct (decide (Some f = SortedLinkedList.max l)) as [E|_]; [congruence|].
        cbn [ret Monad_M].
        unfold LL.getn at 1, read at 1, LL.node, deref. rewrite Hf1.
        rewrite Hfl', Hfr'. cbn [LL.modify_node_if].
        unfold LL.modify_node at 1. rewrite Hpn1.
        change (LHeap.llists h1) with (LHeap.llists h). fold h3.
        rewrite Hrun. cbn [h3 LHeap.llists].
        unfold LL.modify_node at 1. cbn [LHeap.lnodes LHeap.llists]. rewrite HLf.
        unfold LL.modify_node at 1. cbn [LHeap.lnodes LHeap.llists].
        rewrite list_lookup_insert_eq by exact HfL.
        unfold LL.modify_list at 1. cbn [LHeap.lnodes LHeap.llists]. rewrite Hl.
        reflexivity.
      * cbn [LHeap.lnodes]. rewrite !list_lookup_insert_ne by lia.
        rewrite Hother.
        -- cbn [h3 LHeap.lnodes]. rewrite list_lookup_insert_ne by lia.
           unfold D. cbn [h1 LHeap.lnodes]. rewrite lookup_snoc_last. reflexivity.
        -- intros E. assert (D < D)%nat; [|lia]. apply Hbound. apply elem_of_app. right.
           apply list_elem_of_further.
           destruct post; [discriminate|]. injection E as ->. apply list_elem_of_here.
      * cbn [LHeap.lnodes]. rewrite list_lookup_insert_eq by (rewrite !length_insert; exact HfL).
        reflexivity.
      * cbn [LHeap.llists]. rewrite list_lookup_insert_eq by exact Hllt. reflexivity.
      * rewrite <- app_assoc. cbn [app].
        eapply (chain_insert_after h _ p pn post pre' None _ (f :: post) Hc').
        -- intros c Hin. destruct (Hpre'p c Hin) as (? & ? & ? & Hcpst). cbn [LHeap.lnodes].
           rewrite !list_lookup_insert_ne by congruence.
           rewrite Hother.
           ++ cbn [h3 LHeap.lnodes]. rewrite list_lookup_insert_ne by congruence.
              apply lookup_app_l. assumption.
           ++ intros E. apply Hcpst. destruct post; [discriminate|]. injection E as ->.
              apply list_elem_of_here.
        -- exact Hpn.
        -- eexists. split; [|split].
           ++ cbn [LHeap.lnodes]. rewrite !list_lookup_insert_ne by congruence. exact HLp.
           ++ reflexivity.
           ++ cbn [LinkedNode.rightSibling LinkedNode.set_rightSibling].
              eapply (chain_relink h _ (Some p) (Some f) post Hcpost).
              ** intros g gn Hg Hgn. cbn [LHeap.lnodes].
                 assert (g <> f) by (intros ->; apply Hnf, Hg).
                 assert (g <> p) by (intros ->; apply Hnp, Hg).
                 rewrite !list_lookup_insert_ne by congruence.
                 rewrite (Hhead g Hg). cbn [h3 LHeap.lnodes].
                 rewrite list_lookup_insert_ne by congruence.
                 cbn [h1 LHeap.lnodes]. rewrite (lookup_app_l_Some _ _ _ _ Hgn). reflexivity.
              ** intros c Hin. cbn [LHeap.lnodes].
                 assert (Hcp : c ∈ post)
                   by (destruct post; [inversion Hin|apply list_elem_of_further; exact Hin]).
                 assert (c <> f) by (intros ->; contradiction).
                 assert (c <> p) by (intros ->; contradiction).
                 rewrite !list_lookup_insert_ne by congruence.
                 rewrite Hother.
                 --- cbn [h3 LHeap.lnodes]. rewrite list_lookup_insert_ne by congruence.
                     cbn. apply lookup_app_l. apply Hbound. apply elem_of_app. right.
                     apply list_elem_of_further. exact Hcp.
                 --- intros E. destruct post as [|g post']; [discriminate|]. injection E as ->.
                     cbn in Hin. inversion Hnd2 as [|? ? ? Hnd3]; subst.
                     inversion Hnd3; subst. contradiction.
      * apply Hkeep.
        -- intros c n Hcf Hn. cbn [LHeap.lnodes]. rewrite !list_lookup_insert_ne by congruence.
           assert (Hh3 : exists n0, LHeap.lnodes h3 !! c = Some n0 /\
                     LinkedNode.key n0 = LinkedNode.key n /\
                     LinkedNode.duplicate_count n0 = LinkedNode.duplicate_count n).
           { cbn [h3 LHeap.lnodes]. destruct (decide (c = p)) as [->|Hcp].
             - rewrite list_lookup_insert_eq by (rewrite Hlen1; lia).
               rewrite Hpn in Hn. injection Hn as <-.
               eexists. split; [reflexivity|split; reflexivity].
             - rewrite list_lookup_insert_ne by congruence.
               cbn [h1 LHeap.lnodes]. rewrite (lookup_app_l_Some _ _ _ _ Hn).
               eexists. split; [reflexivity|split; reflexivity]. }
           destruct Hh3 as (n0 & Hn0 & Hk1 & Hk2).
           destruct (decide (head post = Some c)) as [E|E].
           ++ rewrite (Hhead c E), Hn0. eexists. split; [reflexivity|]. split; assumption.
           ++ rewrite (Hother c E), Hn0. eexists. split; [reflexivity|]. split; assumption.
        -- cbn [LHeap.lnodes]. rewrite list_lookup_insert_eq by (rewrite !length_insert; exact HfL).
           reflexivity.
Qed.
End DeletePresent.

(** ** The properties at sample states *)

(** A chain on a concrete heap, node by node. *)
Ltac chain_tac := repeat (eapply chain_cons; [reflexivity|reflexivity|]); apply chain_nil.

(** The cases of a membership in a concrete list. *)
Ltac in_list H :=
  repeat (apply elem_of_cons in H as [->|H]); try (apply elem_of_nil in H; destruct H).

(** A bound on the comparison with the key of a concrete node. *)
Ltac compared Hn :=
  vm_compute in Hn; injection Hn as <-; eexists; (split; [reflexivity|cbn; lia]).

(** The LT-search for 20 in the list 10, 20, 30 returns the node of 10. *)
Lemma LL_search_present_witness :
  LL.search LLView.zCompare 2 Sample.h3 0 20 LesserThan = Ok (Some 0%nat).
Proof.
  apply (LL_search_present LLView.zCompare 2 Sample.h3 0%nat
           (SortedLinkedList.mk (Some 0%nat) (Some 2%nat) 3)
           [0%nat] 1%nat (LinkedNode.mk (Some 2%nat) (Some 0%nat) 0 20) [2%nat] 20 LesserThan).
  - reflexivity.
  - chain_tac.
  - reflexivity.
  - intros c n Hin Hn. in_list Hin; compared Hn.
  - reflexivity.
  - discriminate.
  - cbn. lia.
Defined.

(** The GE-search for 25 in the list 10, 20, 30 returns the node of 30. *)
Lemma LL_search_absent_witness :
  LL.search LLView.zCompare 3 Sample.h3 0 25 GreaterThanOrEqualsTo = Ok (Some 2%nat).
Proof.
  apply (LL_search_absent LLView.zCompare 3 Sample.h3 0%nat
           (SortedLinkedList.mk (Some 0%nat) (Some 2%nat) 3)
           [0%nat; 1%nat] [2%nat] 25 GreaterThanOrEqualsTo).
  - reflexivity.
  - chain_tac.
  - intros c n Hin Hn. in_list Hin; compared Hn.
  - intros g n Hg Hn. injection Hg as <-. compared Hn.
  - cbn. lia.
Defined.

(** Deleting 25 from the list 10, 20, 30. *)
Lemma LL_deleteNode_missing_witness :
  LL.deleteNode LLView.zCompare 3 0 25 Sample.h3 = Ok (None, Sample.h3).
Proof.
  apply (LL_deleteNode_missing LLView.zCompare 3 Sample.h3 0%nat
           (SortedLinkedList.mk (Some 0%nat) (Some 2%nat) 3) [0%nat; 1%nat; 2%nat] 25).
  - reflexivity.
  - chain_tac.
  - intros c n Hin Hn. in_list Hin; compared Hn.
  - cbn. lia.
Defined.

(** The query "the key is 20" on the list 10, 20, 30. *)
Lemma LL_find_is_filter_witness :
  LL.find 3 Sample.h3 0 (fun a _ => Ok (a - 20)) false = Ok [20].
Proof.
  apply (LL_find_is_filter (fun a _ => Ok (a - 20)) 3 Sample.h3 0%nat
           (SortedLinkedList.mk (Some 0%nat) (Some 2%nat) 3) [0%nat; 1%nat; 2%nat]
           [LinkedNode.mk (Some 1%nat) None 0 10;
            LinkedNode.mk (Some 2%nat) (Some 0%nat) 0 20;
            LinkedNode.mk None (Some 1%nat) 0 30] false).
  - reflexivity.
  - chain_tac.
  - repeat (constructor; [reflexivity|]). constructor.
  - intros n Hn. eexists. reflexivity.
  - cbn. lia.
Defined.

(** All the keys of the list 10, 20, 30, duplicates expanded. *)
Lemma LL_searchTillStream_unbounded_witness :
  LL.searchTillStream LLView.zCompare Scenario.falsy 3 Sample.h3 0 None None true
    = Ok [10; 20; 30].
Proof.
  apply (LL_searchTillStream_unbounded LLView.zCompare Scenario.falsy 3 Sample.h3 0%nat
           (SortedLinkedList.mk (Some 0%nat) (Some 2%nat) 3) [0%nat; 1%nat; 2%nat]
           [LinkedNode.mk (Some 1%nat) None 0 10;
            LinkedNode.mk (Some 2%nat) (Some 0%nat) 0 20;
            LinkedNode.mk None (Some 1%nat) 0 30]
           2%nat (LinkedNode.mk None (Some 1%nat) 0 30) true).
  - reflexivity.
  - chain_tac.
  - repeat (constructor; [reflexivity|]). constructor.
  - reflexivity.
  - reflexivity.
  - intros n Hn. in_list Hn; eexists; (split; [reflexivity|vm_compute; discriminate]).
  - cbn. lia.
Defined.

(** The list 10, 20, 30 split after index 0 and merged again. *)
Lemma LL_split_merge_round_trip_witness :
  exists h',
    (let* '(leftPart, rightPart) := LL.splitAt 0 0 in
     LL.mergeSplittedRightIntoLeft leftPart rightPart) Sample.h3 = Ok (0%nat, h') /\
    LHeap.lnodes h' = LHeap.lnodes Sample.h3 /\
    LHeap.llists h' !! 0%nat = Some (SortedLinkedList.mk (Some 0%nat) (Some 0%nat) 3).
Proof.
  apply (LL_split_merge_round_trip Sample.h3 0%nat
           (SortedLinkedList.mk (Some 0%nat) (Some 2%nat) 3) [0%nat; 1%nat; 2%nat] 0
           0%nat 1%nat).
  - reflexivity.
  - chain_tac.
  - cbn. lia.
  - reflexivity.
  - reflexivity.
Defined.

(** The same split, merged the other way. *)
Lemma LL_split_merge_left_into_right_witness :
  exists h',
    (let* '(leftPart, rightPart) := LL.splitAt 0 0 in
     LL.mergeSplittedLeftIntoRight leftPart rightPart) Sample.h3 = Ok (1%nat, h') /\
    LHeap.lnodes h' = LHeap.lnodes Sample.h3 /\
    LHeap.llists h' !! 1%nat = Some (SortedLinkedList.mk (Some 0%nat) (Some 0%nat) 3).
Proof.
  apply (LL_split_merge_left_into_right Sample.h3 0%nat
           (SortedLinkedList.mk (Some 0%nat) (Some 2%nat) 3) [0%nat; 1%nat; 2%nat] 0
           0%nat 1%nat).
  - reflexivity.
  - chain_tac.
  - cbn. lia.
  - reflexivity.
  - reflexivity.
Defined.

(** Inserting 25 into the list 10, 20, 30. *)
Lemma LL_insert_new_key_witness :
  exists h' l',
    LL.insert LLView.zCompare 3 0 25 Sample.h3 = Ok (3%nat, h') /\
    LHeap.llists h' !! 0%nat = Some l' /\
    chain h' None (SortedLinkedList.min l') [0%nat; 1%nat; 3%nat; 2%nat] /\
    SortedLinkedList.count l' = 4 /\
    (Some 2%nat = Some 2%nat -> SortedLinkedList.max l' = Some 2%nat) /\
    (exists nn, LHeap.lnodes h' !! 3%nat = Some nn /\
                LinkedNode.key nn = 25 /\ LinkedNode.duplicate_count nn = 0) /\
    (forall c n, LHeap.lnodes Sample.h3 !! c = Some n ->
       exists n', LHeap.lnodes h' !! c = Some n' /\
                  LinkedNode.key n' = LinkedNode.key n /\
                  LinkedNode.duplicate_count n' = LinkedNode.duplicate_count n).
Proof.
  apply (LL_insert_new_key LLView.zCompare 3 Sample.h3 0%nat
           (SortedLinkedList.mk (Some 0%nat) (Some 2%nat) 3) [0%nat; 1%nat] [2%nat] 25).
  - reflexivity.
  - chain_tac.
  - intros c n Hin Hn. in_list Hin; compared Hn.
  - intros g n Hg Hn. injection Hg as <-. compared Hn.
  - cbn. lia.
Defined.

(** Deleting 20 from the list 10, 20, 30. *)
Lemma LL_deleteNode_unlinks_witness :
  exists h',
    LL.deleteNode LLView.zCompare 2 0 20 Sample.h3 = Ok (Some 3%nat, h') /\
    LHeap.lnodes h' !! 3%nat = Some (LinkedNode.mk None None 0 20) /\
    LHeap.lnodes h' !! 1%nat = Some (LinkedNode.mk None None 0 20) /\
    LHeap.llists h' !! 0%nat = Some (SortedLinkedList.mk (Some 0%nat) (Some 2%nat) 2) /\
    chain h' None (Some 0%nat) [0%nat; 2%nat] /\
    (forall c n, LHeap.lnodes Sample.h3 !! c = Some n ->
       exists n', LHeap.lnodes h' !! c = Some n' /\
                  LinkedNode.key n' = LinkedNode.key n /\
                  LinkedNode.duplicate_count n' = LinkedNode.duplicate_count n).
Proof.
  apply (LL_deleteNode_unlinks LLView.zCompare 2 Sample.h3 0%nat
           (SortedLinkedList.mk (Some 0%nat) (Some 2%nat) 3)
           [0%nat] 1%nat (LinkedNode.mk (Some 2%nat) (Some 0%nat) 0 20) [2%nat] 20).
  - reflexivity.
  - chain_tac.
  - reflexivity.
  - intros c n Hin Hn. in_list Hin; compared Hn.
  - reflexivity.
  - cbn. lia.
  - discriminate.
  - cbn. lia.
Defined.

(** The leaves of a concrete tree, leaf by leaf. *)
Ltac leaves_tac := repeat (eapply leafChain_cons; [reflexivity|]); apply leafChain_nil.

(** The records held by concrete references. *)
Ltac held_tac := repeat (constructor; [reflexivity|]); constructor.

(** The right leaf of the tree 10, ..., 50 has the cell 9 of the root
    as its parent cell. *)
Lemma find_effective_parent_cell_nearest_witness :
  BB.find_effective_parent_cell 1 Sample.stv5 1 = Ok 9%nat.
Proof.
  apply (find_effective_parent_cell_nearest Sample.stv5 1%nat 0%nat 9%nat 1%nat).
  - eapply spine_here; reflexivity.
  - lia.
Defined.

(** The left leaf of that tree has no parent cell, and neither has the
    root: the result is the first cell of the root. *)
Lemma find_effective_parent_cell_leftmost_witness :
  BB.find_effective_parent_cell 2 Sample.stv5 0 = Ok 9%nat.
Proof.
  apply (find_effective_parent_cell_leftmost Sample.stv5 0%nat 1%nat
           (BPlusNode.mk None (Some 1%nat) None (Some 2%nat) 1 None true) 2%nat).
  - eapply spine_off_up; [reflexivity|reflexivity|reflexivity|].
    eapply spine_root; reflexivity.
  - lia.
  - reflexivity.
Defined.

(** The lookup of 20 in the tree 10, ..., 50. *)
Lemma lookups_only_add_cells_witness :
  exists r st',
    BB.searchForKey 5 Scenario.intCompare 20 EqualsTo Sample.stv5 = Ok (r, st') /\
    grown Sample.stv5 st'.
Proof.
  eexists _, _. split; [vm_compute; reflexivity|].
  eapply (proj1 (lookups_only_add_cells 5 Scenario.intCompare 20 EqualsTo Sample.stv5)).
  vm_compute. reflexivity.
Defined.

(** The EQ-lookups of 20 in the tree 10, ..., 50. *)
Lemma searchForKV_pairs_key_and_value_witness :
  BB.searchForKey 5 Scenario.intCompare 20 EqualsTo Sample.stv5 =
    (let* kv := BB.searchForKV 5 Scenario.intCompare 20 EqualsTo in
     ret (option_map fst kv)) Sample.stv5 /\
  BB.searchForValue 5 Scenario.intCompare 20 EqualsTo Sample.stv5 =
    (let* kv := BB.searchForKV 5 Scenario.intCompare 20 EqualsTo in
     ret (match kv with Some (_, v) => v | None => None end)) Sample.stv5.
Proof.
  apply (searchForKV_pairs_key_and_value 4 Scenario.intCompare 20 EqualsTo Sample.stv5);
    discriminate.
Defined.


(** The lookups of 20 in the one-leaf tree 10, 20, 30. *)
Lemma leaf_root_lookup_finds_witness :
  let probe := BPlusCell.new 20 None None in
  let st2 := Heap.add_cell (Heap.add_cell Sample.st3 probe) probe in
  BB.searchForKey 2 Scenario.intCompare 20 EqualsTo Sample.st3 = Ok (Some 20, st2) /\
  BB.searchForValue 2 Scenario.intCompare 20 EqualsTo Sample.st3 = Ok (Some 2, st2) /\
  BB.searchForKV 2 Scenario.intCompare 20 EqualsTo Sample.st3 = Ok (Some (20, Some 2), st2).
Proof.
  apply (leaf_root_lookup_finds 2 Scenario.intCompare 20 EqualsTo Sample.st3 0%nat
           (BPlusNode.mk None None None None 1 None true)
           (SortedLinkedList.mk (Some 0%nat) (Some 2%nat) 3)
           [0%nat] 1%nat (LinkedNode.mk (Some 2%nat) (Some 0%nat) 0 2%nat)
           (BPlusCell.mk 20 (Some 2) None (Some 0%nat)) [2%nat]).
  - reflexivity.
  - reflexivity.
  - reflexivity.
  - reflexivity.
  - chain_tac.
  - reflexivity.
  - reflexivity.
  - intros c ln Hin Hn. in_list Hin. vm_compute in Hn. injection Hn as <-.
    do 2 eexists. split; [reflexivity|]. split; [reflexivity|cbn; lia].
  - reflexivity.
  - discriminate.
  - discriminate.
  - cbn. lia.
Defined.

(** Deleting 5 from the tree that holds only 5. *)
Lemma delete_only_key_drops_root_witness :
  let st := firstState Sample.st0 5 (Some 7) in
  exists st',
    BB.deleteKey 1 Scenario.intCompare 5 st = Ok (Some 5, st') /\
    BB.deleteKeyReturnValue 1 Scenario.intCompare 5 st = Ok (Some 7, st') /\
    BB.getSize st' = BB.getSize st - 1 /\
    BPlusTree.root_node (Heap.tree st') = None /\
    BPlusTree.left_most_node (Heap.tree st') = BPlusTree.left_most_node (Heap.tree st) /\
    BPlusTree.right_most_node (Heap.tree st') = BPlusTree.right_most_node (Heap.tree st) /\
    Heap.nodes st' = Heap.nodes st.
Proof.
  apply (delete_only_key_drops_root 0 Scenario.intCompare 5 (firstState Sample.st0 5 (Some 7))
           0%nat (BPlusNode.mk None None None None 1 None true)
           (SortedLinkedList.mk (Some 0%nat) (Some 0%nat) 1)
           0%nat (LinkedNode.new 0%nat) (BPlusCell.mk 5 (Some 7) None (Some 0%nat))).
  - reflexivity.
  - reflexivity.
  - reflexivity.
  - reflexivity.
  - reflexivity.
  - reflexivity.
  - reflexivity.
  - reflexivity.
  - chain_tac.
  - reflexivity.
  - reflexivity.
  - reflexivity.
  - reflexivity.
  - cbn. lia.
  - cbn. lia.
Defined.

(** The first insert into a new tree. *)
Lemma insert_first_key_witness :
  exists st' n,
    BB.insert 0 Scenario.intCompare 5 (Some 7) Sample.st0 = Ok (Some 5, st') /\
    BB.getSize st' = BB.getSize Sample.st0 + 1 /\
    BPlusTree.root_node (Heap.tree st') = Some 0%nat /\
    BPlusTree.left_most_node (Heap.tree st') = Some 0%nat /\
    BPlusTree.right_most_node (Heap.tree st') = Some 0%nat /\
    Heap.nodes st' !! 0%nat = Some n /\
    BPlusNode.isLeaf n = true /\
    BPlusNode.parent_node n = None /\
    BPlusNode.leftSibling n = None /\ BPlusNode.rightSibling n = None /\
    hasCount st' 0 1 /\
    hasFirstKey st' 0 5 /\
    Heap.cells st' !! 0%nat = Some (BPlusCell.mk 5 (Some 7) None (Some 0%nat)) /\
    (forall i x, Heap.nodes Sample.st0 !! i = Some x -> Heap.nodes st' !! i = Some x) /\
    (forall i c, Heap.cells Sample.st0 !! i = Some c -> Heap.cells st' !! i = Some c).
Proof.
  apply (insert_first_key 0 Scenario.intCompare 5 (Some 7) Sample.st0). reflexivity.
Defined.

(** On a new cache of node size 4. *)
Lemma cache_put_get_delete_round_trip_witness :
  exists st1 st2 st3,
    InMemoCache.put Scenario.cmp 0 5 (Some 7) Sample.st0 = Ok (tt, st1) /\
    InMemoCache.size st1 = InMemoCache.size Sample.st0 + 1 /\
    InMemoCache.get Scenario.cmp 1 5 st1 = Ok (Some 7, st2) /\
    InMemoCache.delete Scenario.cmp 1 5 st2 = Ok (Some 7, st3) /\
    InMemoCache.size st3 = InMemoCache.size Sample.st0 /\
    InMemoCache.get Scenario.cmp 0 5 st3 = Ok (None, st3).
Proof.
  apply (cache_put_get_delete_round_trip Scenario.cmp 0 5 (Some 7) Sample.st0).
  - reflexivity.
  - cbn. lia.
  - cbn. lia.
  - reflexivity.
Defined.

(** The range from 15 to 45 on the tree 10, ..., 50. *)
Lemma ranges_only_add_cells_witness :
  exists r st',
    BB.searchForRangeWithPagination Scenario.falsy 5 Scenario.intCompare 0 (-1)
      (Some 15) (Some 45) Sample.stv5 = Ok (r, st') /\
    grown Sample.stv5 st'.
Proof.
  eexists _, _. split; [vm_compute; reflexivity|].
  eapply (proj1 (ranges_only_add_cells Scenario.falsy 5 Scenario.intCompare 0 (-1)
                   (Some 15) (Some 45) Sample.stv5)).
  vm_compute. reflexivity.
Defined.

(** The second of the keys of the one-leaf tree 10, 20, 30. *)
Lemma range_unbounded_is_window_witness :
  BB.searchForRangeWithPagination Scenario.falsy 4 Scenario.intCompare 1 1 None None Sample.st3
    = Ok ([20], Sample.st3) /\
  BB.searchForRangeWithPaginationV Scenario.falsy 4 Scenario.intCompare 1 1 None None Sample.st3
    = Ok ([Some 2], Sample.st3) /\
  BB.searchForRangeWithPaginationKVP Scenario.falsy 4 Scenario.intCompare 1 1 None None Sample.st3
    = Ok ([(20, Some 2)], Sample.st3).
Proof.
  apply (range_unbounded_is_window Scenario.falsy Sample.st3 Scenario.intCompare 3 4 1 1
           None None [0%nat] [[0%nat; 2%nat; 4%nat]]
           [BPlusCell.mk 10 (Some 1) None (Some 0%nat);
            BPlusCell.mk 20 (Some 2) None (Some 0%nat);
            BPlusCell.mk 30 (Some 3) None (Some 0%nat)]).
  - reflexivity.
  - reflexivity.
  - leaves_tac.
  - reflexivity.
  - constructor; [|constructor].
    exists (BPlusNode.mk None None None None 1 None true),
           (SortedLinkedList.mk (Some 0%nat) (Some 2%nat) 3),
           [0%nat; 1%nat; 2%nat],
           [LinkedNode.mk (Some 1%nat) None 0 0%nat;
            LinkedNode.mk (Some 2%nat) (Some 0%nat) 0 2%nat;
            LinkedNode.mk None (Some 1%nat) 0 4%nat].
    split; [reflexivity|]. split; [reflexivity|]. split; [chain_tac|].
    split; [held_tac|]. split; [reflexivity|]. split; [cbn; lia|].
    eexists. split; [reflexivity|].
    intros id Hin. in_list Hin; eexists; (split; [reflexivity|cbn; lia]).
  - held_tac.
  - cbn. lia.
Defined.

(** The root of the tree 10, ..., 50 adopts the right leaf. *)
Lemma adoption_sets_parent_of_right_children_witness :
  let fuel := 1%nat in
  let st := Sample.stv5 in
  let node := 2%nat in
  let n := BPlusNode.mk None None None None 6 (Some 0%nat) false in
  let list := 6%nat in
  let cs := [BPlusCell.mk (V:=Z) 30 None (Some 1%nat) (Some 2%nat)] in
  let adopted (i : nat) :=
    if BPlusNode.isLeaf n then Heap.nodes st !! i
    else if decide (i ∈ omap BPlusCell.right_child_node cs)
         then BPlusNode.set_parent_node (Some node) <$> (Heap.nodes st !! i)
         else Heap.nodes st !! i in
  (BPlusNode.cellsList n = list ->
   exists st',
     reinforceParentShipInChildNodes fuel node st = Ok (tt, st') /\
     Heap.lheap st' = Heap.lheap st /\ Heap.cells st' = Heap.cells st /\
     Heap.tree st' = Heap.tree st /\
     forall i, Heap.nodes st' !! i = adopted i) /\
  (exists st',
     setAsCellsList fuel node list st = Ok (tt, st') /\
     Heap.lheap st' = Heap.lheap st /\ Heap.cells st' = Heap.cells st /\
     Heap.tree st' = Heap.tree st /\
     forall i, Heap.nodes st' !! i =
       if decide (i = node) then BPlusNode.set_cellsList list <$> adopted i else adopted i).
Proof.
  cbv zeta.
  apply (adoption_sets_parent_of_right_children 1 Sample.stv5 2%nat
           (BPlusNode.mk None None None None 6 (Some 0%nat) false) 6%nat
           (SortedLinkedList.mk (Some 5%nat) (Some 5%nat) 1) [5%nat]
           [LinkedNode.mk None None 0 9%nat]
           [BPlusCell.mk 30 None (Some 1%nat) (Some 2%nat)]).
  - reflexivity.
  - reflexivity.
  - chain_tac.
  - held_tac.
  - held_tac.
  - intros r Hr. cbn in Hr. in_list Hr. cbn. lia.
  - cbn. lia.
Defined.

(** On the tree 10, ..., 50 with the values 1, ..., 5, a query that
    matches every key, with [limit = 2]: the left leaf is cut after two
    values, and the right leaf adds both of its values. *)
Lemma findV_limit_cuts_inside_a_leaf_witness :
  BB.findV Scenario.falsy 5 Scenario.intCompare (fun _ _ => Ok 0) None false 2 Sample.stv5 =
    Ok ([Some 1; Some 2; Some 4; Some 5],
        Heap.add_cell Sample.stv5 (BPlusCell.new 10 None None)).
Proof.
  apply (findV_limit_cuts_inside_a_leaf Scenario.falsy (fun _ _ => Ok 0) 5 Scenario.intCompare
           None false 2 3 Sample.stv5
           (Heap.add_cell Sample.stv5 (BPlusCell.new 10 None None))
           (Some 0%nat) [0%nat; 1%nat]
           [[BPlusCell.mk 10 (Some 1) None (Some 0%nat);
             BPlusCell.mk 20 (Some 2) None (Some 0%nat);
             BPlusCell.mk 30 (Some 3) None (Some 0%nat)];
            [BPlusCell.mk 40 (Some 4) None (Some 0%nat);
             BPlusCell.mk 50 (Some 5) None (Some 0%nat)]]).
  - reflexivity.
  - vm_compute. reflexivity.
  - leaves_tac.
  - constructor; [|constructor; [|constructor]].
    + exists (BPlusNode.mk None (Some 1%nat) None (Some 2%nat) 1 None true),
             (SortedLinkedList.mk (Some 0%nat) (Some 2%nat) 3),
             [0%nat; 1%nat; 2%nat],
             [LinkedNode.mk (Some 1%nat) None 0 0%nat;
              LinkedNode.mk (Some 2%nat) (Some 0%nat) 0 2%nat;
              LinkedNode.mk None (Some 1%nat) 0 4%nat].
      split; [reflexivity|]. split; [reflexivity|]. split; [chain_tac|].
      split; [held_tac|]. split; [held_tac|cbn; lia].
    + exists (BPlusNode.mk (Some 9%nat) None (Some 0%nat) (Some 2%nat) 2 None true),
             (SortedLinkedList.mk (Some 3%nat) (Some 2%nat) 2),
             [3%nat; 4%nat],
             [LinkedNode.mk (Some 4%nat) None 0 6%nat;
              LinkedNode.mk None (Some 3%nat) 0 8%nat].
      split; [reflexivity|]. split; [reflexivity|]. split; [chain_tac|].
      split; [held_tac|]. split; [held_tac|cbn; lia].
  - intros cs c _ _. eexists. reflexivity.
  - cbn. lia.
Defined.

